(** * Web Scraper AI: the extraction and fallback-decision core of route.js

    A shallow embedding of the scraping route (URL validation, the cheerio
    based extractor, the two heuristic classifiers, the HTTP and browser
    fetchers and the orchestrator [scrapeAndSummarize]) together with the
    properties its specification states about it.

    Conventions.
    - A JavaScript string is the sequence of its UTF-16 code units
      ([jsstring]); [length] is [.length], [take n] is [.slice(0, n)].
    - [undefined]/[null] is [None]; a value used in a condition is tested
      with [truthy].
    - cheerio, the WHATWG URL parser and [String.prototype.toLowerCase] are
      libraries of the platform: they are interfaces ([Cheerio], [Runtime])
      the program is written against, and every theorem holds for all their
      implementations.  [Mini] gives one small implementation on which the
      program can be run.
    - Network, browser and timer outcomes are read from a [World]; the
      asynchronous functions run in the monad [M], which logs the external
      calls they make and carries the JavaScript exception, if any. *)

From stdpp Require Import base list gmap strings.
From Stdlib Require Import NArith Lia DecimalString.

Set Warnings "-register-all".

Local Open Scope N_scope.
Local Open Scope nat_scope.
Local Open Scope list_scope.

(** ** JavaScript strings *)

Definition jsstring := list N.

(** The code units of an ASCII literal. *)
Definition js (s : string) : jsstring :=
  List.map Ascii.N_of_ascii (String.list_ascii_of_string s).

(** [`${n}`] for a non-negative integer. *)
Definition decimal (n : nat) : jsstring :=
  js (NilZero.string_of_uint (Nat.to_uint n)).

(** Truthiness of a string-or-undefined value: [if (v)]. *)
Definition truthy (v : option jsstring) : bool :=
  match v with
  | Some (_ :: _) => true
  | _ => false
  end.

(** [a || b] on string-or-undefined values. *)
Definition orElse (a b : option jsstring) : option jsstring :=
  if truthy a then a else b.

(** The code units matched by [\s] and stripped by [trim()]: WhiteSpace and
    LineTerminator of ECMAScript. *)
Definition isWhiteSpace (c : N) : bool :=
  bool_decide (c ∈ [9; 10; 11; 12; 13; 32; 160; 5760; 8232; 8233; 8239; 8287;
                    12288; 65279]%N)
  || ((8192 <=? c)%N && (c <=? 8202)%N).

Fixpoint trimStart (s : jsstring) : jsstring :=
  match s with
  | c :: r => if isWhiteSpace c then trimStart r else s
  | [] => []
  end.

Definition trimEnd (s : jsstring) : jsstring :=
  reverse (trimStart (reverse s)).

Definition trim (s : jsstring) : jsstring := trimEnd (trimStart s).

(** [s.replace(/\s+/g, ' ')]: every maximal run of white space becomes one
    space.  [inRun] records that the previous code unit was white space. *)
Fixpoint replaceRuns (inRun : bool) (s : jsstring) : jsstring :=
  match s with
  | [] => []
  | c :: r =>
      if isWhiteSpace c
      then (if inRun then replaceRuns true r else 32%N :: replaceRuns true r)
      else c :: replaceRuns false r
  end.

Definition collapseWhiteSpace (s : jsstring) : jsstring := replaceRuns false s.

Definition jseqb (a b : jsstring) : bool := bool_decide (a = b).

Fixpoint startsWith (s p : jsstring) : bool :=
  match p, s with
  | [], _ => true
  | _ :: _, [] => false
  | a :: p', b :: s' => (a =? b)%N && startsWith s' p'
  end.

(** [s.includes(p)]. *)
Fixpoint includes (s p : jsstring) : bool :=
  startsWith s p ||
  match s with
  | [] => false
  | _ :: s' => includes s' p
  end.

(** [parts.join(sep)]. *)
Fixpoint join (sep : jsstring) (parts : list jsstring) : jsstring :=
  match parts with
  | [] => []
  | [p] => p
  | p :: rest => p ++ sep ++ join sep rest
  end.

(** ** Constants of the route *)

Definition OVERALL_TIMEOUT_MS : N := 25000%N.
Definition MAX_TABLES : nat := 10.
Definition MAX_TABLE_ROWS : nat := 50.
Definition MAX_TABLE_COLS : nat := 20.
Definition MAX_LISTS : nat := 30.
Definition MAX_LIST_ITEMS : nat := 60.
Definition MAX_UNIQUE_COMPONENTS : nat := 80.

(** ** normalizeText *)

Definition normalizeText (value : option jsstring) : jsstring :=
  match value with
  | Some (c :: r) => trim (collapseWhiteSpace (c :: r))
  | _ => []
  end.

(** ** The platform: cheerio and the JavaScript runtime *)

(** A parsed [URL] object, as far as the route reads it. *)
Record URL := { protocol : jsstring; href : jsstring }.

(** What the route uses of the runtime.  [newURL input base] is
    [new URL(input, base)], [None] when the constructor throws. *)
Class Runtime := {
  toLowerCase : jsstring -> jsstring;
  newURL : jsstring -> option jsstring -> option URL
}.

(** What the route uses of cheerio.  [select doc s] is [$(s)] as the array of
    its elements, [find el s] is [$(el).find(s)], [outerHTML doc el] is
    [$.html(el)]. *)
Class Cheerio := {
  Document : Type;
  Element : Type;
  load : jsstring -> Document;
  select : Document -> string -> list Element;
  find : Element -> string -> list Element;
  text : Element -> jsstring;
  attr : Element -> string -> option jsstring;
  tagName : Element -> option jsstring;
  outerHTML : Document -> Element -> jsstring
}.

(** [selection.each((i, x) => ...)] where the callback never returns [false]:
    the body runs on every element, threading the variables it assigns. *)
Fixpoint eachFrom {A St : Type} (i : nat) (l : list A)
    (body : St -> nat -> A -> St) (s : St) : St :=
  match l with
  | [] => s
  | x :: r => eachFrom (S i) r body (body s i x)
  end.

Definition each {A St : Type} (l : list A) (body : St -> nat -> A -> St)
    (s : St) : St :=
  eachFrom 0 l body s.

(** [a || b] on strings. *)
Definition orStr (a b : jsstring) : jsstring :=
  match a with
  | [] => b
  | _ => a
  end.

Definition nonEmpty (s : jsstring) : bool :=
  match s with
  | [] => false
  | _ => true
  end.

(** [a || ... || ''] ending a chain of string-or-undefined values. *)
Definition orDefault (a : option jsstring) (d : jsstring) : jsstring :=
  match a with
  | Some (c :: r) => c :: r
  | _ => d
  end.

(** A double quote, for the attribute selectors. *)
Definition dq : string := String (Ascii.ascii_of_nat 34) EmptyString.

(** ** The extracted records *)

Module Table.
Record t := {
  caption : jsstring;
  headers : list jsstring;
  rows : list (list jsstring);
  rowCount : nat;
  colCount : nat;
  html : jsstring
}.
End Table.

Module List_.
Record t := {
  type : jsstring;
  items : list jsstring;
  itemCount : nat;
  html : jsstring
}.
End List_.

Module Component.
Record t := { name : jsstring; content : jsstring }.
End Component.

Module Link.
Record t := { url : jsstring; text : jsstring }.
End Link.

Module Tech.
Record t := { name : jsstring; icon : jsstring }.
End Tech.

Record ExtractedDocument := {
  title : jsstring;
  description : jsstring;
  paragraphs : list jsstring;
  images : list jsstring;
  links : list Link.t;
  tables : list Table.t;
  lists : list List_.t;
  uniqueComponents : list Component.t;
  rawHtml : jsstring;
  techStack : list Tech.t;
  _bodyTextLength : nat
}.

(** ** The extractor *)

Section Extractor.
Context {R : Runtime} {C : Cheerio}.

(** [selection.first()]. *)
Definition first (sel : list Element) : list Element := take 1 sel.

(** [selection.text()]: the texts of the selected elements, concatenated. *)
Definition selText (sel : list Element) : jsstring :=
  List.concat (List.map text sel).

(** [selection.attr(a)]: the attribute of the first selected element. *)
Definition selAttr (sel : list Element) (a : string) : option jsstring :=
  match sel with
  | [] => None
  | el :: _ => attr el a
  end.

(** [selection.find(s)] on a selection of at most one element. *)
Definition selFind (sel : list Element) (s : string) : list Element :=
  List.concat (List.map (fun el => find el s) sel).

(** [cells.map((_, cell) => normalizeText($(cell).text())).get()]. *)
Definition cellTexts (cells : list Element) : list jsstring :=
  List.map (fun cell => normalizeText (Some (text cell))) cells.

(** The header cells of a table: the first [thead] row, else the first row
    when it has a [th]. *)
Definition tableHeaders (table : Element) : list jsstring :=
  let theadHeaderCells := selFind (first (find table "thead tr")) "th, td" in
  if 0 <? length theadHeaderCells
  then take MAX_TABLE_COLS (cellTexts theadHeaderCells)
  else
    let firstRow := first (find table "tr") in
    let firstRowHasTh := 0 <? length (selFind firstRow "th") in
    if firstRowHasTh
    then take MAX_TABLE_COLS (cellTexts (selFind firstRow "th, td"))
    else [].

(** The body of [allRows.each((rowIdx, tr) => ...)]; [rows] is the array it
    pushes to. *)
Definition rowStep (table : Element) (headers : list jsstring)
    (rows : list (list jsstring)) (rowIdx : nat) (tr : Element)
    : list (list jsstring) :=
  if MAX_TABLE_ROWS <=? length rows then rows
  else if (rowIdx =? 0) && (0 <? length headers)
          && (length (find table "thead tr") =? 0)
  then rows
  else
    let cells :=
      List.filter (fun v => 0 <? length v)
        (take MAX_TABLE_COLS (cellTexts (find tr "th, td"))) in
    if 0 <? length cells then rows ++ [cells] else rows.

Definition tableRows (table : Element) (headers : list jsstring)
    : list (list jsstring) :=
  let allRows :=
    if 0 <? length (find table "tbody tr")
    then find table "tbody tr" else find table "tr" in
  each allRows (rowStep table headers) [].

(** The body of [$('table').each((_, table) => ...)]. *)
Definition tableStep (doc : Document) (tables : list Table.t) (_ : nat)
    (table : Element) : list Table.t :=
  if MAX_TABLES <=? length tables then tables
  else
    let caption := normalizeText (Some (selText (first (find table "caption")))) in
    let headers := tableHeaders table in
    let rows := tableRows table headers in
    if (length headers =? 0) && (length rows =? 0) then tables
    else
      let colCount := max_list (length headers :: List.map length rows) in
      tables ++ [ {| Table.caption := caption;
                     Table.headers := headers;
                     Table.rows := rows;
                     Table.rowCount := length rows;
                     Table.colCount := colCount;
                     Table.html := outerHTML doc table |} ].

Definition extractTables (doc : Document) : list Table.t :=
  each (select doc "table") (tableStep doc) [].

(** The items of one list [lst]: [$list.find('li')] normalised, the empty ones
    dropped, the first [MAX_LIST_ITEMS] kept. *)
Definition listItems (lst : Element) : list jsstring :=
  take MAX_LIST_ITEMS
    (List.filter (fun t => 0 <? length t)
       (List.map (fun li => normalizeText (Some (text li))) (find lst "li"))).

(** [list?.tagName?.toLowerCase?.() === 'ol' ? 'ol' : 'ul']. *)
Definition listType (lst : Element) : jsstring :=
  match tagName lst with
  | Some tag => if jseqb (toLowerCase tag) (js "ol") then js "ol" else js "ul"
  | None => js "ul"
  end.

(** The body of [$('ul, ol').each((_, list) => ...)]. *)
Definition listStep (doc : Document) (lists : list List_.t) (_ : nat)
    (lst : Element) : list List_.t :=
  if MAX_LISTS <=? length lists then lists
  else
    let items := listItems lst in
    if length items =? 0 then lists
    else
      lists ++ [ {| List_.type := listType lst;
                    List_.items := items;
                    List_.itemCount := length items;
                    List_.html := outerHTML doc lst |} ].

Definition extractLists (doc : Document) : list List_.t :=
  each (select doc "ul, ol") (listStep doc) [].

(** The selector of the notable elements ([candidates]). *)
Definition candidates : string :=
  "h1,h2,h3,h4,h5,h6,blockquote,pre,code,form,button,input,select,textarea,header,nav,main,section,article,aside,footer,iframe,video,audio".

Definition skipTags : gset jsstring :=
  list_to_set [js "p"; js "a"; js "img"; js "table"; js "ul"; js "ol"].

(** [pickAttrs]: the compact summary [type=... | name=... | ...] of the
    attributes that are present and non-empty. *)
Definition pickAttrs (el : Element) : jsstring :=
  let attrs :=
    ["type"; "name"; "id"; "placeholder"; "value"; "aria-label"; "role";
     "title"]%string in
  let parts :=
    List.flat_map
      (fun a =>
         let v := attr el a in
         if truthy v then [js a ++ js "=" ++ normalizeText v] else [])
      attrs in
  join (js " | ") parts.

(** [name] of a component: the tag, or [input[type=t]] for an input with a
    non-empty type. *)
Definition componentName (el : Element) (tag : jsstring) : jsstring :=
  if jseqb tag (js "input")
  then
    let t := normalizeText (attr el "type") in
    if nonEmpty t then js "input[type=" ++ t ++ js "]" else tag
  else tag.

(** [content] of a component before it is cut to 300 code units. *)
Definition componentContent (el : Element) : jsstring :=
  let content := normalizeText (Some (text el)) in
  let content :=
    if nonEmpty content then content
    else
      orStr (normalizeText (attr el "aria-label"))
        (orStr (normalizeText (attr el "placeholder"))
           (orStr (normalizeText (attr el "title")) [])) in
  let attrs := pickAttrs el in
  if nonEmpty attrs
  then (if nonEmpty content then content ++ js " (" ++ attrs ++ js ")"
        else attrs)
  else content.

(** [`${name}::${content}`]. *)
Definition componentKey (name content : jsstring) : jsstring :=
  name ++ js "::" ++ content.

(** The body of [$(candidates).each((_, el) => ...)]; the state is the set
    [seen] and the array [out]. *)
Definition componentStep (st : gset jsstring * list Component.t) (_ : nat)
    (el : Element) : gset jsstring * list Component.t :=
  let '(seen, out) := st in
  if MAX_UNIQUE_COMPONENTS <=? length out then st
  else
    let tag := toLowerCase (default [] (tagName el)) in
    if negb (nonEmpty tag) || bool_decide (tag ∈ skipTags) then st
    else
      let name := componentName el tag in
      let content := componentContent el in
      if negb (nonEmpty content) then st
      else
        let key := componentKey name content in
        if bool_decide (key ∈ seen) then st
        else
          (seen ∪ {[ key ]},
           out ++ [ {| Component.name := name;
                       Component.content := take 300 content |} ]).

Definition extractUniqueComponents (doc : Document) : list Component.t :=
  snd (each (select doc candidates) componentStep (∅, [])).

(** [technologies.push({ name, icon })]. *)
Definition push (technologies : list Tech.t) (name icon : string)
    : list Tech.t :=
  technologies ++ [ {| Tech.name := js name; Tech.icon := js icon |} ].

Definition detectTechStack (html url : jsstring) : list Tech.t :=
  let lowerHtml := toLowerCase html in
  let has := fun s : string => includes lowerHtml (js s) in
  let t := [] in
  (* Frontend frameworks *)
  let t :=
    if has "react" || has "_next" || has "__next"
    then (if has "_next" then push t "Next.js" "Next"
          else push t "React" "React")
    else t in
  let t :=
    if has "vue" || has "nuxt"
    then push t (if has "nuxt" then "Nuxt.js" else "Vue.js") "Vue" else t in
  let t :=
    if has "angular" || has "ng-version" then push t "Angular" "Angular"
    else t in
  let t := if has "svelte" then push t "Svelte" "Svelte" else t in
  (* CSS frameworks *)
  let t := if has "bootstrap" then push t "Bootstrap" "Bootstrap" else t in
  let t := if has "tailwind" then push t "Tailwind CSS" "Tailwind" else t in
  let t :=
    if has "material-ui" || has "mui" then push t "Material-UI" "MUI"
    else t in
  (* Backend and CMS *)
  let t :=
    if has "wordpress" || has "wp-content" then push t "WordPress" "WP"
    else t in
  let t := if has "shopify" then push t "Shopify" "Shopify" else t in
  let t := if has "wix" then push t "Wix" "Wix" else t in
  (* Analytics and tools *)
  let t :=
    if has "google-analytics" || has "gtag"
    then push t "Google Analytics" "GA" else t in
  let t := if has "jquery" then push t "jQuery" "jQuery" else t in
  let t := if has "cloudflare" then push t "Cloudflare" "CF" else t in
  (* Meta frameworks *)
  let t := if has "gatsby" then push t "Gatsby" "Gatsby" else t in
  let t := if has "remix" then push t "Remix" "Remix" else t in
  (* Hosting *)
  let t :=
    if includes url (js "vercel.app") then push t "Vercel" "Vercel" else t in
  let t :=
    if includes url (js "netlify.app") then push t "Netlify" "Netlify"
    else t in
  let t :=
    if includes url (js "github.io") then push t "GitHub Pages" "GitHub"
    else t in
  t.

(** The callback of [$('img').map(...)]: the absolute URL of one image, or
    [None] for the [null] that [map] drops. *)
Definition imageUrl (url : jsstring) (el : Element) : option jsstring :=
  let src := orElse (attr el "src") (attr el "data-src") in
  match src with
  | Some (c :: r) =>
      let src := c :: r in
      match newURL src (Some url) with
      | Some u => Some (href u)
      | None => if startsWith src (js "http") then Some src else None
      end
  | _ => None
  end.

(** The callback of [$('a').map(...)]. *)
Definition linkOf (url : jsstring) (el : Element) : option Link.t :=
  let href_ := attr el "href" in
  let text_ := trim (text el) in
  match href_ with
  | Some (c :: r) =>
      let h := c :: r in
      if startsWith h (js "#") || startsWith h (js "javascript:") then None
      else
        match newURL h (Some url) with
        | Some u => Some {| Link.url := href u; Link.text := orStr text_ h |}
        | None =>
            if startsWith h (js "http")
            then Some {| Link.url := h; Link.text := orStr text_ h |}
            else None
        end
  | _ => None
  end.

Definition extractFromHtml (html url : jsstring) : ExtractedDocument :=
  let doc := load html in
  let textContent := trim (selText (select doc "body")) in
  let tables := extractTables doc in
  let lists := extractLists doc in
  let uniqueComponents := extractUniqueComponents doc in
  let paragraphs :=
    List.filter (fun t => 30 <? length t)
      (List.map (fun el => trim (text el))
         (select doc "p, article p, main p, .content p")) in
  {| title :=
       orStr (trim (selText (select doc "title")))
         (orStr (trim (selText (first (select doc "h1"))))
            (js "No title found"));
     description :=
       orDefault
         (orElse
            (orElse
               (selAttr
                  (select doc ("meta[name=" +:+ dq +:+ "description" +:+ dq +:+ "]"))
                  "content")
               (selAttr
                  (select doc
                     ("meta[property=" +:+ dq +:+ "og:description" +:+ dq +:+ "]"))
                  "content"))
            (Some (take 160 (trim (selText (first (select doc "p")))))))
         [];
     paragraphs := paragraphs;
     images :=
       take 20
         (List.filter nonEmpty (omap (imageUrl url) (select doc "img")));
     links := take 50 (omap (linkOf url) (select doc "a"));
     tables := tables;
     lists := lists;
     uniqueComponents := uniqueComponents;
     rawHtml := html;
     techStack := detectTechStack html url;
     _bodyTextLength := length textContent |}.

(** ** The heuristic classifier *)

Definition looksBlockedOrJsRequired (html : option jsstring)
    (extracted : option ExtractedDocument) : bool :=
  let lower := toLowerCase (orDefault html []) in
  if match extracted with
     | Some e => _bodyTextLength e <? 120
     | None => false
     end then true
  else if includes lower (js "enable javascript") then true
  else if includes lower (js "please enable cookies") then true
  else if includes lower (js "attention required")
          && includes lower (js "cloudflare") then true
  else if includes lower (js "cf-chl")
          || includes lower (js "challenge-platform") then true
  else if includes lower (js "access denied") then true
  else false.

Definition looksEmptyExtraction (extracted : option ExtractedDocument)
    : bool :=
  let paras := from_option (fun e => length (paragraphs e)) 0 extracted in
  let links := from_option (fun e => length (links e)) 0 extracted in
  let bodyLen := from_option _bodyTextLength 0 extracted in
  (* If the body is tiny and we got basically nothing, this is likely
     blocked/challenged. *)
  if (bodyLen <? 200) && (paras <? 2) then true
  (* Many bot walls return a couple of generic links. *)
  else if (paras =? 0) && (links <=? 3) then true
  else false.

End Extractor.

(** ** Formatting the digest *)

Definition newline : jsstring := [10%N].
Definition ellipsis : jsstring := [8230%N].

(** [xs.map(normalizeText).filter(Boolean)]. *)
Definition normalizedNonEmpty (xs : list jsstring) : list jsstring :=
  List.filter nonEmpty (List.map (fun x => normalizeText (Some x)) xs).

(** The lines of the rows [r], [r+1], ... of one table, as the inner [for]
    pushes them. *)
Fixpoint formatRows (r : nat) (rows : list (list jsstring)) : list jsstring :=
  match rows with
  | [] => []
  | row0 :: rest =>
      let row := normalizedNonEmpty row0 in
      (if 0 <? length row
       then [js "- row " ++ decimal (r + 1) ++ js ": " ++ join (js " | ") row]
       else [])
      ++ formatRows (S r) rest
  end.

(** The lines of the tables [i], [i+1], ... *)
Fixpoint formatTablesFrom (i : nat) (tables : list Table.t) : list jsstring :=
  match tables with
  | [] => []
  | t :: rest =>
      let maxRowsPerTable := 6 in
      let caption := normalizeText (Some (Table.caption t)) in
      let headers := normalizedNonEmpty (Table.headers t) in
      let rows := Table.rows t in
      let rowCount := Nat.min maxRowsPerTable (length rows) in
      [js "Table " ++ decimal (i + 1)
         ++ (if nonEmpty caption then js " (caption: " ++ caption ++ js ")"
             else [])
         ++ js ":"]
      ++ (if 0 <? length headers
          then [js "- headers: " ++ join (js " | ") headers] else [])
      ++ formatRows 0 (take rowCount rows)
      ++ (if rowCount <? length rows
          then [js "- " ++ ellipsis ++ js " ("
                  ++ decimal (length rows - rowCount) ++ js " more rows)"]
          else [])
      ++ formatTablesFrom (S i) rest
  end.

Definition formatTablesForPrompt (tables : list Table.t) : jsstring :=
  if length tables =? 0 then []
  else
    let maxTables := 6 in
    let lines :=
      formatTablesFrom 0 (take (Nat.min maxTables (length tables)) tables)
      ++ (if maxTables <? length tables
          then [ellipsis ++ js " (" ++ decimal (length tables - maxTables)
                  ++ js " more tables)"]
          else []) in
    join newline lines.

Fixpoint formatListsFrom (i : nat) (lists : list List_.t) : list jsstring :=
  match lists with
  | [] => []
  | l :: rest =>
      let maxItemsPerList := 10 in
      let type :=
        if jseqb (List_.type l) (js "ol") then js "ordered"
        else js "unordered" in
      let items := normalizedNonEmpty (List_.items l) in
      let itemCount := Nat.min maxItemsPerList (length items) in
      [js "List " ++ decimal (i + 1) ++ js " (" ++ type ++ js "):"]
      ++ List.map (fun item => js "- " ++ item) (take itemCount items)
      ++ (if itemCount <? length items
          then [js "- " ++ ellipsis ++ js " ("
                  ++ decimal (length items - itemCount) ++ js " more items)"]
          else [])
      ++ formatListsFrom (S i) rest
  end.

Definition formatListsForPrompt (lists : list List_.t) : jsstring :=
  if length lists =? 0 then []
  else
    let maxLists := 10 in
    let lines :=
      formatListsFrom 0 (take (Nat.min maxLists (length lists)) lists)
      ++ (if maxLists <? length lists
          then [ellipsis ++ js " (" ++ decimal (length lists - maxLists)
                  ++ js " more lists)"]
          else []) in
    join newline lines.

(** ** Errors, results and the outside world *)

Inductive Method := HTTP | BROWSER.

Module Details.
Record t := { httpError : option jsstring; browserError : option jsstring }.
End Details.

(** The [publicPayload] attached to the errors the orchestrator throws. *)
Module Payload.
Record t := {
  error : jsstring;
  errorType : option jsstring;
  message : option jsstring;
  url : option jsstring;
  details : option Details.t;
  timestamp : option jsstring
}.
End Payload.

(** A thrown [Error]: its message and the two properties the orchestrator
    sets on the errors it throws itself. *)
Module Err.
Record t := {
  message : jsstring;
  statusCode : option nat;
  publicPayload : option Payload.t
}.
End Err.

(** [new Error(message)]. *)
Definition newError (message : jsstring) : Err.t :=
  {| Err.message := message; Err.statusCode := None;
     Err.publicPayload := None |}.

(** What the fetchers return: the extraction without [_bodyTextLength]. *)
Module Scraped.
Record t := {
  title : jsstring;
  description : jsstring;
  paragraphs : list jsstring;
  images : list jsstring;
  links : list Link.t;
  tables : list Table.t;
  lists : list List_.t;
  uniqueComponents : list Component.t;
  rawHtml : jsstring;
  techStack : list Tech.t
}.
End Scraped.

(** The record [scrapeAndSummarize] returns. *)
Module ScrapeResult.
Record t := {
  url : jsstring;
  methodUsed : Method;
  summary : jsstring;
  title : jsstring;
  description : jsstring;
  paragraphs : list jsstring;
  images : list jsstring;
  links : list Link.t;
  tables : list Table.t;
  lists : list List_.t;
  uniqueComponents : list Component.t;
  rawHtml : jsstring;
  techStack : list Tech.t;
  scrapedAt : jsstring
}.
End ScrapeResult.

(** [{ url, prompt }], either of which may be missing. *)
Record Input := { url : option jsstring; prompt : option jsstring }.

(** How [axios.get] settles: a response whose status passed
    [validateStatus], with its body as a string; such a response whose body
    axios parsed into a value that is not a string (a JSON body), on which
    [cheerio.load] or [html.toLowerCase()] throws inside [extractFromHtml] an
    error with the message [typeError]; or a rejection with the message of
    its error. *)
Inductive AxiosGet :=
  | GetResponse (status : nat) (data : jsstring)
  | GetValue (status : nat) (typeError : jsstring)
  | GetError (message : jsstring).

(** How [axios.post] settles: a response body, or a rejection carrying the
    status of [apiError.response], if there was a response. *)
Inductive AxiosPost :=
  | PostResponse (data : jsstring)
  | PostError (status : option nat) (message : jsstring).

(** Everything outside the program that one request reads.  A library call
    that can reject has the message of its error as [Some] (or [inl]). *)
Record World := {
  (* process.env and process.platform *)
  isServerlessChromium : bool;
  PUPPETEER_EXECUTABLE_PATH : option jsstring;
  platform : jsstring;
  (* axios *)
  axios_get : jsstring -> AxiosGet;
  axios_post : jsstring -> AxiosPost;
  (* @sparticuz/chromium and puppeteer *)
  chromium_executablePath : jsstring + option jsstring;
  puppeteer_launch : option jsstring;
  page_setup : option jsstring;
  page_goto : jsstring -> option jsstring;
  page_content : nat -> jsstring + jsstring;
  browser_close : option jsstring;
  (* withTimeout: does the timer with this message settle the race? *)
  timer_wins : jsstring -> bool;
  (* new Date().toISOString() *)
  now : jsstring
}.

(** The external calls, in the order the request makes them. *)
Inductive Event :=
  | EvHttpGet (url : jsstring)
  | EvLaunch
  | EvPageSetup
  | EvGoto (url : jsstring)
  | EvContent (attempt : nat)
  | EvScroll (attempt : nat)
  | EvClose
  | EvPost (content : jsstring).

(** ** The monad of the asynchronous functions

    A computation extends the log of external calls and either throws an
    [Err.t] or returns. *)

Definition M (A : Type) : Type := list Event -> list Event * (Err.t + A).

Definition ret {A} (a : A) : M A := fun log => (log, inr a).

Definition throw {A} (e : Err.t) : M A := fun log => (log, inl e).

Definition bind {A B} (m : M A) (k : A -> M B) : M B :=
  fun log =>
    match m log with
    | (log', inl e) => (log', inl e)
    | (log', inr a) => k a log'
    end.

Definition emit (ev : Event) : M unit := fun log => (log ++ [ev], inr tt).

(** [try { body } catch (err) { handler(err) }]. *)
Definition tryCatch {A} (body : M A) (handler : Err.t -> M A) : M A :=
  fun log =>
    match body log with
    | (log', inl e) => handler e log'
    | r => r
    end.

(** [try { body } finally { fin }]: an exception of [fin] replaces the
    outcome of [body]. *)
Definition tryFinally {A} (body : M A) (fin : M unit) : M A :=
  fun log =>
    let '(log1, r) := body log in
    match fin log1 with
    | (log2, inl e) => (log2, inl e)
    | (log2, inr _) => (log2, r)
    end.

(** A library call that resolves, or rejects with an error of message [m]. *)
Definition settle (ev : Event) (outcome : option jsstring) : M unit :=
  bind (emit ev) (fun _ =>
  match outcome with
  | Some m => throw (newError m)
  | None => ret tt
  end).

Declare Scope js_scope.
Delimit Scope js_scope with jsm.
Notation "x <- m ;; k" := (bind m (fun x => k))
  (at level 100, m at next level, right associativity) : js_scope.
Notation "m ;;; k" := (bind m (fun _ => k))
  (at level 100, right associativity) : js_scope.

Local Open Scope js_scope.

(** ** The fetchers and the orchestrator *)

Section Pipeline.
Context {R : Runtime} {C : Cheerio}.
Variable w : World.

(** [withTimeout(promise, ms, errorMessage)]: the race between the promise
    and a timer.  The promise keeps running when the timer wins; only its
    result is dropped. *)
Definition withTimeout {A} (promise : M A) (ms : N) (errorMessage : jsstring)
    : M A :=
  fun log =>
    let '(log', r) := promise log in
    if timer_wins w errorMessage then (log', inl (newError errorMessage))
    else (log', r).

Definition validateScrapeUrl (rawUrl : jsstring) : Err.t + jsstring :=
  match newURL rawUrl None with
  | None => inl (newError (js "INVALID_URL"))
  | Some parsed =>
      if negb (jseqb (protocol parsed) (js "http:"))
         && negb (jseqb (protocol parsed) (js "https:"))
      then inl (newError (js "INVALID_URL_PROTOCOL"))
      else inr (href parsed)
  end.

(** [const { _bodyTextLength, ...rest } = extracted]. *)
Definition rest (extracted : ExtractedDocument) : Scraped.t :=
  {| Scraped.title := title extracted;
     Scraped.description := description extracted;
     Scraped.paragraphs := paragraphs extracted;
     Scraped.images := images extracted;
     Scraped.links := links extracted;
     Scraped.tables := tables extracted;
     Scraped.lists := lists extracted;
     Scraped.uniqueComponents := uniqueComponents extracted;
     Scraped.rawHtml := rawHtml extracted;
     Scraped.techStack := techStack extracted |}.

Definition scrapeWithHttp (url : jsstring) : M Scraped.t :=
  emit (EvHttpGet url) ;;;
  match axios_get w url with
  | GetError m => throw (newError m)
  | GetValue status typeError =>
      if 400 <=? status
      then throw (newError (js "HTTP_ERROR_" ++ decimal status))
      else throw (newError typeError)
  | GetResponse status data =>
      if 400 <=? status
      then throw (newError (js "HTTP_ERROR_" ++ decimal status))
      else
        let extracted := extractFromHtml data url in
        (* Heuristic: if body text is tiny, it's likely JS-rendered or
           blocked. *)
        if looksBlockedOrJsRequired (Some data) (Some extracted)
        then throw (newError (js "JAVASCRIPT_RENDERED"))
        else ret (rest extracted)
  end.

Definition guessLocalExecutablePath : option jsstring :=
  if truthy (PUPPETEER_EXECUTABLE_PATH w) then PUPPETEER_EXECUTABLE_PATH w
  else if jseqb (platform w) (js "win32")
  then Some (js "C:\Program Files\Google\Chrome\Application\chrome.exe")
  else if jseqb (platform w) (js "darwin")
  then Some (js "/Applications/Google Chrome.app/Contents/MacOS/Google Chrome")
  else None.

(** [launchOptions.executablePath]. *)
Definition executablePath : M (option jsstring) :=
  if isServerlessChromium w
  then
    match chromium_executablePath w with
    | inl m => throw (newError m)
    | inr path => ret path
    end
  else ret guessLocalExecutablePath.

(** [tryExtractLoop]: the attempts [attempt], [attempt+1], ... of which
    [remaining] are left. *)
Fixpoint tryExtractLoopFrom (url : jsstring) (attempt remaining : nat)
    : M (option (jsstring * ExtractedDocument)) :=
  match remaining with
  | 0 => ret None
  | S remaining' =>
      emit (EvContent attempt) ;;;
      match page_content w attempt with
      | inl m => throw (newError m)
      | inr html =>
          let extracted := extractFromHtml html url in
          if negb (looksBlockedOrJsRequired (Some html) (Some extracted))
             && negb (looksEmptyExtraction (Some extracted))
          then ret (Some (html, extracted))
          else
            (* Scroll in steps to trigger lazy-load; failures are ignored. *)
            emit (EvScroll attempt) ;;;
            tryExtractLoopFrom url (S attempt) remaining'
      end
  end.

Definition tryExtractLoop (url : jsstring)
    : M (option (jsstring * ExtractedDocument)) :=
  let maxAttempts := 6 in
  tryExtractLoopFrom url 0 maxAttempts.

Definition scrapeWithBrowser (url : jsstring) : M Scraped.t :=
  path <- executablePath ;;
  if negb (truthy path)
  then
    throw (newError
             (if isServerlessChromium w
              then js "BROWSER_EXECUTABLE_NOT_FOUND"
              else js "LOCAL_BROWSER_EXECUTABLE_NOT_CONFIGURED"))
  else
    settle EvLaunch (puppeteer_launch w) ;;;
    tryFinally
      (settle EvPageSetup (page_setup w) ;;;
       settle (EvGoto url) (page_goto w url) ;;;
       loopResult <- tryExtractLoop url ;;
       match loopResult with
       | None => throw (newError (js "BLOCKED_OR_EMPTY"))
       | Some (html, extracted) => ret (rest extracted)
       end)
      (settle EvClose (browser_close w)).

(** [e?.message || null]. *)
Definition messageOrNull (e : option Err.t) : option jsstring :=
  match e with
  | Some e => if nonEmpty (Err.message e) then Some (Err.message e) else None
  | None => None
  end.

(** [m?.includes(p)] used as a condition. *)
Definition includesOpt (m : option jsstring) (p : jsstring) : bool :=
  match m with
  | Some s => includes s p
  | None => false
  end.

Definition warningSign : jsstring := [9888%N; 65039%N].
Definition apostrophe : jsstring := [8217%N].

(** [errorType] as the orchestrator computes it from [details]. *)
Definition errorTypeOf (details : Details.t) : jsstring :=
  let isTimeout :=
    includesOpt (Details.httpError details) (js "TIMEOUT")
    || includesOpt (Details.browserError details) (js "TIMEOUT") in
  let isBlocked :=
    bool_decide (Details.browserError details = Some (js "BLOCKED_OR_EMPTY")) in
  let isLoginOrBlocked :=
    bool_decide (Details.browserError details = Some (js "LOGIN_OR_BLOCKED")) in
  if isTimeout then js "TIMEOUT"
  else if isLoginOrBlocked then js "LOGIN_REQUIRED"
  else if isBlocked then js "BLOCKED"
  else js "SCRAPE_ERROR".

(** The user-facing [message] of a scrape failure. *)
Definition failureMessage (details : Details.t) : jsstring :=
  let isTimeout :=
    includesOpt (Details.httpError details) (js "TIMEOUT")
    || includesOpt (Details.browserError details) (js "TIMEOUT") in
  let isBlocked :=
    bool_decide (Details.browserError details = Some (js "BLOCKED_OR_EMPTY")) in
  let isLoginOrBlocked :=
    bool_decide (Details.browserError details = Some (js "LOGIN_OR_BLOCKED")) in
  if isTimeout
  then warningSign ++ js " Scraping timed out on the server. This often happens on serverless hosts for heavy pages."
  else if isLoginOrBlocked
  then warningSign ++ js " This page likely requires login or restricts automated access (common on social platforms like Instagram). For reliable results, use the platform"
       ++ apostrophe ++ js "s official API or scrape only content you"
       ++ apostrophe ++ js "re authorized to access."
  else if isBlocked
  then warningSign ++ js " This site appears to block scraping from server IPs (bot protection/captcha)."
  else warningSign ++ js " Unable to scrape this site. It may be blocking automation or requires interaction/login.".

(** The error thrown when the browser fetch failed with [err] after the
    HTTP fetch had failed with [httpError]. *)
Definition scrapeFailure (normalizedUrl : jsstring) (httpError : option Err.t)
    (err : Err.t) : Err.t :=
  let details :=
    {| Details.httpError := messageOrNull httpError;
       Details.browserError := messageOrNull (Some err) |} in
  let errorType := errorTypeOf details in
  {| Err.message := errorType;
     Err.statusCode := Some 422;
     Err.publicPayload :=
       Some {| Payload.error := js "Scraping failed";
               Payload.errorType := Some errorType;
               Payload.message := Some (failureMessage details);
               Payload.url := Some normalizedUrl;
               Payload.details := Some details;
               Payload.timestamp := Some (now w) |} |}.

(** The first half of [scrapeAndSummarize] after validation: the HTTP
    fetch, then the browser fetch if the first one failed.  Returns
    [scraped] and [methodUsed]. *)
Definition scrapePhase (normalizedUrl : jsstring) : M (Scraped.t * Method) :=
  first <-
    tryCatch
      (scraped <- withTimeout (scrapeWithHttp normalizedUrl)
                    (N.min OVERALL_TIMEOUT_MS 15000) (js "HTTP_TIMEOUT") ;;
       ret (Some scraped, None))
      (fun err => ret (None, Some err)) ;;
  let '(scraped, httpError) := first in
  match scraped with
  | Some scraped => ret (scraped, HTTP)
  | None =>
      tryCatch
        (scraped <- withTimeout (scrapeWithBrowser normalizedUrl)
                      OVERALL_TIMEOUT_MS (js "BROWSER_TIMEOUT") ;;
         ret (scraped, BROWSER))
        (fun err => throw (scrapeFailure normalizedUrl httpError err))
  end.

(** The digest sent to the summariser. *)
Definition fullText (normalizedUrl : jsstring) (scraped : Scraped.t)
    : jsstring :=
  let contentText := join newline (Scraped.paragraphs scraped) in
  let tablesText := formatTablesForPrompt (Scraped.tables scraped) in
  let listsText := formatListsForPrompt (Scraped.lists scraped) in
  take 4500
    (trim
       (newline
        ++ js "Title: " ++ Scraped.title scraped ++ newline
        ++ js "URL: " ++ normalizedUrl ++ newline
        ++ js "Description: " ++ Scraped.description scraped ++ newline
        ++ newline
        ++ js "Text (paragraphs):" ++ newline
        ++ contentText ++ newline
        ++ newline
        ++ js "Tables:" ++ newline
        ++ orStr tablesText (js "None") ++ newline
        ++ newline
        ++ js "Lists:" ++ newline
        ++ orStr listsText (js "None") ++ newline)).

Definition rateLimitSummary : jsstring :=
  js "AI service is currently busy (rate limit). You can still view the scraped content and use chat later.".

Definition unavailableSummary : jsstring :=
  js "AI summary unavailable. You can still view the scraped content below.".

(** The second half: [summary], empty without a prompt. *)
Definition summaryPhase (prompt : option jsstring) (fullText : jsstring)
    : M jsstring :=
  match prompt with
  | Some (c :: r) =>
      let content := (c :: r) ++ js ":" ++ newline ++ newline ++ fullText in
      emit (EvPost content) ;;;
      match axios_post w content with
      | PostResponse data => ret data
      | PostError status _ =>
          if bool_decide (status = Some 429) then ret rateLimitSummary
          else ret unavailableSummary
      end
  | _ => ret []
  end.

Definition scrapeAndSummarize (input : option Input) : M ScrapeResult.t :=
  let url := from_option url None input in
  let prompt := from_option prompt None input in
  match url with
  | Some (c :: r) =>
      let url := c :: r in
      match validateScrapeUrl url with
      | inl e =>
          let code := orStr (Err.message e) (js "INVALID_URL") in
          throw
            {| Err.message := code;
               Err.statusCode := Some 400;
               Err.publicPayload :=
                 Some {| Payload.error := js "Invalid URL";
                         Payload.errorType := Some code;
                         Payload.message :=
                           Some (if jseqb code (js "INVALID_URL_PROTOCOL")
                                 then js "Only http(s) URLs are allowed."
                                 else js "Invalid URL format");
                         Payload.url := Some url;
                         Payload.details := None;
                         Payload.timestamp := None |} |}
      | inr normalizedUrl =>
          fetched <- scrapePhase normalizedUrl ;;
          let '(scraped, methodUsed) := fetched in
          summary <- summaryPhase prompt (fullText normalizedUrl scraped) ;;
          ret {| ScrapeResult.url := normalizedUrl;
                 ScrapeResult.methodUsed := methodUsed;
                 ScrapeResult.summary := summary;
                 ScrapeResult.title := Scraped.title scraped;
                 ScrapeResult.description := Scraped.description scraped;
                 ScrapeResult.paragraphs := Scraped.paragraphs scraped;
                 ScrapeResult.images := Scraped.images scraped;
                 ScrapeResult.links := Scraped.links scraped;
                 ScrapeResult.tables := Scraped.tables scraped;
                 ScrapeResult.lists := Scraped.lists scraped;
                 ScrapeResult.uniqueComponents :=
                   Scraped.uniqueComponents scraped;
                 ScrapeResult.rawHtml := Scraped.rawHtml scraped;
                 ScrapeResult.techStack := Scraped.techStack scraped;
                 ScrapeResult.scrapedAt := now w |}
      end
  | _ =>
      throw
        {| Err.message := js "URL_REQUIRED";
           Err.statusCode := Some 400;
           Err.publicPayload :=
             Some {| Payload.error := js "URL is required";
                     Payload.errorType := None;
                     Payload.message := None;
                     Payload.url := None;
                     Payload.details := None;
                     Payload.timestamp := None |} |}
  end.

End Pipeline.

(** ** A small implementation of the platform

    [Mini] implements [Cheerio] on a tree of elements and text nodes, with
    a parser for well-formed lower-case markup without entities or comments,
    and the selectors the route uses: tag names, [.class],
    [tag[attr="value"]], descendant chains and comma lists.  [find] is
    scoped to the element it is called on.  Its [Runtime] lower-cases ASCII
    letters and parses a URL into its scheme and the input itself, which is
    what the URL parser does on an absolute URL already in canonical form. *)

Module Mini.

Inductive node :=
  | Text (data : jsstring)
  | Elem (name : jsstring) (attribs : list (jsstring * jsstring))
      (children : list node).

Fixpoint textContent (n : node) : jsstring :=
  match n with
  | Text d => d
  | Elem _ _ ch => List.concat (List.map textContent ch)
  end.

Definition getAttr (n : node) (a : string) : option jsstring :=
  match n with
  | Text _ => None
  | Elem _ attribs _ =>
      snd <$> List.find (fun kv => jseqb (fst kv) (js a)) attribs
  end.

Definition nameOf (n : node) : option jsstring :=
  match n with
  | Text _ => None
  | Elem name _ _ => Some name
  end.

(** The elements of the subtree of [n] in document order, each with its
    ancestors, nearest first, starting from [anc]. *)
Fixpoint walk (anc : list node) (n : node) : list (list node * node) :=
  match n with
  | Text _ => []
  | Elem _ _ ch => (anc, n) :: List.concat (List.map (walk (n :: anc)) ch)
  end.

Definition childrenOf (n : node) : list node :=
  match n with
  | Text _ => []
  | Elem _ _ ch => ch
  end.

(** *** Selectors *)

Record compound := {
  ctag : option jsstring;
  cclass : option jsstring;
  cattr : option (jsstring * jsstring)
}.

(** [s] cut at every [sep]. *)
Fixpoint splitOn (sep : N) (cur : jsstring) (s : jsstring) : list jsstring :=
  match s with
  | [] => [reverse cur]
  | c :: r =>
      if (c =? sep)%N then reverse cur :: splitOn sep [] r
      else splitOn sep (c :: cur) r
  end.

Definition stripQuotes (s : jsstring) : jsstring :=
  List.filter (fun c => negb ((c =? 34)%N || (c =? 93)%N)) s.

Definition parseCompound (s : jsstring) : compound :=
  match s with
  | 46%N :: cls => {| ctag := None; cclass := Some cls; cattr := None |}
  | _ =>
      match splitOn 91 [] s with
      | [tag] => {| ctag := Some tag; cclass := None; cattr := None |}
      | tag :: cond :: _ =>
          match splitOn 61 [] cond with
          | a :: v :: _ =>
              {| ctag := Some tag; cclass := None;
                 cattr := Some (a, stripQuotes v) |}
          | _ => {| ctag := Some tag; cclass := None; cattr := None |}
          end
      | [] => {| ctag := None; cclass := None; cattr := None |}
      end
  end.

(** A selector: a comma list of descendant chains, each chain with its
    subject first. *)
Definition parseSelector (s : string) : list (list compound) :=
  List.map
    (fun alt =>
       reverse (List.map parseCompound
                  (List.filter nonEmpty (splitOn 32 [] alt))))
    (splitOn 44 [] (js s)).

Definition hasClass (n : node) (cls : jsstring) : bool :=
  match getAttr n "class" with
  | Some v => bool_decide (cls ∈ splitOn 32 [] v)
  | None => false
  end.

Definition matchesCompound (c : compound) (n : node) : bool :=
  match n with
  | Text _ => false
  | Elem name attribs _ =>
      from_option (fun t => jseqb t name) true (ctag c)
      && from_option (hasClass n) true (cclass c)
      && from_option
           (fun av =>
              bool_decide
                (snd <$> List.find (fun kv => jseqb (fst kv) (fst av)) attribs
                 = Some (snd av)))
           true (cattr c)
  end.

(** The remaining compounds of a chain, found going up the ancestors. *)
Fixpoint ancestorsMatch (anc : list node) (chain : list compound) : bool :=
  match chain, anc with
  | [], _ => true
  | _ :: _, [] => false
  | c :: chain', a :: anc' =>
      if matchesCompound c a then ancestorsMatch anc' chain'
      else ancestorsMatch anc' chain
  end.

Definition matchesChain (chain : list compound) (p : list node * node) : bool :=
  match chain with
  | [] => false
  | subject :: up => matchesCompound subject (snd p) && ancestorsMatch (fst p) up
  end.

Definition matchesSelector (s : string) (p : list node * node) : bool :=
  existsb (fun chain => matchesChain chain p) (parseSelector s).

Definition selectIn (roots : list node) (s : string) : list node :=
  List.map snd
    (List.filter (matchesSelector s)
       (List.concat (List.map (walk []) roots))).

(** *** Serialising and parsing *)

Definition voidTags : list jsstring :=
  [js "meta"; js "img"; js "input"; js "br"; js "hr"; js "link"].

Definition isVoid (name : jsstring) : bool := bool_decide (name ∈ voidTags).

Definition serializeAttrs (attribs : list (jsstring * jsstring)) : jsstring :=
  List.concat
    (List.map (fun kv => js " " ++ fst kv ++ js "=" ++ [34%N] ++ snd kv ++ [34%N])
       attribs).

Fixpoint serialize (n : node) : jsstring :=
  match n with
  | Text d => d
  | Elem name attribs ch =>
      js "<" ++ name ++ serializeAttrs attribs ++ js ">"
      ++ (if isVoid name then []
          else List.concat (List.map serialize ch) ++ js "</" ++ name ++ js ">")
  end.

Inductive token :=
  | TOpen (name : jsstring) (attribs : list (jsstring * jsstring))
  | TClose (name : jsstring)
  | TText (data : jsstring).

(** The attributes [k="v"] of a tag; [st] is 0 in a name, 1 after [=], 2 in
    a value. *)
Fixpoint parseAttrs (st : nat) (key val : jsstring) (s : jsstring)
    : list (jsstring * jsstring) :=
  match s with
  | [] => if (st =? 0) && nonEmpty key then [(reverse key, [])] else []
  | c :: r =>
      match st with
      | 0 =>
          if (c =? 32)%N
          then (if nonEmpty key then [(reverse key, [])] else [])
               ++ parseAttrs 0 [] [] r
          else if (c =? 61)%N then parseAttrs 1 key [] r
          else parseAttrs 0 (c :: key) [] r
      | 1 =>
          if (c =? 34)%N then parseAttrs 2 key [] r
          else parseAttrs 2 key [c] r
      | _ =>
          if (c =? 34)%N then (reverse key, reverse val) :: parseAttrs 0 [] [] r
          else parseAttrs 2 key (c :: val) r
      end
  end.

Definition tagToken (body : jsstring) : token :=
  match body with
  | 47%N :: name => TClose name
  | _ =>
      match splitOn 32 [] body with
      | name :: _ => TOpen name (parseAttrs 0 [] [] (drop (S (length name)) body))
      | [] => TOpen [] []
      end
  end.

Definition flushText (acc : jsstring) : list token :=
  if nonEmpty acc then [TText (reverse acc)] else [].

Fixpoint tokenize (inTag : bool) (acc : jsstring) (s : jsstring) : list token :=
  match s with
  | [] => if inTag then [] else flushText acc
  | c :: r =>
      if inTag
      then (if (c =? 62)%N then tagToken (reverse acc) :: tokenize false [] r
            else tokenize true (c :: acc) r)
      else (if (c =? 60)%N then flushText acc ++ tokenize true [] r
            else tokenize false (c :: acc) r)
  end.

(** The open elements, innermost first: name, attributes and the children
    read so far of the parent, last first. *)
Definition frame : Type := jsstring * list (jsstring * jsstring) * list node.

Definition closeFrame (f : frame) (top : list node) : list node :=
  let '(name, attribs, before) := f in
  Elem name attribs (reverse top) :: before.

Fixpoint build (stack : list frame) (top : list node) (ts : list token)
    : list node :=
  match ts with
  | [] => reverse (fold_left (fun top f => closeFrame f top) stack top)
  | TText d :: r => build stack (Text d :: top) r
  | TOpen name attribs :: r =>
      if isVoid name then build stack (Elem name attribs [] :: top) r
      else build ((name, attribs, top) :: stack) [] r
  | TClose _ :: r =>
      match stack with
      | [] => build [] top r
      | f :: stack' => build stack' (closeFrame f top) r
      end
  end.

Definition parse (html : jsstring) : list node :=
  build [] [] (tokenize false [] html).

Definition cheerio : Cheerio := {|
  Document := list node;
  Element := node;
  load := parse;
  select := selectIn;
  find := fun el s => selectIn (childrenOf el) s;
  text := textContent;
  attr := getAttr;
  tagName := nameOf;
  outerHTML := fun _ el => serialize el
|}.

(** *** The runtime *)

Definition lowerUnit (c : N) : N :=
  if (65 <=? c)%N && (c <=? 90)%N then (c + 32)%N else c.

Definition isSchemeUnit (c : N) : bool :=
  let l := lowerUnit c in
  ((97 <=? l)%N && (l <=? 122)%N) || ((48 <=? c)%N && (c <=? 57)%N)
  || bool_decide (c ∈ [43; 45; 46]%N).

(** The scheme of [s] with its colon, lower-cased, if [s] starts with one. *)
Definition schemeOf (s : jsstring) : option jsstring :=
  match splitOn 58 [] s with
  | (c :: sch) :: _ :: _ =>
      if ((97 <=? lowerUnit c)%N && (lowerUnit c <=? 122)%N)
         && forallb isSchemeUnit sch
      then Some (List.map lowerUnit (c :: sch) ++ [58%N])
      else None
  | _ => None
  end.

Definition parseURL (input : jsstring) (base : option jsstring) : option URL :=
  match schemeOf input with
  | Some p => Some {| protocol := p; href := input |}
  | None =>
      match base with
      | Some b =>
          match schemeOf b with
          | Some p => Some {| protocol := p; href := b ++ input |}
          | None => None
          end
      | None => None
      end
  end.

Definition runtime : Runtime := {|
  toLowerCase := List.map lowerUnit;
  newURL := parseURL
|}.

End Mini.

(** ** Notions of the specification *)

Definition sumLengths (l : list jsstring) : nat :=
  sum_list (List.map length l).

Definition tableSize (t : Table.t) : nat :=
  length (Table.caption t) + sumLengths (Table.headers t)
  + sum_list (List.map sumLengths (Table.rows t)) + length (Table.html t).

Definition listSize (l : List_.t) : nat :=
  length (List_.type l) + sumLengths (List_.items l) + length (List_.html l).

(** The total size of an extracted document: the code units of every string
    of every field. *)
Definition documentSize (d : ExtractedDocument) : nat :=
  length (title d) + length (description d)
  + sumLengths (paragraphs d) + sumLengths (images d)
  + sum_list
      (List.map (fun l => length (Link.url l) + length (Link.text l)) (links d))
  + sum_list (List.map tableSize (tables d))
  + sum_list (List.map listSize (lists d))
  + sum_list
      (List.map
         (fun c => length (Component.name c) + length (Component.content c))
         (uniqueComponents d))
  + length (rawHtml d)
  + sum_list
      (List.map (fun t => length (Tech.name t) + length (Tech.icon t))
         (techStack d)).

(** A string that white-space normalisation leaves as it is. *)
Definition whitespaceNormalized (s : jsstring) : Prop :=
  normalizeText (Some s) = s.

(** [html] contains [phrase] when letter case is ignored. *)
Definition containsCI {R : Runtime} (html : jsstring) (phrase : string) : Prop :=
  exists before after, toLowerCase html = before ++ js phrase ++ after.

(** The Cloudflare challenge markers the classifier knows. *)
Definition cloudflareChallengeMarker {R : Runtime} (html : jsstring) : Prop :=
  (containsCI html "attention required" /\ containsCI html "cloudflare")
  \/ containsCI html "cf-chl" \/ containsCI html "challenge-platform".

(** The retained message [m] contains [p]: it is a string of which [p] is
    a substring. *)
Definition messageContains (m : option jsstring) (p : jsstring) : Prop :=
  exists s before after, m = Some s /\ s = before ++ p ++ after.

(** Either retained message contains TIMEOUT. *)
Definition mentionsTimeout (httpMessage browserMessage : option jsstring)
    : Prop :=
  messageContains httpMessage (js "TIMEOUT")
  \/ messageContains browserMessage (js "TIMEOUT").

(** The classification of a scrape failure in the words of the
    specification: [errorType] is the type that the two retained messages
    determine. *)
Definition specErrorType (httpMessage browserMessage : option jsstring)
    (errorType : jsstring) : Prop :=
  (mentionsTimeout httpMessage browserMessage -> errorType = js "TIMEOUT")
  /\ (~ mentionsTimeout httpMessage browserMessage ->
      browserMessage = Some (js "BLOCKED_OR_EMPTY") ->
      errorType = js "BLOCKED")
  /\ (~ mentionsTimeout httpMessage browserMessage ->
      browserMessage <> Some (js "BLOCKED_OR_EMPTY") ->
      errorType = js "SCRAPE_ERROR").

(** [m] is the message of an error with which a call into axios, chromium
    or puppeteer rejects in [w] while [url] is fetched, or with which the
    extraction fails on a response body that is not a string. *)
Definition libraryFailure (w : World) (url m : jsstring) : Prop :=
  axios_get w url = GetError m
  \/ chromium_executablePath w = inl m
  \/ puppeteer_launch w = Some m
  \/ page_setup w = Some m
  \/ page_goto w url = Some m
  \/ (exists attempt, attempt < 6 /\ page_content w attempt = inl m)
  \/ browser_close w = Some m
  \/ (exists status, axios_get w url = GetValue status m).

(** The error codes the fetchers raise themselves. *)
Definition raisedByFetchers (m : jsstring) : Prop :=
  (exists status, m = js "HTTP_ERROR_" ++ decimal status)
  \/ m ∈ [js "JAVASCRIPT_RENDERED"; js "HTTP_TIMEOUT"; js "BROWSER_TIMEOUT";
          js "BROWSER_EXECUTABLE_NOT_FOUND";
          js "LOCAL_BROWSER_EXECUTABLE_NOT_CONFIGURED"; js "BLOCKED_OR_EMPTY"].

(** The two fetches as the orchestrator runs them, under their deadlines. *)
Definition httpFetch {R : Runtime} {C : Cheerio} (w : World) (url : jsstring)
    : M Scraped.t :=
  withTimeout w (scrapeWithHttp w url) (N.min OVERALL_TIMEOUT_MS 15000)
    (js "HTTP_TIMEOUT").

Definition browserFetch {R : Runtime} {C : Cheerio} (w : World)
    (url : jsstring) : M Scraped.t :=
  withTimeout w (scrapeWithBrowser w url) OVERALL_TIMEOUT_MS
    (js "BROWSER_TIMEOUT").

(** ** Concrete pages and worlds *)

Module Examples.

Definition baseUrl : jsstring := js "https://example.com/".

(** Two headings whose texts agree on their first 300 code units and differ
    in the last one. *)
Definition twoHeadings : jsstring :=
  js "<html><head></head><body><h1>" ++ replicate 300 97%N ++ js "x</h1><h1>"
  ++ replicate 300 97%N ++ js "y</h1></body></html>".

(** A section nested in a section, with 300 code units of text of its own
    and more text after it in the outer one. *)
Definition nestedSections : jsstring :=
  js "<html><head></head><body><section><section>" ++ replicate 300 97%N
  ++ js "</section>more</section></body></html>".

(** One list of 100 items followed by 12 one-cell tables and 35 one-item
    lists. *)
Definition crowdedPage : jsstring :=
  js "<html><head></head><body><ul>"
  ++ List.concat (replicate 100 (js "<li>item</li>"))
  ++ js "</ul>"
  ++ List.concat (replicate 12 (js "<table><tr><td>cell</td></tr></table>"))
  ++ List.concat (replicate 35 (js "<ol><li>one</li></ol>"))
  ++ js "</body></html>".

(** A paragraph of two letters separated by forty spaces. *)
Definition spacedParagraph : jsstring :=
  js "<html><head></head><body><p>a" ++ replicate 40 32%N
  ++ js "b</p></body></html>".

Definition examplePage : jsstring :=
  js "<html><head><title>Example Domain</title></head><body><h1>Example Domain</h1><p>This domain is for use in illustrative examples in documents. You may use this domain in literature without prior coordination or asking for permission.</p><p>More information is available from the registry of the domain.</p><ul><li>first</li><li>second</li></ul><table><tr><th>Name</th><th>Value</th></tr><tr><td>one</td><td>1</td></tr></table></body></html>".

Definition blockedPage : jsstring :=
  js "<html><head><title>Forbidden</title></head><body><h1>Access denied</h1></body></html>".

(** A page served in full over HTTP; the summariser answers 429. *)
Definition quietWorld : World := {|
  isServerlessChromium := false;
  PUPPETEER_EXECUTABLE_PATH := Some (js "/usr/bin/chromium");
  platform := js "linux";
  axios_get := fun _ => GetResponse 200 examplePage;
  axios_post :=
    fun _ => PostError (Some 429) (js "Request failed with status code 429");
  chromium_executablePath := inr None;
  puppeteer_launch := None;
  page_setup := None;
  page_goto := fun _ => None;
  page_content := fun _ => inr examplePage;
  browser_close := None;
  timer_wins := fun _ => false;
  now := js "2024-01-01T00:00:00.000Z"
|}.

(** A site that answers 403 over HTTP and renders a bot wall in the
    browser on every attempt. *)
Definition blockedWorld : World := {|
  isServerlessChromium := false;
  PUPPETEER_EXECUTABLE_PATH := Some (js "/usr/bin/chromium");
  platform := js "linux";
  axios_get := fun _ => GetResponse 403 blockedPage;
  axios_post := fun _ => PostResponse (js "summary");
  chromium_executablePath := inr None;
  puppeteer_launch := None;
  page_setup := None;
  page_goto := fun _ => None;
  page_content := fun _ => inr blockedPage;
  browser_close := None;
  timer_wins := fun _ => false;
  now := js "2024-01-01T00:00:00.000Z"
|}.

Definition request (url : string) (prompt : option jsstring) : option Input :=
  Some {| url := Some (js url); prompt := prompt |}.

Definition exampleUrl : jsstring := js "https://example.com/".

(** What the HTTP fetch of [examplePage] returns. *)
Definition exampleScraped : Scraped.t :=
  rest (@extractFromHtml Mini.runtime Mini.cheerio examplePage exampleUrl).

(** The calls of a request for [exampleUrl] with the prompt "Summarize" in
    [quietWorld], and its result. *)
Definition quietLog : list Event :=
  [EvHttpGet exampleUrl;
   EvPost (js "Summarize" ++ js ":" ++ newline ++ newline
           ++ fullText exampleUrl exampleScraped)].

Definition quietResult : ScrapeResult.t := {|
  ScrapeResult.url := exampleUrl;
  ScrapeResult.methodUsed := HTTP;
  ScrapeResult.summary := rateLimitSummary;
  ScrapeResult.title := Scraped.title exampleScraped;
  ScrapeResult.description := Scraped.description exampleScraped;
  ScrapeResult.paragraphs := Scraped.paragraphs exampleScraped;
  ScrapeResult.images := Scraped.images exampleScraped;
  ScrapeResult.links := Scraped.links exampleScraped;
  ScrapeResult.tables := Scraped.tables exampleScraped;
  ScrapeResult.lists := Scraped.lists exampleScraped;
  ScrapeResult.uniqueComponents := Scraped.uniqueComponents exampleScraped;
  ScrapeResult.rawHtml := Scraped.rawHtml exampleScraped;
  ScrapeResult.techStack := Scraped.techStack exampleScraped;
  ScrapeResult.scrapedAt := now quietWorld
|}.

(** The calls of a request for [exampleUrl] in [blockedWorld], and the error
    it ends with. *)
Definition blockedLog : list Event :=
  [EvHttpGet exampleUrl; EvLaunch; EvPageSetup; EvGoto exampleUrl;
   EvContent 0; EvScroll 0; EvContent 1; EvScroll 1; EvContent 2; EvScroll 2;
   EvContent 3; EvScroll 3; EvContent 4; EvScroll 4; EvContent 5; EvScroll 5;
   EvClose].

Definition blockedError : Err.t :=
  scrapeFailure blockedWorld exampleUrl
    (Some (newError (js "HTTP_ERROR_403")))
    (newError (js "BLOCKED_OR_EMPTY")).

(** No DNS: axios and the browser navigation both reject. *)
Definition offlineWorld : World := {|
  isServerlessChromium := false;
  PUPPETEER_EXECUTABLE_PATH := Some (js "/usr/bin/chromium");
  platform := js "linux";
  axios_get := fun _ => GetError (js "getaddrinfo ENOTFOUND example.com");
  axios_post := fun _ => PostResponse (js "summary");
  chromium_executablePath := inr None;
  puppeteer_launch := None;
  page_setup := None;
  page_goto :=
    fun _ => Some (js "net::ERR_NAME_NOT_RESOLVED at https://example.com/");
  page_content := fun _ => inr blockedPage;
  browser_close := None;
  timer_wins := fun _ => false;
  now := js "2024-01-01T00:00:00.000Z"
|}.

(** The calls of a request for [exampleUrl] in [offlineWorld], and the
    error it ends with. *)
Definition offlineLog : list Event :=
  [EvHttpGet exampleUrl; EvLaunch; EvPageSetup; EvGoto exampleUrl; EvClose].

Definition offlineError : Err.t :=
  scrapeFailure offlineWorld exampleUrl
    (Some (newError (js "getaddrinfo ENOTFOUND example.com")))
    (newError (js "net::ERR_NAME_NOT_RESOLVED at https://example.com/")).

(** [blockedWorld] with both deadlines passing before the fetches settle. *)
Definition slowWorld : World := {|
  isServerlessChromium := isServerlessChromium blockedWorld;
  PUPPETEER_EXECUTABLE_PATH := PUPPETEER_EXECUTABLE_PATH blockedWorld;
  platform := platform blockedWorld;
  axios_get := axios_get blockedWorld;
  axios_post := axios_post blockedWorld;
  chromium_executablePath := chromium_executablePath blockedWorld;
  puppeteer_launch := puppeteer_launch blockedWorld;
  page_setup := page_setup blockedWorld;
  page_goto := page_goto blockedWorld;
  page_content := page_content blockedWorld;
  browser_close := browser_close blockedWorld;
  timer_wins := fun _ => true;
  now := now blockedWorld
|}.

(** [errorType] of the error a run ends with, if it ends with one that has
    a payload with an [errorType]. *)
Definition errorTypeOfRun {A} (run : list Event * (Err.t + A))
    : option jsstring :=
  match run.2 with
  | inl err => p ← Err.publicPayload err; Payload.errorType p
  | inr _ => None
  end.

End Examples.

(** ** Predicates used in the statements and proofs *)

(** The claim that no two stored components agree on name and content. *)
Definition componentsDistinct (d : ExtractedDocument) : Prop :=
  forall i j a b,
    i <> j ->
    uniqueComponents d !! i = Some a ->
    uniqueComponents d !! j = Some b ->
    ~ (Component.name a = Component.name b
       /\ Component.content a = Component.content b).

(** The claim that every paragraph is white-space normalised and has at
    least 30 code units once normalised. *)
Definition paragraphsNormalized (d : ExtractedDocument) : Prop :=
  Forall
    (fun p => whitespaceNormalized p /\ 30 <= length (normalizeText (Some p)))
    (paragraphs d).

(** A string that does not start with white space. *)
Definition startsClean (s : jsstring) : Prop :=
  match s with
  | [] => True
  | c :: _ => isWhiteSpace c = false
  end.

Definition rowOk (row : list jsstring) : Prop := length row <= MAX_TABLE_COLS.

Definition tableOk (t : Table.t) : Prop :=
  length (Table.headers t) <= MAX_TABLE_COLS
  /\ length (Table.rows t) <= MAX_TABLE_ROWS
  /\ Forall rowOk (Table.rows t).

(** A component as it is stored, from its name and untruncated content. *)
Definition stored (s : jsstring * jsstring) : Component.t :=
  {| Component.name := s.1; Component.content := take 300 s.2 |}.

Definition keyOf (s : jsstring * jsstring) : jsstring := componentKey s.1 s.2.

(** The name and untruncated content [componentStep] computes for [el]. *)
Definition sourceOf {R : Runtime} {C : Cheerio} (el : Element)
    : jsstring * jsstring :=
  let tag := toLowerCase (default [] (tagName el)) in
  (componentName el tag, componentContent el).

(** The state of the component loop over the elements [l]: [out] is the
    truncation of [sources], whose keys are distinct and are what [seen]
    holds. *)
Definition dedupInvariant {R : Runtime} {C : Cheerio} (l : list Element)
    (st : gset jsstring * list Component.t)
    (sources : list (jsstring * jsstring)) : Prop :=
  st.2 = stored <$> sources
  /\ (forall k, k ∈ st.1 <-> k ∈ (keyOf <$> sources))
  /\ NoDup (keyOf <$> sources)
  /\ Forall (fun s => exists el, el ∈ l /\ s = sourceOf el) sources.

(** Every exception of [m] satisfies [P]. *)
Definition throwsOnly {A} (P : Err.t -> Prop) (m : M A) : Prop :=
  forall log log' e, m log = (log', inl e) -> P e.

(** Every value returned by [m] satisfies [Q]. *)
Definition returnsOnly {A} (Q : A -> Prop) (m : M A) : Prop :=
  forall log log' a, m log = (log', inr a) -> Q a.

(** An error a fetcher raises itself or passes on from a library. *)
Definition fetcherError (w : World) (url : jsstring) (e : Err.t) : Prop :=
  exists m, e = newError m /\ (raisedByFetchers m \/ libraryFailure w url m).

(** [scraped] is the extraction, less [_bodyTextLength], of the document
    [html] that [method] fetched from [url] in [w]. *)
Definition fetchedBy {R : Runtime} {C : Cheerio} (w : World) (url : jsstring)
    (method : Method) (html : jsstring) (scraped : Scraped.t) : Prop :=
  scraped = rest (extractFromHtml html url)
  /\ match method with
     | HTTP => exists status, axios_get w url = GetResponse status html
     | BROWSER =>
         exists attempt, attempt < 6 /\ page_content w attempt = inr html
     end.

(** The table record [t] is the one read from the element [el] of [doc]:
    its caption, headers and rows are those of [el], and its [html] is the
    serialisation of [el]. *)
Definition tableReadFrom {R : Runtime} {C : Cheerio} (doc : Document)
    (t : Table.t) (el : Element) : Prop :=
  Table.caption t = normalizeText (Some (selText (first (find el "caption"))))
  /\ Table.headers t = tableHeaders el
  /\ Table.rows t = tableRows el (tableHeaders el)
  /\ Table.html t = outerHTML doc el.

(** The list record [l] is the one read from the element [el] of [doc]. *)
Definition listReadFrom {R : Runtime} {C : Cheerio} (doc : Document)
    (l : List_.t) (el : Element) : Prop :=
  List_.type l = listType el
  /\ List_.items l = listItems el
  /\ List_.html l = outerHTML doc el.

(** ** The request handler, the actor and the input script *)

(** What [Response.json] is given: the result, the public payload of an
    error, or the generic message of an internal error with its timestamp. *)
Inductive ResponseBody :=
  | BodyResult (output : ScrapeResult.t)
  | BodyPayload (payload : Payload.t)
  | BodyInternal (timestamp : jsstring).

Module Response.
Record t := { status : nat; body : ResponseBody }.
End Response.

(** A write of [main.js] to the default dataset or to the key-value store. *)
Inductive Stored :=
  | PushData (item : ScrapeResult.t)
  | SetValue (key : jsstring) (value : ScrapeResult.t).

(** How the calls of main.js into the Apify SDK settle:
    [Actor.getInput()], [Actor.pushData(item)] and
    [Actor.setValue(key, value)]; a rejection has the message of its
    error. *)
Record ActorSdk := {
  getInput : jsstring + option Input;
  pushData : ScrapeResult.t -> option jsstring;
  setValue : jsstring -> ScrapeResult.t -> option jsstring
}.

Section Handler.
Context {R : Runtime} {C : Cheerio}.
Variable w : World.

(** [POST(request)] of the route; [requestJson] is how [request.json()]
    settles. *)
Definition POST (requestJson : Err.t + option Input) : M Response.t :=
  tryCatch
    (input <- (match requestJson with
               | inl e => throw e
               | inr input => ret input
               end) ;;
     output <- scrapeAndSummarize w input ;;
     ret {| Response.status := 200; Response.body := BodyResult output |})
    (fun error =>
       match Err.publicPayload error, Err.statusCode error with
       | Some payload, Some (S n) =>
           ret {| Response.status := S n;
                  Response.body := BodyPayload payload |}
       | _, _ =>
           ret {| Response.status := 500;
                  Response.body := BodyInternal (now w) |}
       end).

(** The body of [Actor.main] in main.js.  Beside the log of external calls
    and the outcome, a run gives the writes that were made to the dataset
    and to the key-value store before it ended. *)
Definition actorMain (sdk : ActorSdk) (log : list Event)
    : list Event * list Stored * (Err.t + unit) :=
  match getInput sdk with
  | inl m => (log, [], inl (newError m))
  | inr stored =>
      if negb (truthy (from_option url None stored))
      then
        (log, [],
         inl (newError (js "No INPUT was found. For local testing run: `npm run set-input -- --url https://example.com` then `npm start`.")))
      else
        match scrapeAndSummarize w stored log with
        | (log', inl e) => (log', [], inl e)
        | (log', inr output) =>
            (* Store results in the default dataset. *)
            match pushData sdk output with
            | Some m => (log', [], inl (newError m))
            | None =>
                (* Also store a single object to the key-value store. *)
                match setValue sdk (js "OUTPUT") output with
                | Some m => (log', [PushData output], inl (newError m))
                | None =>
                    (log', [PushData output; SetValue (js "OUTPUT") output],
                     inr tt)
                end
            end
        end
  end.

End Handler.

(** The object [parseArgs] fills in scripts/set-input.mjs. *)
Module Cli.
Record t := { url : option jsstring; prompt : option jsstring }.
End Cli.

(** The loop of [parseArgs] from the current position on: [argv[++i]] takes
    the next argument, whatever it is, and is [undefined] past the end. *)
Fixpoint parseArgsFrom (out : Cli.t) (argv : list jsstring) : Cli.t :=
  match argv with
  | [] => out
  | a :: rest =>
      if jseqb a (js "--url")
      then
        match rest with
        | [] => {| Cli.url := None; Cli.prompt := Cli.prompt out |}
        | v :: rest' =>
            parseArgsFrom {| Cli.url := Some v; Cli.prompt := Cli.prompt out |}
              rest'
        end
      else if jseqb a (js "--prompt")
      then
        match rest with
        | [] => {| Cli.url := Cli.url out; Cli.prompt := None |}
        | v :: rest' =>
            parseArgsFrom {| Cli.url := Cli.url out; Cli.prompt := Some v |}
              rest'
        end
      else parseArgsFrom out rest
  end.

Definition parseArgs (argv : list jsstring) : Cli.t :=
  parseArgsFrom {| Cli.url := None; Cli.prompt := None |} argv.

(** scripts/set-input.mjs on the arguments [argv] (after [slice(2)]) and the
    environment variables URL and PROMPT: the INPUT it writes, or [None]
    when it exits with status 1. *)
Definition setInput (argv : list jsstring) (envURL envPROMPT : option jsstring)
    : option Input :=
  let cli := parseArgs argv in
  let url := orElse (Cli.url cli) envURL in
  let prompt := orElse (Cli.prompt cli) envPROMPT in
  if negb (truthy url) then None
  else Some {| url := url; prompt := if truthy prompt then prompt else None |}.

(** ** Predicates used in the further properties *)

(** Every white-space code unit of [s] is a space and follows a code unit
    that is not white space; [afterSpace] says that [s] follows one. *)
Fixpoint singleSpaced (afterSpace : bool) (s : jsstring) : bool :=
  match s with
  | [] => true
  | c :: r =>
      if isWhiteSpace c
      then (c =? 32)%N && negb afterSpace && singleSpaced true r
      else singleSpaced false r
  end.

(** The names [detectTechStack] can push, in the order it pushes them. *)
Definition techCatalog : list jsstring :=
  [js "Next.js"; js "React"; js "Nuxt.js"; js "Vue.js"; js "Angular";
   js "Svelte"; js "Bootstrap"; js "Tailwind CSS"; js "Material-UI";
   js "WordPress"; js "Shopify"; js "Wix"; js "Google Analytics";
   js "jQuery"; js "Cloudflare"; js "Gatsby"; js "Remix"; js "Vercel";
   js "Netlify"; js "GitHub Pages"].

Definition isHttpGet (ev : Event) : bool :=
  match ev with EvHttpGet _ => true | _ => false end.

Definition isPost (ev : Event) : bool :=
  match ev with EvPost _ => true | _ => false end.

Definition isLaunch (ev : Event) : bool :=
  match ev with EvLaunch => true | _ => false end.

Definition isClose (ev : Event) : bool :=
  match ev with EvClose => true | _ => false end.

Definition isContent (ev : Event) : bool :=
  match ev with EvContent _ => true | _ => false end.

(** A call into puppeteer. *)
Definition isBrowserEvent (ev : Event) : bool :=
  match ev with
  | EvLaunch | EvPageSetup | EvGoto _ | EvContent _ | EvScroll _ | EvClose =>
      true
  | _ => false
  end.

(** How many events of [evs] satisfy [p]. *)
Definition count (p : Event -> bool) (evs : list Event) : nat :=
  length (List.filter p evs).

(** Every run of [m] extends the log by events [evs] that, with the outcome,
    satisfy [T]. *)
Definition traces {A} (m : M A) (T : list Event -> Err.t + A -> Prop) : Prop :=
  forall log log' r, m log = (log', r) -> exists evs, log' = log ++ evs /\ T evs r.

(** The calls on the page, in the order a session makes them when no
    attempt is accepted. *)
Definition pageScript (url : jsstring) : list Event :=
  EvPageSetup :: EvGoto url
  :: List.flat_map (fun attempt => [EvContent attempt; EvScroll attempt])
       (seq 0 6).

(** Whether an executable is found, that is, whether
    [launchOptions.executablePath] is a non-empty string: on a serverless
    host what [chromium.executablePath()] resolves to; elsewhere the
    environment variable PUPPETEER_EXECUTABLE_PATH, or the default path that
    exists for win32 and darwin only. *)
Definition executableFound (w : World) : bool :=
  if isServerlessChromium w
  then
    match chromium_executablePath w with
    | inr path => truthy path
    | inl _ => false
    end
  else
    truthy (PUPPETEER_EXECUTABLE_PATH w)
    || jseqb (platform w) (js "win32")
    || jseqb (platform w) (js "darwin").

(** The attempt ends the loop of [tryExtractLoop]: reading the content
    fails, or the document read passes both checks. *)
Definition attemptSettles {R : Runtime} {C : Cheerio} (w : World)
    (url : jsstring) (attempt : nat) : bool :=
  match page_content w attempt with
  | inl _ => true
  | inr html =>
      let d := extractFromHtml html url in
      negb (looksBlockedOrJsRequired (Some html) (Some d))
      && negb (looksEmptyExtraction (Some d))
  end.

(** The reads of a session: content and scroll for the [n] attempts before
    the first one that settles, then the content of that one; content and
    scroll for all six attempts when none settles. *)
Definition pageReads {R : Runtime} {C : Cheerio} (w : World)
    (url : jsstring) (reads : list Event) : Prop :=
  exists n,
    n <= 6
    /\ (forall i, i < n -> attemptSettles w url i = false)
    /\ (n < 6 -> attemptSettles w url n = true)
    /\ reads
       = List.flat_map (fun attempt => [EvContent attempt; EvScroll attempt])
           (seq 0 n)
         ++ (if n <? 6 then [EvContent n] else []).

(** The calls on the page between launch and close: the set-up; then,
    unless the set-up failed, the navigation; then, unless the navigation
    failed, the reads. *)
Definition pageCalls {R : Runtime} {C : Cheerio} (w : World)
    (url : jsstring) (calls : list Event) : Prop :=
  match page_setup w with
  | Some _ => calls = [EvPageSetup]
  | None =>
      match page_goto w url with
      | Some _ => calls = [EvPageSetup; EvGoto url]
      | None =>
          exists reads,
            calls = EvPageSetup :: EvGoto url :: reads
            /\ pageReads w url reads
      end
  end.

(** The calls of one run of [scrapeWithBrowser]: none when no executable
    is found; otherwise the launch, alone when it fails, and else followed
    by the calls on the page and the close. *)
Definition browserSession {R : Runtime} {C : Cheerio} (w : World)
    (url : jsstring) (evs : list Event) : Prop :=
  if executableFound w
  then
    match puppeteer_launch w with
    | Some _ => evs = [EvLaunch]
    | None =>
        exists calls,
          evs = EvLaunch :: calls ++ [EvClose] /\ pageCalls w url calls
    end
  else evs = [].

(** The HTTP fetch returns a document of [url]: its deadline does not
    pass, axios answers with a status below 400 and a string, and that
    document is not classified as blocked. *)
Definition httpReturns {R : Runtime} {C : Cheerio} (w : World)
    (url : jsstring) : bool :=
  negb (timer_wins w (js "HTTP_TIMEOUT"))
  && match axios_get w url with
     | GetResponse status data =>
         (status <? 400)
         && negb (looksBlockedOrJsRequired (Some data)
                    (Some (extractFromHtml data url)))
     | _ => false
     end.

(** The fields of a result that are spread from what the fetcher
    returned. *)
Definition scrapedOf (res : ScrapeResult.t) : Scraped.t :=
  {| Scraped.title := ScrapeResult.title res;
     Scraped.description := ScrapeResult.description res;
     Scraped.paragraphs := ScrapeResult.paragraphs res;
     Scraped.images := ScrapeResult.images res;
     Scraped.links := ScrapeResult.links res;
     Scraped.tables := ScrapeResult.tables res;
     Scraped.lists := ScrapeResult.lists res;
     Scraped.uniqueComponents := ScrapeResult.uniqueComponents res;
     Scraped.rawHtml := ScrapeResult.rawHtml res;
     Scraped.techStack := ScrapeResult.techStack res |}.

(** The call to the summariser that a request with [prompt] makes for the
    digest [text]. *)
Definition summariserCalls (prompt : option jsstring) (text : jsstring)
    : list Event :=
  match prompt with
  | Some (c :: r) => [EvPost ((c :: r) ++ js ":" ++ newline ++ newline ++ text)]
  | _ => []
  end.

(** [s] is the extraction of the document it carries, and that document
    passed the checks that [method] applies before it returns. *)
Definition passes {R : Runtime} {C : Cheerio} (method : Method)
    (url : jsstring) (s : Scraped.t) : Prop :=
  let html := Scraped.rawHtml s in
  let d := extractFromHtml html url in
  s = rest d
  /\ looksBlockedOrJsRequired (Some html) (Some d) = false
  /\ (method = BROWSER -> looksEmptyExtraction (Some d) = false).

(** The errors [scrapeAndSummarize] throws before it fetches anything. *)
Definition badRequest (e : Err.t) : Prop :=
  Err.statusCode e = Some 400
  /\ Err.message e
     ∈ [js "URL_REQUIRED"; js "INVALID_URL"; js "INVALID_URL_PROTOCOL"]
  /\ exists p, Err.publicPayload e = Some p /\ Payload.details p = None.

Module Scenes.

(** [Examples.blockedWorld] with the HTTP deadline passing before axios
    settles; the browser deadline does not pass. *)
Definition slowHttpWorld : World := {|
  isServerlessChromium := isServerlessChromium Examples.blockedWorld;
  PUPPETEER_EXECUTABLE_PATH := PUPPETEER_EXECUTABLE_PATH Examples.blockedWorld;
  platform := platform Examples.blockedWorld;
  axios_get := axios_get Examples.blockedWorld;
  axios_post := axios_post Examples.blockedWorld;
  chromium_executablePath := chromium_executablePath Examples.blockedWorld;
  puppeteer_launch := puppeteer_launch Examples.blockedWorld;
  page_setup := page_setup Examples.blockedWorld;
  page_goto := page_goto Examples.blockedWorld;
  page_content := page_content Examples.blockedWorld;
  browser_close := browser_close Examples.blockedWorld;
  timer_wins := fun message => bool_decide (message = js "HTTP_TIMEOUT");
  now := now Examples.blockedWorld
|}.

(** The shell of a single-page application before it has rendered. *)
Definition shellPage : jsstring :=
  js "<html><head><title>App</title></head><body><p>Loading</p></body></html>".

(** A single-page application: the shell over HTTP and on the first attempt
    in the browser, the rendered page on the second. *)
Definition renderedWorld : World := {|
  isServerlessChromium := false;
  PUPPETEER_EXECUTABLE_PATH := Some (js "/usr/bin/chromium");
  platform := js "linux";
  axios_get := fun _ => GetResponse 200 shellPage;
  axios_post := fun _ => PostResponse (js "summary");
  chromium_executablePath := inr None;
  puppeteer_launch := None;
  page_setup := None;
  page_goto := fun _ => None;
  page_content :=
    fun attempt =>
      inr (if attempt =? 0 then shellPage else Examples.examplePage);
  browser_close := None;
  timer_wins := fun _ => false;
  now := js "2024-01-01T00:00:00.000Z"
|}.

Definition renderedLog : list Event :=
  [EvHttpGet Examples.exampleUrl; EvLaunch; EvPageSetup;
   EvGoto Examples.exampleUrl; EvContent 0; EvScroll 0; EvContent 1; EvClose].

(** The same application fetched from a Linux machine on which no browser
    is configured. *)
Definition bareWorld : World := {|
  isServerlessChromium := false;
  PUPPETEER_EXECUTABLE_PATH := None;
  platform := js "linux";
  axios_get := fun _ => GetResponse 200 shellPage;
  axios_post := fun _ => PostResponse (js "summary");
  chromium_executablePath := inr None;
  puppeteer_launch := None;
  page_setup := None;
  page_goto := fun _ => None;
  page_content := fun _ => inr Examples.examplePage;
  browser_close := None;
  timer_wins := fun _ => false;
  now := js "2024-01-01T00:00:00.000Z"
|}.

(** The result of a request for [Examples.exampleUrl] without a prompt in
    [renderedWorld]. *)
Definition renderedResult : ScrapeResult.t := {|
  ScrapeResult.url := Examples.exampleUrl;
  ScrapeResult.methodUsed := BROWSER;
  ScrapeResult.summary := [];
  ScrapeResult.title := Scraped.title Examples.exampleScraped;
  ScrapeResult.description := Scraped.description Examples.exampleScraped;
  ScrapeResult.paragraphs := Scraped.paragraphs Examples.exampleScraped;
  ScrapeResult.images := Scraped.images Examples.exampleScraped;
  ScrapeResult.links := Scraped.links Examples.exampleScraped;
  ScrapeResult.tables := Scraped.tables Examples.exampleScraped;
  ScrapeResult.lists := Scraped.lists Examples.exampleScraped;
  ScrapeResult.uniqueComponents :=
    Scraped.uniqueComponents Examples.exampleScraped;
  ScrapeResult.rawHtml := Scraped.rawHtml Examples.exampleScraped;
  ScrapeResult.techStack := Scraped.techStack Examples.exampleScraped;
  ScrapeResult.scrapedAt := now renderedWorld
|}.

(** The INPUT that scripts/set-input.mjs writes for
    [--url https://example.com/] with PROMPT=Summarize in the environment. *)
Definition scriptInput : Input :=
  {| url := Some Examples.exampleUrl; prompt := Some (js "Summarize") |}.

(** An SDK that returns this INPUT and accepts the writes. *)
Definition quietSdk : ActorSdk := {|
  getInput := inr (Some scriptInput);
  pushData := fun _ => None;
  setValue := fun _ _ => None
|}.

(** The same with a key-value store that rejects the write. *)
Definition fullSdk : ActorSdk := {|
  getInput := inr (Some scriptInput);
  pushData := fun _ => None;
  setValue := fun _ _ => Some (js "Storage limit exceeded")
|}.

End Scenes.

(** What [rowStep] pushes: non-empty rows of non-empty normalised cells. *)
Definition rowGood (row : list jsstring) : Prop :=
  row <> [] /\ Forall (fun cell => cell <> [] /\ whitespaceNormalized cell) row.

(** The stack [t] holds at most [k] entries, named by some of the first [n]
    names of the catalogue, in its order. *)
Definition techInv (n k : nat) (t : list Tech.t) : Prop :=
  sublist (Tech.name <$> t) (take n techCatalog) /\ length t <= k.

(** * Properties *)

(** ** Loops *)

Section EachLoop.
Context {A St : Type}.

Lemma eachFrom_invariant (P : St -> Prop) (body : St -> nat -> A -> St)
    (l : list A) :
  (forall s i x, x ∈ l -> P s -> P (body s i x)) ->
  forall i s, P s -> P (eachFrom i l body s).
Proof.
  induction l as [|x l IH]; intros Hbody i s Hs; simpl.
  - exact Hs.
  - apply IH.
    + intros s' j y Hy. apply Hbody. by right.
    + apply Hbody; [by left | exact Hs].
Qed.

Lemma each_invariant (P : St -> Prop) (body : St -> nat -> A -> St)
    (l : list A) (s : St) :
  (forall s i x, x ∈ l -> P s -> P (body s i x)) -> P s -> P (each l body s).
Proof. intros Hbody Hs. unfold each. by apply eachFrom_invariant. Qed.

End EachLoop.

(** ** Strings *)

Section Strings.

Lemma trimStart_startsClean s : startsClean (trimStart s).
Proof.
  induction s as [|c r IH]; simpl; [done|].
  destruct (isWhiteSpace c) eqn:Hc; [exact IH | exact Hc].
Qed.

Lemma trimStart_fixed s : startsClean s -> trimStart s = s.
Proof. destruct s as [|c r]; simpl; [done|]. by intros ->. Qed.

Lemma trimStart_idempotent s : trimStart (trimStart s) = trimStart s.
Proof. apply trimStart_fixed, trimStart_startsClean. Qed.

Lemma trimStart_suffix s : exists pre, s = pre ++ trimStart s.
Proof.
  induction s as [|c r [pre IH]]; simpl; [by exists []|].
  destruct (isWhiteSpace c).
  - exists (c :: pre). simpl. by f_equal.
  - by exists [].
Qed.

Lemma trimStart_nil s c : trimStart s = [] -> c ∈ s -> isWhiteSpace c = true.
Proof.
  induction s as [|x r IH]; simpl; intros Hnil Hin.
  - by apply elem_of_nil in Hin.
  - destruct (isWhiteSpace x) eqn:Hx; [|done].
    apply elem_of_cons in Hin as [->|Hin]; [done | by apply IH].
Qed.

Lemma trimEnd_idempotent s : trimEnd (trimEnd s) = trimEnd s.
Proof.
  unfold trimEnd. by rewrite reverse_involutive, trimStart_idempotent.
Qed.

Lemma trimEnd_startsClean s : startsClean s -> startsClean (trimEnd s).
Proof.
  destruct s as [|c r]; [done|]. simpl. intros Hc.
  destruct (trimStart_suffix (reverse (c :: r))) as [pre Hpre].
  apply (f_equal reverse) in Hpre.
  rewrite reverse_involutive, reverse_app in Hpre.
  fold (trimEnd (c :: r)) in Hpre.
  destruct (trimEnd (c :: r)) as [|c' r'] eqn:Hend.
  - unfold trimEnd in Hend.
    apply (f_equal reverse) in Hend. rewrite reverse_involutive in Hend.
    simpl in Hend. rewrite reverse_nil in Hend.
    assert (isWhiteSpace c = true) as Hws.
    { apply (trimStart_nil (reverse (c :: r))); [done|].
      apply elem_of_reverse. by left. }
    congruence.
  - simpl in Hpre. injection Hpre as -> _. exact Hc.
Qed.

Lemma trim_idempotent s : trim (trim s) = trim s.
Proof.
  unfold trim.
  rewrite (trimStart_fixed (trimEnd (trimStart s))).
  - apply trimEnd_idempotent.
  - apply trimEnd_startsClean, trimStart_startsClean.
Qed.

Lemma startsWith_spec s p : startsWith s p = true <-> exists b, s = p ++ b.
Proof.
  revert s. induction p as [|a p IH]; intros s; simpl.
  - destruct s; split; eauto.
  - destruct s as [|b s]; simpl.
    + split; [done | by intros [? ?]].
    + rewrite andb_true_iff, N.eqb_eq, IH. split.
      * intros [-> [t ->]]. by exists t.
      * intros [t Ht]. injection Ht as -> ->. eauto.
Qed.

Lemma includes_spec s p :
  includes s p = true <-> exists a b, s = a ++ p ++ b.
Proof.
  induction s as [|c s IH]; cbn [includes].
  - rewrite orb_false_r, startsWith_spec. split.
    + intros [b Hb]. by exists [], b.
    + intros (a & b & Hab). destruct a; [by exists b|done].
  - rewrite orb_true_iff, IH, startsWith_spec. split.
    + intros [[b Hb]|(a & b & ->)].
      * by exists [], b.
      * by exists (c :: a), b.
    + intros (a & b & Hab). destruct a as [|x a].
      * left. by exists b.
      * right. injection Hab as -> ->. by exists a, b.
Qed.

Lemma orDefault_Some s : orDefault (Some s) [] = s.
Proof. by destruct s. Qed.

Lemma filter_length_le {X} (f : X -> bool) (l : list X) :
  length (List.filter f l) <= length l.
Proof. induction l as [|x l IH]; simpl; [lia|]. destruct (f x); simpl; lia. Qed.

Lemma take_short_eq (c1 c2 : jsstring) n :
  take n c1 = take n c2 -> length (take n c1) < n -> c1 = c2.
Proof.
  intros Heq Hlen.
  assert (length (take n c2) < n) as Hlen2 by (by rewrite <- Heq).
  rewrite length_take in Hlen, Hlen2.
  rewrite <- (take_ge c1 n), <- (take_ge c2 n); [done | lia | lia].
Qed.

End Strings.

(** ** The caps of the extractor *)

Section Caps.
Context {R : Runtime} {C : Cheerio}.

Lemma tableHeaders_length (table : Element) :
  length (tableHeaders table) <= MAX_TABLE_COLS.
Proof.
  unfold tableHeaders.
  repeat case_match; rewrite ?length_take; unfold MAX_TABLE_COLS;
    cbn [length]; lia.
Qed.

Lemma rowStep_invariant table headers rows i tr :
  length rows <= MAX_TABLE_ROWS /\ Forall rowOk rows ->
  length (rowStep table headers rows i tr) <= MAX_TABLE_ROWS
  /\ Forall rowOk (rowStep table headers rows i tr).
Proof.
  intros [Hlen Hrows]. unfold rowStep.
  destruct (MAX_TABLE_ROWS <=? length rows) eqn:Hfull; [done|].
  apply Nat.leb_gt in Hfull.
  repeat case_match; try done.
  split.
  - rewrite length_app. simpl. lia.
  - apply Forall_app. split; [done|]. apply Forall_singleton.
    unfold rowOk. etrans; [apply filter_length_le|].
    rewrite length_take. lia.
Qed.

Lemma tableRows_ok table headers :
  length (tableRows table headers) <= MAX_TABLE_ROWS
  /\ Forall rowOk (tableRows table headers).
Proof.
  unfold tableRows.
  apply (each_invariant
           (fun rows => length rows <= MAX_TABLE_ROWS /\ Forall rowOk rows)).
  - intros s i x _ Hs. by apply rowStep_invariant.
  - split; [simpl; lia | constructor].
Qed.

Lemma extractTables_ok (doc : Document) :
  length (extractTables doc) <= MAX_TABLES /\ Forall tableOk (extractTables doc).
Proof.
  unfold extractTables.
  apply (each_invariant
           (fun ts => length ts <= MAX_TABLES /\ Forall tableOk ts)).
  - intros ts i table _ [Hlen Hok]. unfold tableStep.
    destruct (MAX_TABLES <=? length ts) eqn:Hfull; [done|].
    apply Nat.leb_gt in Hfull.
    case_match; [done|]. split.
    + rewrite length_app. simpl. lia.
    + apply Forall_app. split; [done|]. apply Forall_singleton.
      unfold tableOk; simpl. split; [apply tableHeaders_length|].
      apply tableRows_ok.
  - split; [simpl; lia | constructor].
Qed.

Lemma listItems_length (lst : Element) :
  length (listItems lst) <= MAX_LIST_ITEMS.
Proof. unfold listItems. rewrite length_take. lia. Qed.

Lemma extractLists_ok (doc : Document) :
  length (extractLists doc) <= MAX_LISTS
  /\ Forall (fun l => length (List_.items l) <= MAX_LIST_ITEMS)
       (extractLists doc).
Proof.
  unfold extractLists.
  apply (each_invariant
           (fun ls =>
              length ls <= MAX_LISTS
              /\ Forall (fun l => length (List_.items l) <= MAX_LIST_ITEMS) ls)).
  - intros ls i lst _ [Hlen Hok]. unfold listStep.
    destruct (MAX_LISTS <=? length ls) eqn:Hfull; [done|].
    apply Nat.leb_gt in Hfull.
    case_match; [done|]. split.
    + rewrite length_app. simpl. lia.
    + apply Forall_app. split; [done|]. apply Forall_singleton.
      simpl. apply listItems_length.
  - split; [simpl; lia | constructor].
Qed.

Lemma componentStep_invariant st i el :
  length (snd st) <= MAX_UNIQUE_COMPONENTS
  /\ Forall (fun c => length (Component.content c) <= 300) (snd st) ->
  length (snd (componentStep st i el)) <= MAX_UNIQUE_COMPONENTS
  /\ Forall (fun c => length (Component.content c) <= 300)
       (snd (componentStep st i el)).
Proof.
  destruct st as [seen out]. cbn [snd]. intros [Hlen Hok]. unfold componentStep.
  destruct (MAX_UNIQUE_COMPONENTS <=? length out) eqn:Hfull; [by split|].
  apply Nat.leb_gt in Hfull.
  repeat case_match; try by split. cbn [snd]. split.
  - rewrite length_app. simpl. lia.
  - apply Forall_app. split; [done|]. apply Forall_singleton. simpl.
    rewrite length_take. lia.
Qed.

Lemma extractUniqueComponents_ok (doc : Document) :
  length (extractUniqueComponents doc) <= MAX_UNIQUE_COMPONENTS
  /\ Forall (fun c => length (Component.content c) <= 300)
       (extractUniqueComponents doc).
Proof.
  unfold extractUniqueComponents.
  apply (each_invariant
           (fun st => length (snd st) <= MAX_UNIQUE_COMPONENTS
                      /\ Forall (fun c => length (Component.content c) <= 300)
                           (snd st))).
  - intros st i el _ Hst. by apply componentStep_invariant.
  - simpl. split; [lia | constructor].
Qed.

Lemma documentSize_ge_rawHtml (html url : jsstring) :
  length html <= documentSize (extractFromHtml html url).
Proof. unfold documentSize. cbn [extractFromHtml rawHtml]. lia. Qed.

(** C4.  Whatever the HTML and the base URL, the extraction has at most 10
    tables, 30 lists and 80 components; every table has at most 50 rows, and
    at most 20 cells in its headers and in each of its rows; every list has
    at most 60 items. *)
Theorem C4_structural_caps (html url : jsstring) :
  let d := extractFromHtml html url in
  length (tables d) <= 10
  /\ length (lists d) <= 30
  /\ length (uniqueComponents d) <= 80
  /\ Forall (fun t => length (Table.rows t) <= 50
                      /\ length (Table.headers t) <= 20
                      /\ Forall (fun row => length row <= 20) (Table.rows t))
       (tables d)
  /\ Forall (fun l => length (List_.items l) <= 60) (lists d).
Proof.
  cbn zeta. cbn [extractFromHtml tables lists uniqueComponents].
  destruct (extractTables_ok (load html)) as [Ht Htok].
  destruct (extractLists_ok (load html)) as [Hl Hlok].
  destruct (extractUniqueComponents_ok (load html)) as [Hc _].
  split_and!; try done.
  eapply Forall_impl; [exact Htok|].
  intros t (Hh & Hr & Hrows). done.
Qed.

(** C1 (amended).  The extractor caps counts, not sizes.  For every HTML
    string and base URL there are at most 10 tables, each with at most 20
    header cells and 50 rows of at most 20 cells, at most 30 lists of at
    most 60 items, at most 80 components whose content has at most 300 code
    units, at most 20 images and at most 50 links; [rawHtml] is the input
    itself, so the document is at least as large as the input, and no
    constant bounds its total size. *)
Theorem C1_counts_capped_size_unbounded (url : jsstring) :
  (forall html,
     let d := extractFromHtml html url in
     length (tables d) <= 10
     /\ Forall (fun t => length (Table.headers t) <= 20
                         /\ length (Table.rows t) <= 50
                         /\ Forall (fun row => length row <= 20) (Table.rows t))
          (tables d)
     /\ length (lists d) <= 30
     /\ Forall (fun l => length (List_.items l) <= 60) (lists d)
     /\ length (uniqueComponents d) <= 80
     /\ Forall (fun c => length (Component.content c) <= 300)
          (uniqueComponents d)
     /\ length (images d) <= 20
     /\ length (links d) <= 50
     /\ rawHtml d = html
     /\ length html <= documentSize d)
  /\ (forall B, exists html, B < documentSize (extractFromHtml html url)).
Proof.
  split.
  - intros html. cbn zeta.
    destruct (extractTables_ok (load html)) as [Ht Htok].
    destruct (extractLists_ok (load html)) as [Hl Hlok].
    destruct (extractUniqueComponents_ok (load html)) as [Hc Hcok].
    split_and!; try done.
    + cbn [extractFromHtml images]. rewrite length_take. lia.
    + cbn [extractFromHtml links]. rewrite length_take. lia.
    + apply documentSize_ge_rawHtml.
  - intros B. exists (replicate (S B) 97%N).
    pose proof (documentSize_ge_rawHtml (replicate (S B) 97%N) url) as Hsize.
    rewrite length_replicate in Hsize. lia.
Qed.

End Caps.

(** ** Deduplication of the components *)

Section Dedup.
Context {R : Runtime} {C : Cheerio}.

Lemma componentStep_dedup l st sources i el :
  el ∈ l ->
  dedupInvariant l st sources ->
  exists sources', dedupInvariant l (componentStep st i el) sources'.
Proof.
  intros Hel (Hout & Hseen & Hnodup & Hsrc).
  destruct st as [seen out]. cbn [fst snd] in *. unfold componentStep.
  repeat case_match;
    try (exists sources; unfold dedupInvariant; cbn [fst snd]; by split_and!).
  exists (sources ++ [sourceOf el]).
  match goal with H : bool_decide _ = false |- _ =>
    apply bool_decide_eq_false in H; rename H into Hfresh end.
  unfold dedupInvariant. cbn [fst snd]. repeat split.
  - rewrite fmap_app. by rewrite Hout.
  - rewrite fmap_app. intros Hk. apply elem_of_app.
    apply elem_of_union in Hk as [Hk|Hk]; [left; by apply Hseen|].
    right. apply elem_of_singleton in Hk as ->. by left.
  - rewrite fmap_app. intros Hk. apply elem_of_union.
    apply elem_of_app in Hk as [Hk|Hk]; [left; by apply Hseen|].
    right. apply list_elem_of_singleton in Hk as ->. by apply elem_of_singleton.
  - rewrite fmap_app. apply NoDup_app. split; [done|]. split.
    + intros k Hk Hk'. apply list_elem_of_singleton in Hk' as ->.
      apply Hfresh, Hseen, Hk.
    + apply NoDup_singleton.
  - apply Forall_app. split; [done|]. apply Forall_singleton. by exists el.
Qed.

Lemma eachFrom_dedup l0 l i st sources :
  (forall el, el ∈ l -> el ∈ l0) ->
  dedupInvariant l0 st sources ->
  exists sources', dedupInvariant l0 (eachFrom i l componentStep st) sources'.
Proof.
  revert i st sources. induction l as [|el l IH]; intros i st sources Hsub Hinv.
  - by exists sources.
  - simpl.
    destruct (componentStep_dedup l0 st sources i el) as [sources' Hinv'];
      [apply Hsub; by left | done |].
    apply (IH _ _ sources'); [|done]. intros x Hx. apply Hsub. by right.
Qed.

(** What the deduplication does guarantee.  The components are
    deduplicated by the key [name::content] taken before [content] is cut
    to 300 code units: the stored entries are the truncations of a
    duplicate-free sequence of (name, untruncated content) pairs, each read
    from a candidate element.  Two stored entries at different positions can
    agree on both name and content only when that content is exactly 300
    code units long. *)
Lemma components_deduplicated_before_truncation (html url : jsstring) :
  let d := extractFromHtml html url in
  (exists sources : list (jsstring * jsstring),
     uniqueComponents d = stored <$> sources
     /\ NoDup (keyOf <$> sources)
     /\ NoDup sources
     /\ Forall (fun s => exists el,
                  el ∈ select (load html) candidates /\ s = sourceOf el)
          sources)
  /\ (forall i j a b,
        i <> j ->
        uniqueComponents d !! i = Some a ->
        uniqueComponents d !! j = Some b ->
        Component.name a = Component.name b ->
        Component.content a = Component.content b ->
        length (Component.content a) = 300).
Proof.
  cbn zeta. cbn [uniqueComponents extractFromHtml].
  destruct (eachFrom_dedup (select (load html) candidates)
              (select (load html) candidates) 0 (∅, []) [])
    as [sources (Hout & Hseen & Hnodup & Hsrc)].
  { done. }
  { unfold dedupInvariant. cbn [fst snd].
    split_and!; [done | set_solver | constructor | constructor]. }
  assert (NoDup sources) as Hnd by (by eapply NoDup_fmap_1).
  split.
  - exists sources. by repeat split.
  - unfold extractUniqueComponents, each. rewrite Hout.
    intros i j a b Hij Ha Hb Hname Hcontent.
    apply list_lookup_fmap_Some in Ha as ([n1 c1] & -> & Hs1).
    apply list_lookup_fmap_Some in Hb as ([n2 c2] & -> & Hs2).
    cbn [stored Component.name Component.content fst snd] in *.
    destruct (decide (length (take 300 c1) < 300)) as [Hshort|Hlong].
    + exfalso. apply Hij.
      apply (NoDup_lookup sources i j (n1, c1)); [done | done |].
      rewrite Hs2. f_equal. f_equal; [done|].
      symmetry. by apply (take_short_eq c1 c2 300).
    + rewrite length_take in *. lia.
Qed.

End Dedup.

(** ** Paragraphs *)

Section Paragraphs.
Context {R : Runtime} {C : Cheerio}.

(** C3 (amended).  Every string of [paragraphs] is the text of a [p]
    element with the white space at its two ends removed, inner runs of
    white space left as they are, and it is longer than 30 code units. *)
Theorem C3_paragraphs_trimmed (html url : jsstring) :
  Forall
    (fun p =>
       trim p = p /\ 30 < length p
       /\ exists el, el ∈ select (load html) "p, article p, main p, .content p"
                     /\ p = trim (text el))
    (paragraphs (extractFromHtml html url)).
Proof.
  apply Forall_forall. intros p Hp.
  apply list_elem_of_In in Hp. cbn [extractFromHtml paragraphs] in Hp.
  apply filter_In in Hp as [Hin Hlen].
  apply in_map_iff in Hin as (el & <- & Hel).
  apply Nat.ltb_lt in Hlen.
  split; [apply trim_idempotent|]. split; [done|].
  exists el. split; [by apply list_elem_of_In | done].
Qed.

End Paragraphs.

(** ** The classifier *)

Section Classifier.
Context {R : Runtime}.

Lemma includes_containsCI html (phrase : string) :
  includes (toLowerCase html) (js phrase) = true <-> containsCI html phrase.
Proof. apply includes_spec. Qed.

(** C7.  [looksBlockedOrJsRequired html doc] is true when the body text of
    [doc] is shorter than 120 code units, or the HTML contains, letter case
    ignored, one of the phrases "enable javascript", "please enable
    cookies", "access denied" or a Cloudflare challenge marker; it is false
    otherwise. *)
Theorem C7_blocked_classifier (html : jsstring)
    (doc : ExtractedDocument) :
  let blocked :=
    _bodyTextLength doc < 120
    \/ containsCI html "enable javascript"
    \/ containsCI html "please enable cookies"
    \/ cloudflareChallengeMarker html
    \/ containsCI html "access denied" in
  (looksBlockedOrJsRequired (Some html) (Some doc) = true <-> blocked)
  /\ (looksBlockedOrJsRequired (Some html) (Some doc) = false <-> ~ blocked).
Proof.
  cbn zeta.
  assert (looksBlockedOrJsRequired (Some html) (Some doc) = true <->
          _bodyTextLength doc < 120
          \/ containsCI html "enable javascript"
          \/ containsCI html "please enable cookies"
          \/ cloudflareChallengeMarker html
          \/ containsCI html "access denied") as Hiff.
  { unfold looksBlockedOrJsRequired, cloudflareChallengeMarker.
    rewrite orDefault_Some, <- !includes_containsCI.
    destruct (_bodyTextLength doc <? 120) eqn:Hlen.
    { apply Nat.ltb_lt in Hlen. tauto. }
    apply Nat.ltb_ge in Hlen.
    repeat
      (match goal with
       | |- context [includes ?s ?p] => destruct (includes s p) eqn:?
       end; cbn [andb orb]);
      split; intros; try done; try tauto;
      intuition (try lia; try discriminate). }
  split; [exact Hiff|].
  rewrite <- Hiff. by destruct (looksBlockedOrJsRequired _ _).
Qed.

End Classifier.

(** ** Rules for the monad *)

Section Monad.
Context {A B : Type}.

Lemma throwsOnly_ret P (a : A) : throwsOnly P (ret a).
Proof. by intros log log' e. Qed.

Lemma throwsOnly_throw (P : Err.t -> Prop) e : P e -> throwsOnly P (@throw A e).
Proof. intros He log log' e' [= _ <-]. exact He. Qed.

Lemma throwsOnly_bind P (m : M A) (k : A -> M B) :
  throwsOnly P m -> (forall a, throwsOnly P (k a)) -> throwsOnly P (bind m k).
Proof.
  intros Hm Hk log log' e. unfold bind.
  destruct (m log) as [l [e'|a]] eqn:Hrun.
  - intros [= <- <-]. by eapply Hm.
  - apply Hk.
Qed.

Lemma throwsOnly_emit P ev : throwsOnly P (emit ev).
Proof. by intros log log' e. Qed.

Lemma throwsOnly_tryFinally P (body : M A) (fin : M unit) :
  throwsOnly P body -> throwsOnly P fin -> throwsOnly P (tryFinally body fin).
Proof.
  intros Hbody Hfin log log' e. unfold tryFinally.
  destruct (body log) as [l r] eqn:Hrun.
  destruct (fin l) as [l' [e'|[]]] eqn:Hclose.
  - intros [= <- <-]. by eapply Hfin.
  - intros [= <- ->]. by eapply Hbody.
Qed.

Lemma throwsOnly_withTimeout w P (promise : M A) ms msg :
  P (newError msg) -> throwsOnly P promise ->
  throwsOnly P (withTimeout w promise ms msg).
Proof.
  intros Hmsg Hp log log' e. unfold withTimeout.
  destruct (promise log) as [l r] eqn:Hrun.
  destruct (timer_wins w msg).
  - by intros [= <- <-].
  - intros [= <- ->]. by eapply Hp.
Qed.

Lemma returnsOnly_ret (Q : A -> Prop) a : Q a -> returnsOnly Q (ret a).
Proof. intros Ha log log' a' [= _ <-]. exact Ha. Qed.

Lemma returnsOnly_throw (Q : A -> Prop) e : returnsOnly Q (throw e).
Proof. by intros log log' a. Qed.

Lemma returnsOnly_bind (Q : B -> Prop) (m : M A) (k : A -> M B) :
  (forall a, returnsOnly Q (k a)) -> returnsOnly Q (bind m k).
Proof.
  intros Hk log log' b. unfold bind.
  destruct (m log) as [l [e'|a]] eqn:Hrun; [done|]. apply Hk.
Qed.

Lemma returnsOnly_bind_strong (Q : B -> Prop) (Q' : A -> Prop) (m : M A) (k : A -> M B) :
  returnsOnly Q' m -> (forall a, Q' a -> returnsOnly Q (k a)) ->
  returnsOnly Q (bind m k).
Proof.
  intros Hm Hk log log' b. unfold bind.
  destruct (m log) as [l [e'|a]] eqn:Hrun; [done|]. apply Hk. by eapply Hm.
Qed.

Lemma returnsOnly_tryFinally (Q : A -> Prop) (body : M A) (fin : M unit) :
  returnsOnly Q body -> returnsOnly Q (tryFinally body fin).
Proof.
  intros Hbody log log' a. unfold tryFinally.
  destruct (body log) as [l r] eqn:Hrun.
  destruct (fin l) as [l' [e'|[]]] eqn:Hclose; [done|].
  intros [= <- ->]. by eapply Hbody.
Qed.

Lemma returnsOnly_withTimeout w (Q : A -> Prop) (promise : M A) ms msg :
  returnsOnly Q promise -> returnsOnly Q (withTimeout w promise ms msg).
Proof.
  intros Hp log log' a. unfold withTimeout.
  destruct (promise log) as [l r] eqn:Hrun.
  destruct (timer_wins w msg); [done|].
  intros [= <- ->]. by eapply Hp.
Qed.

End Monad.

Lemma throwsOnly_settle (P : Err.t -> Prop) ev outcome :
  (forall m, outcome = Some m -> P (newError m)) ->
  throwsOnly P (settle ev outcome).
Proof.
  intros Hout. unfold settle. apply throwsOnly_bind; [apply throwsOnly_emit|].
  intros _. destruct outcome as [m|].
  - apply throwsOnly_throw. by apply Hout.
  - apply throwsOnly_ret.
Qed.

(** ** What the fetchers throw *)

Section Fetchers.
Context {R : Runtime} {C : Cheerio}.
Variable w : World.

Lemma raised_fetcherError url m :
  m ∈ [js "JAVASCRIPT_RENDERED"; js "HTTP_TIMEOUT"; js "BROWSER_TIMEOUT";
       js "BROWSER_EXECUTABLE_NOT_FOUND";
       js "LOCAL_BROWSER_EXECUTABLE_NOT_CONFIGURED"; js "BLOCKED_OR_EMPTY"] ->
  fetcherError w url (newError m).
Proof. intros Hm. exists m. split; [done|]. left. by right. Qed.

Lemma library_fetcherError url m :
  libraryFailure w url m -> fetcherError w url (newError m).
Proof. intros Hm. exists m. split; [done|]. by right. Qed.

Lemma scrapeWithHttp_throws url :
  throwsOnly (fetcherError w url) (scrapeWithHttp w url).
Proof.
  unfold scrapeWithHttp.
  apply throwsOnly_bind; [apply throwsOnly_emit|]. intros _.
  destruct (axios_get w url) as [status data|status typeError|m] eqn:Hget.
  - destruct (400 <=? status).
    + apply throwsOnly_throw. eexists. split; [done|]. left. left. by exists status.
    + destruct (looksBlockedOrJsRequired _ _).
      * apply throwsOnly_throw, raised_fetcherError. set_solver.
      * apply throwsOnly_ret.
  - destruct (400 <=? status).
    + apply throwsOnly_throw. eexists. split; [done|]. left. left. by exists status.
    + apply throwsOnly_throw, library_fetcherError. do 7 right. by exists status.
  - apply throwsOnly_throw, library_fetcherError. by left.
Qed.

Lemma tryExtractLoopFrom_throws url remaining attempt :
  attempt + remaining <= 6 ->
  throwsOnly (fetcherError w url) (tryExtractLoopFrom w url attempt remaining).
Proof.
  revert attempt. induction remaining as [|k IH]; intros attempt Hle; simpl.
  - apply throwsOnly_ret.
  - apply throwsOnly_bind; [apply throwsOnly_emit|]. intros _.
    destruct (page_content w attempt) as [m|html] eqn:Hc.
    + apply throwsOnly_throw, library_fetcherError.
      do 5 right. left. exists attempt. split; [lia | done].
    + destruct (_ && _); [apply throwsOnly_ret|].
      apply throwsOnly_bind; [apply throwsOnly_emit|]. intros _.
      apply IH. lia.
Qed.

Lemma scrapeWithBrowser_throws url :
  throwsOnly (fetcherError w url) (scrapeWithBrowser w url).
Proof.
  unfold scrapeWithBrowser.
  apply throwsOnly_bind.
  { unfold executablePath. destruct (isServerlessChromium w); [|apply throwsOnly_ret].
    destruct (chromium_executablePath w) as [m|path] eqn:Hpath.
    - apply throwsOnly_throw, library_fetcherError. right. by left.
    - apply throwsOnly_ret. }
  intros path. destruct (negb (truthy path)).
  { apply throwsOnly_throw, raised_fetcherError.
    destruct (isServerlessChromium w); set_solver. }
  apply throwsOnly_bind.
  { apply throwsOnly_settle. intros m Hm. apply library_fetcherError.
    do 2 right. by left. }
  intros _. apply throwsOnly_tryFinally.
  - apply throwsOnly_bind.
    { apply throwsOnly_settle. intros m Hm. apply library_fetcherError.
      do 3 right. by left. }
    intros _. apply throwsOnly_bind.
    { apply throwsOnly_settle. intros m Hm. apply library_fetcherError.
      do 4 right. by left. }
    intros _. apply throwsOnly_bind.
    { apply tryExtractLoopFrom_throws. lia. }
    intros [[html extracted]|].
    + apply throwsOnly_ret.
    + apply throwsOnly_throw, raised_fetcherError. set_solver.
  - apply throwsOnly_settle. intros m Hm. apply library_fetcherError.
    do 6 right. by left.
Qed.

Lemma httpFetch_throws url :
  throwsOnly (fetcherError w url) (httpFetch w url).
Proof.
  apply throwsOnly_withTimeout; [|apply scrapeWithHttp_throws].
  apply raised_fetcherError. set_solver.
Qed.

Lemma browserFetch_throws url :
  throwsOnly (fetcherError w url) (browserFetch w url).
Proof.
  apply throwsOnly_withTimeout; [|apply scrapeWithBrowser_throws].
  apply raised_fetcherError. set_solver.
Qed.

End Fetchers.

(** ** Validation *)

Section Orchestrator.
Context {R : Runtime} {C : Cheerio}.
Variable w : World.

Lemma scrapePhase_run url log :
  scrapePhase w url log =
  match httpFetch w url log with
  | (log1, inr scraped) => (log1, inr (scraped, HTTP))
  | (log1, inl eh) =>
      match browserFetch w url log1 with
      | (log2, inr scraped) => (log2, inr (scraped, BROWSER))
      | (log2, inl eb) => (log2, inl (scrapeFailure w url (Some eh) eb))
      end
  end.
Proof.
  unfold scrapePhase, httpFetch, browserFetch, bind, tryCatch, ret, throw.
  destruct (withTimeout w (scrapeWithHttp w url) _ _ log) as [log1 [eh|s]];
    [|done].
  by destruct (withTimeout w (scrapeWithBrowser w url) _ _ log1)
    as [log2 [eb|s]].
Qed.

Lemma validateScrapeUrl_error rawUrl e :
  validateScrapeUrl rawUrl = inl e ->
  e = newError (js "INVALID_URL") \/ e = newError (js "INVALID_URL_PROTOCOL").
Proof.
  unfold validateScrapeUrl. destruct (newURL rawUrl None) as [parsed|].
  - destruct (_ && _); [|done]. intros [= <-]. by right.
  - intros [= <-]. by left.
Qed.

(** C6.  [validateScrapeUrl] fails with INVALID_URL when the string does not
    parse as an absolute URL, with INVALID_URL_PROTOCOL when it parses with a
    scheme other than http and https, and returns the href otherwise.  When
    it fails, the orchestrator throws an error with status 400 and a public
    payload, without having made any external call. *)
Theorem C6_url_validation (rawUrl : jsstring) :
  (newURL rawUrl None = None ->
   validateScrapeUrl rawUrl = inl (newError (js "INVALID_URL")))
  /\ (forall parsed,
        newURL rawUrl None = Some parsed ->
        protocol parsed <> js "http:" -> protocol parsed <> js "https:" ->
        validateScrapeUrl rawUrl = inl (newError (js "INVALID_URL_PROTOCOL")))
  /\ (forall parsed,
        newURL rawUrl None = Some parsed ->
        protocol parsed = js "http:" \/ protocol parsed = js "https:" ->
        validateScrapeUrl rawUrl = inr (href parsed))
  /\ (forall e prompt log,
        validateScrapeUrl rawUrl = inl e ->
        exists err payload,
          scrapeAndSummarize w (Some {| url := Some rawUrl; prompt := prompt |})
            log = (log, inl err)
          /\ Err.statusCode err = Some 400
          /\ Err.publicPayload err = Some payload
          /\ (rawUrl <> [] ->
              Err.message err = Err.message e
              /\ Payload.errorType payload = Some (Err.message e))).
Proof.
  split_and!.
  - unfold validateScrapeUrl. by intros ->.
  - intros parsed Hp Hhttp Hhttps. unfold validateScrapeUrl, jseqb. rewrite Hp.
    by rewrite !bool_decide_eq_false_2.
  - intros parsed Hp Hscheme. unfold validateScrapeUrl, jseqb. rewrite Hp.
    destruct Hscheme as [-> | ->]; by vm_compute.
  - intros e prompt log He. unfold scrapeAndSummarize. cbn [from_option url].
    destruct rawUrl as [|c r].
    + eexists _, _. unfold throw. split_and!; done.
    + rewrite He. eexists _, _. unfold throw. split_and!; try done.
      intros _. apply validateScrapeUrl_error in He as [-> | ->]; by vm_compute.
Qed.

End Orchestrator.

(** ** Scrape failures *)

Section Failures.
Context {R : Runtime} {C : Cheerio}.
Variable w : World.

Lemma raisedByFetchers_not_login m :
  raisedByFetchers m -> m <> js "LOGIN_OR_BLOCKED".
Proof.
  intros [[status ->]|Hm] Heq.
  - vm_compute in Heq. discriminate.
  - subst m. revert Hm. rewrite !elem_of_cons, elem_of_nil.
    intros Hm. repeat (destruct Hm as [Hm|Hm]; [vm_compute in Hm; discriminate|]).
    done.
Qed.

Lemma fetcherError_not_login url e :
  (forall m, libraryFailure w url m -> m <> js "LOGIN_OR_BLOCKED") ->
  fetcherError w url e -> Err.message e <> js "LOGIN_OR_BLOCKED".
Proof.
  intros Hlib (m & -> & [Hm|Hm]); cbn [newError Err.message].
  - by apply raisedByFetchers_not_login.
  - by apply Hlib.
Qed.

Lemma messageOrNull_Some e m :
  messageOrNull (Some e) = Some m -> Err.message e = m.
Proof. unfold messageOrNull. destruct (nonEmpty _); by intros [=]. Qed.

Lemma includesOpt_contains m p :
  includesOpt m p = true <-> messageContains m p.
Proof.
  unfold includesOpt, messageContains. destruct m as [s|].
  - rewrite includes_spec. split.
    + intros (a & b & ->). by exists (a ++ p ++ b), a, b.
    + intros (s' & a & b & [= <-] & ->). by exists a, b.
  - split; [done|]. by intros (s & a & b & ? & _).
Qed.

Lemma isTimeout_mentions details :
  includesOpt (Details.httpError details) (js "TIMEOUT")
  || includesOpt (Details.browserError details) (js "TIMEOUT") = true
  <-> mentionsTimeout (Details.httpError details)
        (Details.browserError details).
Proof.
  unfold mentionsTimeout. by rewrite orb_true_iff, !includesOpt_contains.
Qed.

Lemma errorTypeOf_timeout details :
  mentionsTimeout (Details.httpError details) (Details.browserError details) ->
  errorTypeOf details = js "TIMEOUT".
Proof.
  intros Ht%isTimeout_mentions. unfold errorTypeOf. by rewrite Ht.
Qed.

Lemma errorTypeOf_login_required details :
  ~ mentionsTimeout (Details.httpError details)
      (Details.browserError details) ->
  Details.browserError details = Some (js "LOGIN_OR_BLOCKED") ->
  errorTypeOf details = js "LOGIN_REQUIRED".
Proof.
  intros Ht Hb. unfold errorTypeOf.
  destruct (_ || _) eqn:Hc; [by apply isTimeout_mentions in Hc|].
  by rewrite (bool_decide_eq_true_2 _ Hb).
Qed.

Lemma errorTypeOf_spec details :
  Details.browserError details <> Some (js "LOGIN_OR_BLOCKED") ->
  specErrorType (Details.httpError details) (Details.browserError details)
    (errorTypeOf details).
Proof.
  intros Hb. split_and!.
  - apply errorTypeOf_timeout.
  - intros Ht Hblocked. unfold errorTypeOf.
    destruct (_ || _) eqn:Hc; [by apply isTimeout_mentions in Hc|].
    rewrite (bool_decide_eq_false_2 _ Hb).
    by rewrite (bool_decide_eq_true_2 _ Hblocked).
  - intros Ht Hblocked. unfold errorTypeOf.
    destruct (_ || _) eqn:Hc; [by apply isTimeout_mentions in Hc|].
    rewrite (bool_decide_eq_false_2 _ Hb).
    by rewrite (bool_decide_eq_false_2 _ Hblocked).
Qed.

Lemma errorTypeOf_login details :
  errorTypeOf details = js "LOGIN_REQUIRED" ->
  Details.browserError details = Some (js "LOGIN_OR_BLOCKED").
Proof.
  unfold errorTypeOf. destruct (_ || _); [by vm_compute|].
  case_bool_decide as Hl; [done|].
  case_bool_decide; by vm_compute.
Qed.

Lemma summaryPhase_throws prompt text :
  throwsOnly (fun _ => False) (summaryPhase w prompt text).
Proof.
  unfold summaryPhase. destruct prompt as [[|c r]|]; try apply throwsOnly_ret.
  apply throwsOnly_bind; [apply throwsOnly_emit|]. intros _.
  destruct (axios_post w _) as [data|status m]; [apply throwsOnly_ret|].
  case_bool_decide; apply throwsOnly_ret.
Qed.

(** C5.  When the HTTP fetch failed with [eh] and the browser fetch then
    failed with [eb], the orchestrator throws an error of status 422 whose
    payload carries the two messages in [details], and whose errorType is
    computed from those two messages alone.  With HTTP_ERROR_403 and
    BLOCKED_OR_EMPTY it is BLOCKED.  It is TIMEOUT whenever either message
    has TIMEOUT as a substring; otherwise it is LOGIN_REQUIRED when the
    browser message is LOGIN_OR_BLOCKED.  As long as no library call fails
    with the message LOGIN_OR_BLOCKED, the rule is the one of the
    specification: TIMEOUT when either message contains TIMEOUT, else
    BLOCKED when the browser message is BLOCKED_OR_EMPTY, else
    SCRAPE_ERROR. *)
Theorem C5_failure_classification (rawUrl normalizedUrl : jsstring)
    (prompt : option jsstring) (log log1 log2 : list Event) (eh eb : Err.t) :
  rawUrl <> [] ->
  validateScrapeUrl rawUrl = inr normalizedUrl ->
  httpFetch w normalizedUrl log = (log1, inl eh) ->
  browserFetch w normalizedUrl log1 = (log2, inl eb) ->
  exists err payload details,
    scrapeAndSummarize w (Some {| url := Some rawUrl; prompt := prompt |}) log
    = (log2, inl err)
    /\ Err.statusCode err = Some 422
    /\ Err.publicPayload err = Some payload
    /\ Payload.details payload = Some details
    /\ Details.httpError details = messageOrNull (Some eh)
    /\ Details.browserError details = messageOrNull (Some eb)
    /\ Payload.errorType payload = Some (errorTypeOf details)
    /\ (Err.message eh = js "HTTP_ERROR_403" ->
        Err.message eb = js "BLOCKED_OR_EMPTY" ->
        Payload.errorType payload = Some (js "BLOCKED")
        /\ Details.httpError details = Some (js "HTTP_ERROR_403"))
    /\ (mentionsTimeout (Details.httpError details)
          (Details.browserError details) ->
        Payload.errorType payload = Some (js "TIMEOUT"))
    /\ (~ mentionsTimeout (Details.httpError details)
            (Details.browserError details) ->
        Details.browserError details = Some (js "LOGIN_OR_BLOCKED") ->
        Payload.errorType payload = Some (js "LOGIN_REQUIRED"))
    /\ ((forall m, libraryFailure w normalizedUrl m ->
                   m <> js "LOGIN_OR_BLOCKED") ->
        exists errorType,
          Payload.errorType payload = Some errorType
          /\ specErrorType (Details.httpError details)
               (Details.browserError details) errorType).
Proof.
  intros Hurl Hvalid Hhttp Hbrowser.
  destruct rawUrl as [|c r]; [done|].
  unfold scrapeAndSummarize. cbn [from_option url]. rewrite Hvalid.
  unfold bind. rewrite scrapePhase_run, Hhttp, Hbrowser.
  eexists _, _, _. split_and!; try done.
  - intros Hh Hb. cbn [Payload.errorType].
    unfold errorTypeOf, messageOrNull. cbn [Details.httpError Details.browserError].
    rewrite Hh, Hb. by vm_compute.
  - intros Ht. cbn [Payload.errorType]. f_equal.
    by apply errorTypeOf_timeout.
  - intros Ht Hb. cbn [Payload.errorType]. f_equal.
    by apply errorTypeOf_login_required.
  - intros Hlib. cbn [Payload.errorType]. eexists. split; [done|].
    apply errorTypeOf_spec. cbn [Details.browserError].
    intros Hm. apply messageOrNull_Some in Hm.
    eapply fetcherError_not_login; [exact Hlib | | exact Hm].
    by eapply browserFetch_throws.
Qed.

(** C9.  As long as no call into axios, chromium or puppeteer rejects with
    the message LOGIN_OR_BLOCKED (nor the extraction of a response body that
    is not a string fails with it), neither fetcher fails with that message
    (the browser fetcher's own blocked code is BLOCKED_OR_EMPTY), and the
    error the orchestrator throws never has errorType LOGIN_REQUIRED. *)
Theorem C9_login_required_unreachable :
  (forall url m, libraryFailure w url m -> m <> js "LOGIN_OR_BLOCKED") ->
  (forall url log log' e,
     httpFetch w url log = (log', inl e) ->
     Err.message e <> js "LOGIN_OR_BLOCKED")
  /\ (forall url log log' e,
        browserFetch w url log = (log', inl e) ->
        Err.message e <> js "LOGIN_OR_BLOCKED")
  /\ (forall input log log' err,
        scrapeAndSummarize w input log = (log', inl err) ->
        Err.message err <> js "LOGIN_OR_BLOCKED"
        /\ Err.message err <> js "LOGIN_REQUIRED"
        /\ forall payload,
             Err.publicPayload err = Some payload ->
             Payload.errorType payload <> Some (js "LOGIN_REQUIRED")).
Proof.
  intros Hlib.
  assert (forall url log log' e,
            browserFetch w url log = (log', inl e) ->
            Err.message e <> js "LOGIN_OR_BLOCKED") as Hbrowser.
  { intros url log log' e He. eapply fetcherError_not_login; [apply Hlib|].
    by eapply browserFetch_throws. }
  split_and!; [|exact Hbrowser|].
  { intros url log log' e He. eapply fetcherError_not_login; [apply Hlib|].
    by eapply httpFetch_throws. }
  intros input log log' err. unfold scrapeAndSummarize.
  destruct (from_option url None input) as [[|c r]|].
  1, 3: unfold throw; intros [= <- <-]; split_and!;
    [by vm_compute | by vm_compute | by intros payload [= <-]].
  destruct (validateScrapeUrl (c :: r)) as [e|normalizedUrl] eqn:Hvalid.
  { apply validateScrapeUrl_error in Hvalid as [-> | ->];
      unfold throw; intros [= <- <-]; split_and!;
      try (by vm_compute); by intros payload [= <-]. }
  unfold bind. rewrite scrapePhase_run.
  destruct (httpFetch w normalizedUrl log) as [log1 [eh|scraped]] eqn:Hh.
  - destruct (browserFetch w normalizedUrl log1) as [log2 [eb|scraped]] eqn:Hb.
    + intros [= <- <-].
      assert (errorTypeOf
                {| Details.httpError := messageOrNull (Some eh);
                   Details.browserError := messageOrNull (Some eb) |}
              <> js "LOGIN_REQUIRED") as Htype.
      { intros Hlogin%errorTypeOf_login%messageOrNull_Some.
        by eapply Hbrowser. }
      cbn [scrapeFailure Err.message]. split_and!.
      * unfold errorTypeOf. repeat case_match; by vm_compute.
      * exact Htype.
      * intros payload [= <-]. cbn [Payload.errorType]. intros [= Heq].
        apply Htype. exact Heq.
    + destruct (summaryPhase w _ _ log2) as [l [e|s]] eqn:Hs; [|by intros [=]].
      by apply summaryPhase_throws in Hs.
  - destruct (summaryPhase w _ _ log1) as [l [e|s]] eqn:Hs; [|by intros [=]].
    by apply summaryPhase_throws in Hs.
Qed.

End Failures.

(** ** Successful requests *)

Section Success.
Context {R : Runtime} {C : Cheerio}.
Variable w : World.

Lemma scrapeWithHttp_returns url :
  returnsOnly (fun s => exists html, fetchedBy w url HTTP html s)
    (scrapeWithHttp w url).
Proof.
  unfold scrapeWithHttp. apply returnsOnly_bind. intros _.
  destruct (axios_get w url) as [status data|status typeError|m] eqn:Hget;
    [|destruct (400 <=? status); apply returnsOnly_throw
     |apply returnsOnly_throw].
  destruct (400 <=? status); [apply returnsOnly_throw|].
  destruct (looksBlockedOrJsRequired _ _); [apply returnsOnly_throw|].
  apply returnsOnly_ret. exists data. split; [done | by exists status].
Qed.

Lemma tryExtractLoopFrom_returns url remaining attempt :
  returnsOnly
    (fun r =>
       match r with
       | None => True
       | Some (html, extracted) =>
           extracted = extractFromHtml html url
           /\ exists i, attempt <= i < attempt + remaining
                        /\ page_content w i = inr html
       end)
    (tryExtractLoopFrom w url attempt remaining).
Proof.
  revert attempt. induction remaining as [|k IH]; intros attempt; simpl.
  - by apply returnsOnly_ret.
  - apply returnsOnly_bind. intros _.
    destruct (page_content w attempt) as [m|html] eqn:Hc;
      [apply returnsOnly_throw|].
    destruct (_ && _).
    + apply returnsOnly_ret. split; [done|]. exists attempt. split; [lia|done].
    + apply returnsOnly_bind. intros _ log log' r Hr.
      apply IH in Hr. destruct r as [[h x]|]; [|done].
      destruct Hr as (Hx & i & Hi & Hpc). split; [done|].
      exists i. split; [lia | done].
Qed.

Lemma scrapeWithBrowser_returns url :
  returnsOnly (fun s => exists html, fetchedBy w url BROWSER html s)
    (scrapeWithBrowser w url).
Proof.
  unfold scrapeWithBrowser. apply returnsOnly_bind. intros path.
  destruct (negb (truthy path)); [apply returnsOnly_throw|].
  apply returnsOnly_bind. intros _. apply returnsOnly_tryFinally.
  apply returnsOnly_bind. intros _. apply returnsOnly_bind. intros _.
  eapply returnsOnly_bind_strong; [apply tryExtractLoopFrom_returns|].
  intros [[html extracted]|] Hr; [|apply returnsOnly_throw].
  apply returnsOnly_ret. destruct Hr as (-> & i & Hi & Hpc).
  exists html. split; [done|]. exists i. split; [lia | done].
Qed.

Lemma scrapePhase_returns url log log' scraped method :
  scrapePhase w url log = (log', inr (scraped, method)) ->
  exists html, fetchedBy w url method html scraped.
Proof.
  rewrite scrapePhase_run.
  destruct (httpFetch w url log) as [log1 [eh|s]] eqn:Hh.
  - destruct (browserFetch w url log1) as [log2 [eb|s]] eqn:Hb; [done|].
    intros [= <- <- <-].
    exact (returnsOnly_withTimeout w _ _ _ _ (scrapeWithBrowser_returns url)
             _ _ _ Hb).
  - intros [= <- <- <-].
    exact (returnsOnly_withTimeout w _ _ _ _ (scrapeWithHttp_returns url)
             _ _ _ Hh).
Qed.

Lemma eachFrom_tables (doc : Document) (l : list Element) :
  forall i ts,
    exists els new,
      els `sublist_of` l
      /\ eachFrom i l (tableStep doc) ts = ts ++ new
      /\ Forall2 (tableReadFrom doc) new els.
Proof.
  induction l as [|table l IH]; intros i ts; cbn [eachFrom].
  - exists [], []. by rewrite app_nil_r.
  - destruct (IH (S i) (tableStep doc ts i table))
      as (els & new & Hsub & Hrun & Hread).
    rewrite Hrun. unfold tableStep.
    destruct (MAX_TABLES <=? length ts);
      [exists els, new; split_and!; [by apply sublist_cons | done | done]|].
    destruct (_ && _);
      [exists els, new; split_and!; [by apply sublist_cons | done | done]|].
    eexists (table :: els), (_ :: new). split_and!.
    + by apply sublist_skip.
    + by rewrite <- app_assoc.
    + by constructor.
Qed.

Lemma extractTables_html (doc : Document) :
  exists els,
    els `sublist_of` select doc "table"
    /\ Forall2 (tableReadFrom doc) (extractTables doc) els.
Proof.
  unfold extractTables, each.
  destruct (eachFrom_tables doc (select doc "table") 0 [])
    as (els & new & Hsub & -> & Hread).
  by exists els.
Qed.

Lemma eachFrom_lists (doc : Document) (l : list Element) :
  forall i ls,
    exists els new,
      els `sublist_of` l
      /\ eachFrom i l (listStep doc) ls = ls ++ new
      /\ Forall2 (listReadFrom doc) new els.
Proof.
  induction l as [|lst l IH]; intros i ls; cbn [eachFrom].
  - exists [], []. by rewrite app_nil_r.
  - destruct (IH (S i) (listStep doc ls i lst))
      as (els & new & Hsub & Hrun & Hread).
    rewrite Hrun. unfold listStep.
    destruct (MAX_LISTS <=? length ls);
      [exists els, new; split_and!; [by apply sublist_cons | done | done]|].
    destruct (length (listItems lst) =? 0);
      [exists els, new; split_and!; [by apply sublist_cons | done | done]|].
    eexists (lst :: els), (_ :: new). split_and!.
    + by apply sublist_skip.
    + by rewrite <- app_assoc.
    + by constructor.
Qed.

Lemma extractLists_html (doc : Document) :
  exists els,
    els `sublist_of` select doc "ul, ol"
    /\ Forall2 (listReadFrom doc) (extractLists doc) els.
Proof.
  unfold extractLists, each.
  destruct (eachFrom_lists doc (select doc "ul, ol") 0 [])
    as (els & new & Hsub & -> & Hread).
  by exists els.
Qed.

(** C10.  A result of [scrapeAndSummarize] carries in [rawHtml] the whole
    HTML document that was fetched, by axios when the method is HTTP and by
    one of the six browser attempts otherwise.  Its table records are read,
    in order, from table elements of that document, each from an element of
    its own: the record carries in [html] the whole serialisation of the
    very element that its caption, headers and rows come from; likewise its
    list records with their type and items.  Every field of the extraction
    of that document other than [_bodyTextLength] is in the result as it
    was extracted. *)
Theorem C10_html_carried_in_full (input : option Input)
    (log log' : list Event) (r : ScrapeResult.t) :
  scrapeAndSummarize w input log = (log', inr r) ->
  exists html,
    let url := ScrapeResult.url r in
    let d := extractFromHtml html url in
    match ScrapeResult.methodUsed r with
    | HTTP => exists status, axios_get w url = GetResponse status html
    | BROWSER =>
        exists attempt, attempt < 6 /\ page_content w attempt = inr html
    end
    /\ ScrapeResult.rawHtml r = html
    /\ (exists els,
          els `sublist_of` select (load html) "table"
          /\ Forall2
               (fun t el =>
                  Table.html t = outerHTML (load html) el
                  /\ Table.caption t
                     = normalizeText
                         (Some (selText (first (find el "caption"))))
                  /\ Table.headers t = tableHeaders el
                  /\ Table.rows t = tableRows el (tableHeaders el))
               (ScrapeResult.tables r) els)
    /\ (exists els,
          els `sublist_of` select (load html) "ul, ol"
          /\ Forall2
               (fun l el =>
                  List_.html l = outerHTML (load html) el
                  /\ List_.type l = listType el
                  /\ List_.items l = listItems el)
               (ScrapeResult.lists r) els)
    /\ ScrapeResult.title r = title d
    /\ ScrapeResult.description r = description d
    /\ ScrapeResult.paragraphs r = paragraphs d
    /\ ScrapeResult.images r = images d
    /\ ScrapeResult.links r = links d
    /\ ScrapeResult.tables r = tables d
    /\ ScrapeResult.lists r = lists d
    /\ ScrapeResult.uniqueComponents r = uniqueComponents d
    /\ ScrapeResult.rawHtml r = rawHtml d
    /\ ScrapeResult.techStack r = techStack d.
Proof.
  unfold scrapeAndSummarize.
  destruct (from_option url None input) as [[|c u]|]; try done.
  destruct (validateScrapeUrl (c :: u)) as [e|normalizedUrl]; [done|].
  unfold bind.
  destruct (scrapePhase w normalizedUrl log) as [log1 [e|[scraped method]]]
    eqn:Hphase; [done|].
  destruct (summaryPhase w _ _ log1) as [log2 [e|summary]]; [done|].
  intros [= <- <-].
  apply scrapePhase_returns in Hphase as (html & -> & Hfetch).
  exists html. cbn zeta.
  cbn [ScrapeResult.url ScrapeResult.methodUsed ScrapeResult.rawHtml
       ScrapeResult.tables ScrapeResult.lists ScrapeResult.title
       ScrapeResult.description ScrapeResult.paragraphs ScrapeResult.images
       ScrapeResult.links ScrapeResult.uniqueComponents ScrapeResult.techStack
       rest Scraped.title Scraped.description Scraped.paragraphs
       Scraped.images Scraped.links Scraped.tables Scraped.lists
       Scraped.uniqueComponents Scraped.rawHtml Scraped.techStack].
  split_and!; try done.
  - destruct (extractTables_html (load html)) as (els & Hsub & Hread).
    exists els. split; [exact Hsub|].
    eapply Forall2_impl; [exact Hread|].
    intros t el (Hc & Hh & Hr & Hhtml). by split_and!.
  - destruct (extractLists_html (load html)) as (els & Hsub & Hread).
    exists els. split; [exact Hsub|].
    eapply Forall2_impl; [exact Hread|].
    intros l el (Ht & Hi & Hhtml). by split_and!.
Qed.

(** C8.  Once the scrape phase has returned and a non-empty prompt was
    given, a rejection of the summariser does not fail the request: the
    result is returned with [methodUsed] and every extraction field of the
    scrape, and [summary] is the rate-limit message when the response had
    status 429 and the unavailability message otherwise. *)
Theorem C8_summary_failure_not_fatal (rawUrl normalizedUrl prompt : jsstring)
    (log log1 : list Event) (scraped : Scraped.t) (method : Method)
    (status : option nat) (message : jsstring) :
  rawUrl <> [] ->
  validateScrapeUrl rawUrl = inr normalizedUrl ->
  scrapePhase w normalizedUrl log = (log1, inr (scraped, method)) ->
  prompt <> [] ->
  axios_post w
    (prompt ++ js ":" ++ newline ++ newline ++ fullText normalizedUrl scraped)
  = PostError status message ->
  exists r log2,
    scrapeAndSummarize w (Some {| url := Some rawUrl; prompt := Some prompt |})
      log = (log2, inr r)
    /\ ScrapeResult.summary r
       = (if bool_decide (status = Some 429) then rateLimitSummary
          else unavailableSummary)
    /\ ScrapeResult.methodUsed r = method
    /\ ScrapeResult.url r = normalizedUrl
    /\ ScrapeResult.title r = Scraped.title scraped
    /\ ScrapeResult.description r = Scraped.description scraped
    /\ ScrapeResult.paragraphs r = Scraped.paragraphs scraped
    /\ ScrapeResult.images r = Scraped.images scraped
    /\ ScrapeResult.links r = Scraped.links scraped
    /\ ScrapeResult.tables r = Scraped.tables scraped
    /\ ScrapeResult.lists r = Scraped.lists scraped
    /\ ScrapeResult.uniqueComponents r = Scraped.uniqueComponents scraped
    /\ ScrapeResult.rawHtml r = Scraped.rawHtml scraped
    /\ ScrapeResult.techStack r = Scraped.techStack scraped.
Proof.
  intros Hurl Hvalid Hphase Hprompt Hpost.
  destruct rawUrl as [|c u]; [done|]. destruct prompt as [|p q]; [done|].
  unfold scrapeAndSummarize. cbn [from_option url prompt].
  rewrite Hvalid. unfold bind. rewrite Hphase.
  unfold summaryPhase, bind, emit. rewrite Hpost.
  case_bool_decide; eexists _, _; unfold ret; split_and!; done.
Qed.

End Success.

(** ** The program on concrete pages and worlds *)

Section Runs.
Import Examples.
Local Existing Instances Mini.cheerio Mini.runtime.

Example normalizeText_collapses :
  normalizeText (Some (js "  two   words ")) = js "two words".
Proof. vm_compute. reflexivity. Qed.

Example trim_keeps_inner_runs : trim (js "  two   words ") = js "two   words".
Proof. vm_compute. reflexivity. Qed.

Example parse_nested :
  Mini.parse (js "<ul><li>a</li><li>b</li></ul>")
  = [Mini.Elem (js "ul") []
       [Mini.Elem (js "li") [] [Mini.Text (js "a")];
        Mini.Elem (js "li") [] [Mini.Text (js "b")]]].
Proof. vm_compute. reflexivity. Qed.

Example examplePage_extraction :
  let d := extractFromHtml examplePage exampleUrl in
  title d = js "Example Domain"
  /\ length (paragraphs d) = 2
  /\ List.map List_.items (lists d) = [[js "first"; js "second"]]
  /\ List.map Table.headers (tables d) = [[js "Name"; js "Value"]]
  /\ List.map Table.rows (tables d) = [[[js "one"; js "1"]]]
  /\ List.map Component.name (uniqueComponents d) = [js "h1"]
  /\ looksBlockedOrJsRequired (Some examplePage) (Some d) = false.
Proof. vm_compute. repeat split. Qed.

Example crowdedPage_is_capped :
  let d := extractFromHtml crowdedPage exampleUrl in
  length (tables d) = 10
  /\ length (lists d) = 30
  /\ List.map List_.itemCount (take 3 (lists d)) = [60; 1; 1]
  /\ List.map List_.type (take 3 (lists d)) = [js "ul"; js "ol"; js "ol"].
Proof. vm_compute. repeat split. Qed.

Example offline_is_scrape_error :
  errorTypeOfRun (scrapeAndSummarize offlineWorld (request "https://example.com/" None) [])
  = Some (js "SCRAPE_ERROR").
Proof. vm_compute. reflexivity. Qed.

Example slow_is_timeout :
  errorTypeOfRun (scrapeAndSummarize slowWorld (request "https://example.com/" None) [])
  = Some (js "TIMEOUT").
Proof. vm_compute. reflexivity. Qed.

Example missing_url_is_400 :
  scrapeAndSummarize quietWorld None []
  = ([], inl {| Err.message := js "URL_REQUIRED";
                Err.statusCode := Some 400;
                Err.publicPayload :=
                  Some {| Payload.error := js "URL is required";
                          Payload.errorType := None;
                          Payload.message := None;
                          Payload.url := None;
                          Payload.details := None;
                          Payload.timestamp := None |} |}).
Proof. vm_compute. reflexivity. Qed.

Lemma worlds_without_library_failure (w : World) :
  (forall url, exists status data, axios_get w url = GetResponse status data) ->
  (exists path, chromium_executablePath w = inr path) ->
  puppeteer_launch w = None -> page_setup w = None ->
  (forall url, page_goto w url = None) ->
  (forall attempt, exists html, page_content w attempt = inr html) ->
  browser_close w = None ->
  forall url m, libraryFailure w url m -> m <> js "LOGIN_OR_BLOCKED".
Proof.
  intros Hget [path Hpath] Hlaunch Hsetup Hgoto Hcontent Hclose url m.
  unfold libraryFailure. rewrite Hpath, Hlaunch, Hsetup, Hgoto, Hclose.
  destruct (Hget url) as (status & data & ->).
  intros [H|[H|[H|[H|[H|[(i & _ & H)|[H|[s H]]]]]]]]; try done.
  destruct (Hcontent i) as [html Hhtml]. congruence.
Qed.

Lemma blockedWorld_libraries url m :
  libraryFailure blockedWorld url m -> m <> js "LOGIN_OR_BLOCKED".
Proof.
  apply worlds_without_library_failure; simpl; eauto.
Qed.

(** C1: no constant bounds the size of the extracted document. *)
Lemma C1_counterexample :
  ~ exists B, forall html url, documentSize (extractFromHtml html url) <= B.
Proof.
  intros [B HB].
  specialize (HB (replicate (S B) 97%N) exampleUrl).
  pose proof (documentSize_ge_rawHtml (replicate (S B) 97%N) exampleUrl) as Hsize.
  rewrite length_replicate in Hsize. lia.
Qed.

Example headings_agree_at_300 :
  forall a b,
    uniqueComponents (extractFromHtml twoHeadings baseUrl) !! 0 = Some a ->
    uniqueComponents (extractFromHtml twoHeadings baseUrl) !! 1 = Some b ->
    Component.name a = Component.name b ->
    Component.content a = Component.content b ->
    length (Component.content a) = 300.
Proof.
  intros a b Ha Hb.
  pose proof (proj2 (components_deduplicated_before_truncation twoHeadings
                       baseUrl)) as Hdedup.
  cbv zeta in Hdedup. exact (Hdedup 0 1 a b ltac:(lia) Ha Hb).
Qed.

(** C2.  The claim fails on the code.  For two headings whose texts differ
    only after their 300th code unit, and for a section nested in a section
    that has more text after it, [uniqueComponents] holds the same name and
    the same content twice: the key is taken from the untruncated content,
    and the content is cut to 300 code units only when it is stored. *)
Theorem C2_duplicate_components :
  let h := {| Component.name := js "h1";
              Component.content := replicate 300 97%N |} in
  let s := {| Component.name := js "section";
              Component.content := replicate 300 97%N |} in
  uniqueComponents (extractFromHtml twoHeadings baseUrl) = [h; h]
  /\ uniqueComponents (extractFromHtml nestedSections baseUrl) = [s; s]
  /\ ~ componentsDistinct (extractFromHtml twoHeadings baseUrl)
  /\ ~ componentsDistinct (extractFromHtml nestedSections baseUrl).
Proof.
  cbv zeta.
  assert (uniqueComponents (extractFromHtml twoHeadings baseUrl)
          = [ {| Component.name := js "h1";
                 Component.content := replicate 300 97%N |};
              {| Component.name := js "h1";
                 Component.content := replicate 300 97%N |} ]) as Hh
    by (vm_compute; reflexivity).
  assert (uniqueComponents (extractFromHtml nestedSections baseUrl)
          = [ {| Component.name := js "section";
                 Component.content := replicate 300 97%N |};
              {| Component.name := js "section";
                 Component.content := replicate 300 97%N |} ]) as Hs
    by (vm_compute; reflexivity).
  split_and!.
  - exact Hh.
  - exact Hs.
  - intros Hclaim.
    apply (Hclaim 0 1
             {| Component.name := js "h1";
                Component.content := replicate 300 97%N |}
             {| Component.name := js "h1";
                Component.content := replicate 300 97%N |});
      [lia | rewrite Hh; reflexivity | rewrite Hh; reflexivity
      | split; reflexivity].
  - intros Hclaim.
    apply (Hclaim 0 1
             {| Component.name := js "section";
                Component.content := replicate 300 97%N |}
             {| Component.name := js "section";
                Component.content := replicate 300 97%N |});
      [lia | rewrite Hs; reflexivity | rewrite Hs; reflexivity
      | split; reflexivity].
Qed.

(** C3: a paragraph of two letters separated by forty spaces is kept as it
    is, 42 code units long; normalised it would be "a b". *)
Lemma C3_counterexample :
  ~ paragraphsNormalized (extractFromHtml spacedParagraph baseUrl).
Proof.
  intros Hclaim. unfold paragraphsNormalized in Hclaim.
  assert (paragraphs (extractFromHtml spacedParagraph baseUrl)
          = [js "a" ++ replicate 40 32%N ++ js "b"]) as Heq by (vm_compute; reflexivity).
  rewrite Heq in Hclaim. apply Forall_inv in Hclaim as [Hnorm _].
  vm_compute in Hnorm. discriminate.
Qed.

Example spaced_paragraph_normalized_length :
  List.map (fun p => (length p, length (normalizeText (Some p))))
    (paragraphs (extractFromHtml spacedParagraph baseUrl))
  = [(42, 3)].
Proof. vm_compute. reflexivity. Qed.

Lemma slowHttpWorld_libraries url m :
  libraryFailure Scenes.slowHttpWorld url m -> m <> js "LOGIN_OR_BLOCKED".
Proof.
  apply worlds_without_library_failure; simpl; eauto.
Qed.

(** C5 in [blockedWorld], 403 over HTTP and a bot wall in the browser, and
    in [slowHttpWorld], where the HTTP deadline passes before the same bot
    wall is met: the first failure is BLOCKED, the second TIMEOUT. *)
Lemma C5_witness :
  (exampleUrl <> []
   /\ validateScrapeUrl exampleUrl = inr exampleUrl
   /\ httpFetch blockedWorld exampleUrl []
      = ([EvHttpGet exampleUrl], inl (newError (js "HTTP_ERROR_403")))
   /\ browserFetch blockedWorld exampleUrl [EvHttpGet exampleUrl]
      = (blockedLog, inl (newError (js "BLOCKED_OR_EMPTY")))
   /\ exists err payload details,
        scrapeAndSummarize blockedWorld (request "https://example.com/" None) []
        = (blockedLog, inl err)
        /\ Err.statusCode err = Some 422
        /\ Err.publicPayload err = Some payload
        /\ Payload.details payload = Some details
        /\ Payload.errorType payload = Some (js "BLOCKED")
        /\ Details.httpError details = Some (js "HTTP_ERROR_403")
        /\ specErrorType (Details.httpError details)
             (Details.browserError details) (js "BLOCKED"))
  /\ (httpFetch Scenes.slowHttpWorld exampleUrl []
      = ([EvHttpGet exampleUrl], inl (newError (js "HTTP_TIMEOUT")))
      /\ browserFetch Scenes.slowHttpWorld exampleUrl [EvHttpGet exampleUrl]
         = (blockedLog, inl (newError (js "BLOCKED_OR_EMPTY")))
      /\ exists err payload details,
           scrapeAndSummarize Scenes.slowHttpWorld
             (request "https://example.com/" None) []
           = (blockedLog, inl err)
           /\ Err.publicPayload err = Some payload
           /\ Payload.details payload = Some details
           /\ Details.httpError details = Some (js "HTTP_TIMEOUT")
           /\ Details.browserError details = Some (js "BLOCKED_OR_EMPTY")
           /\ mentionsTimeout (Details.httpError details)
                (Details.browserError details)
           /\ Payload.errorType payload = Some (js "TIMEOUT")).
Proof.
  assert (exampleUrl <> []) as H1 by done.
  assert (validateScrapeUrl exampleUrl = inr exampleUrl) as H2
    by (vm_compute; reflexivity).
  assert (httpFetch blockedWorld exampleUrl []
          = ([EvHttpGet exampleUrl], inl (newError (js "HTTP_ERROR_403"))))
    as H3 by (vm_compute; reflexivity).
  assert (browserFetch blockedWorld exampleUrl [EvHttpGet exampleUrl]
          = (blockedLog, inl (newError (js "BLOCKED_OR_EMPTY"))))
    as H4 by (vm_compute; reflexivity).
  assert (httpFetch Scenes.slowHttpWorld exampleUrl []
          = ([EvHttpGet exampleUrl], inl (newError (js "HTTP_TIMEOUT"))))
    as H5 by (vm_compute; reflexivity).
  assert (browserFetch Scenes.slowHttpWorld exampleUrl [EvHttpGet exampleUrl]
          = (blockedLog, inl (newError (js "BLOCKED_OR_EMPTY"))))
    as H6 by (vm_compute; reflexivity).
  split.
  - split_and!; [exact H1 | exact H2 | exact H3 | exact H4 |].
    destruct (C5_failure_classification blockedWorld exampleUrl exampleUrl None
                [] _ _ _ _ H1 H2 H3 H4)
      as (err & payload & details & Hrun & Hstatus & Hpayload & Hdetails
          & _ & _ & _ & Hscenario & _ & _ & Hgeneral).
    exists err, payload, details.
    destruct (Hscenario eq_refl eq_refl) as [Htype Hhttp].
    destruct (Hgeneral (blockedWorld_libraries exampleUrl))
      as (errorType & Heq & Hspec).
    rewrite Htype in Heq. injection Heq as <-.
    split_and!; [exact Hrun | exact Hstatus | exact Hpayload | exact Hdetails
                | exact Htype | exact Hhttp | exact Hspec].
  - split_and!; [exact H5 | exact H6 |].
    destruct (C5_failure_classification Scenes.slowHttpWorld exampleUrl
                exampleUrl None [] _ _ _ _ H1 H2 H5 H6)
      as (err & payload & details & Hrun & _ & Hpayload & Hdetails
          & Hhttp & Hbrowser & _ & _ & Htimeout & _).
    exists err, payload, details.
    assert (Details.httpError details = Some (js "HTTP_TIMEOUT")) as Hh
      by (rewrite Hhttp; reflexivity).
    assert (Details.browserError details = Some (js "BLOCKED_OR_EMPTY")) as Hb
      by (rewrite Hbrowser; reflexivity).
    assert (mentionsTimeout (Details.httpError details)
              (Details.browserError details)) as Hmentions.
    { left. exists (js "HTTP_TIMEOUT"), (js "HTTP_"), [].
      split; [exact Hh | reflexivity]. }
    split_and!; [exact Hrun | exact Hpayload | exact Hdetails | exact Hh
                | exact Hb | exact Hmentions | exact (Htimeout Hmentions)].
Defined.

(** C6 on an ftp URL. *)
Lemma C6_witness :
  newURL (js "ftp://example.com/") None
  = Some {| protocol := js "ftp:"; href := js "ftp://example.com/" |}
  /\ validateScrapeUrl (js "ftp://example.com/")
     = inl (newError (js "INVALID_URL_PROTOCOL"))
  /\ exists err payload,
       scrapeAndSummarize blockedWorld (request "ftp://example.com/" None) []
       = ([], inl err)
       /\ Err.statusCode err = Some 400
       /\ Err.publicPayload err = Some payload
       /\ Payload.errorType payload = Some (js "INVALID_URL_PROTOCOL").
Proof.
  assert (newURL (js "ftp://example.com/") None
          = Some {| protocol := js "ftp:"; href := js "ftp://example.com/" |})
    as Hparse by (vm_compute; reflexivity).
  destruct (C6_url_validation blockedWorld (js "ftp://example.com/"))
    as (_ & Hscheme & _ & Horch).
  assert (validateScrapeUrl (js "ftp://example.com/")
          = inl (newError (js "INVALID_URL_PROTOCOL"))) as Hfail.
  { apply (Hscheme _ Hparse); by vm_compute. }
  split_and!; [exact Hparse | exact Hfail |].
  destruct (Horch _ None [] Hfail)
    as (err & payload & Hrun & Hstatus & Hpayload & Hrest).
  exists err, payload. split_and!; try done.
  apply Hrest. done.
Defined.

(** C8 in [quietWorld], whose summariser answers 429. *)
Lemma C8_witness :
  exampleUrl <> []
  /\ validateScrapeUrl exampleUrl = inr exampleUrl
  /\ scrapePhase quietWorld exampleUrl []
     = ([EvHttpGet exampleUrl], inr (exampleScraped, HTTP))
  /\ js "Summarize" <> []
  /\ axios_post quietWorld
       (js "Summarize" ++ js ":" ++ newline ++ newline
        ++ fullText exampleUrl exampleScraped)
     = PostError (Some 429) (js "Request failed with status code 429")
  /\ exists r log2,
       scrapeAndSummarize quietWorld
         (request "https://example.com/" (Some (js "Summarize"))) []
       = (log2, inr r)
       /\ ScrapeResult.summary r = rateLimitSummary
       /\ ScrapeResult.methodUsed r = HTTP
       /\ ScrapeResult.title r = js "Example Domain".
Proof.
  assert (exampleUrl <> []) as H1 by done.
  assert (validateScrapeUrl exampleUrl = inr exampleUrl) as H2
    by (vm_compute; reflexivity).
  assert (scrapePhase quietWorld exampleUrl []
          = ([EvHttpGet exampleUrl], inr (exampleScraped, HTTP))) as H3
    by (vm_compute; reflexivity).
  assert (js "Summarize" <> []) as H4 by done.
  assert (axios_post quietWorld
            (js "Summarize" ++ js ":" ++ newline ++ newline
             ++ fullText exampleUrl exampleScraped)
          = PostError (Some 429) (js "Request failed with status code 429"))
    as H5 by reflexivity.
  split_and!; [exact H1 | exact H2 | exact H3 | exact H4 | exact H5 |].
  destruct (C8_summary_failure_not_fatal quietWorld exampleUrl exampleUrl
              (js "Summarize") [] _ exampleScraped HTTP (Some 429) _
              H1 H2 H3 H4 H5)
    as (r & log2 & Hrun & Hsummary & Hmethod & _ & Htitle & _).
  exists r, log2. split_and!; [exact Hrun | exact Hsummary | exact Hmethod |].
  rewrite Htitle. by vm_compute.
Defined.

Lemma offlineWorld_libraries url m :
  libraryFailure offlineWorld url m -> m <> js "LOGIN_OR_BLOCKED".
Proof.
  unfold libraryFailure. simpl.
  intros [H|[H|[H|[H|[H|[(i & _ & H)|[H|[s H]]]]]]]]; try done;
    injection H as <-; by vm_compute.
Qed.

(** C9 in [offlineWorld], where axios and the navigation reject with
    messages of their own. *)
Lemma C9_witness :
  (forall url m, libraryFailure offlineWorld url m -> m <> js "LOGIN_OR_BLOCKED")
  /\ libraryFailure offlineWorld exampleUrl
       (js "net::ERR_NAME_NOT_RESOLVED at https://example.com/")
  /\ scrapeAndSummarize offlineWorld (request "https://example.com/" None) []
     = (offlineLog, inl offlineError)
  /\ Err.message offlineError = js "SCRAPE_ERROR"
  /\ Err.message offlineError <> js "LOGIN_REQUIRED"
  /\ forall payload,
       Err.publicPayload offlineError = Some payload ->
       Payload.errorType payload <> Some (js "LOGIN_REQUIRED").
Proof.
  assert (scrapeAndSummarize offlineWorld (request "https://example.com/" None)
            [] = (offlineLog, inl offlineError)) as Hrun by (vm_compute; reflexivity).
  destruct (C9_login_required_unreachable offlineWorld offlineWorld_libraries)
    as (_ & _ & Horch).
  destruct (Horch _ _ _ _ Hrun) as (_ & Hmessage & Hpayload).
  split_and!; [exact offlineWorld_libraries | | exact Hrun | by vm_compute
              | exact Hmessage | exact Hpayload].
  unfold libraryFailure. simpl. tauto.
Defined.

(** C10 in [quietWorld]: the result carries the 439 code units of the page
    that axios returned. *)
Lemma C10_witness :
  scrapeAndSummarize quietWorld
    (request "https://example.com/" (Some (js "Summarize"))) []
  = (quietLog, inr quietResult)
  /\ exists html,
       axios_get quietWorld exampleUrl = GetResponse 200 html
       /\ ScrapeResult.rawHtml quietResult = html
       /\ length html = 439
       /\ exists els,
            els `sublist_of` select (load html) "table"
            /\ Forall2
                 (fun t el =>
                    Table.html t = outerHTML (load html) el
                    /\ Table.caption t
                       = normalizeText
                           (Some (selText (first (find el "caption"))))
                    /\ Table.headers t = tableHeaders el
                    /\ Table.rows t = tableRows el (tableHeaders el))
                 (ScrapeResult.tables quietResult) els.
Proof.
  assert (scrapeAndSummarize quietWorld
            (request "https://example.com/" (Some (js "Summarize"))) []
          = (quietLog, inr quietResult)) as Hrun by (vm_compute; reflexivity).
  split; [exact Hrun|].
  destruct (C10_html_carried_in_full quietWorld _ _ _ _ Hrun)
    as (html & _ & Hraw & Htables & _).
  exists html. rewrite <- Hraw. split_and!; [done | done | by vm_compute |].
  rewrite Hraw. exact Htables.
Defined.

End Runs.

(** ** White-space normalisation *)

Section Normalisation.

Lemma singleSpaced_weaken s : singleSpaced true s = true -> singleSpaced false s = true.
Proof.
  destruct s as [|c r]; [done|]. simpl.
  destruct (isWhiteSpace c); [|done]. by rewrite andb_false_r.
Qed.

Lemma replaceRuns_singleSpaced inRun s :
  singleSpaced inRun (replaceRuns inRun s) = true.
Proof.
  revert inRun. induction s as [|c r IH]; intros inRun; simpl; [done|].
  destruct (isWhiteSpace c) eqn:Hc.
  - destruct inRun; [apply IH|]. simpl.
    replace (isWhiteSpace 32) with true by (by vm_compute).
    simpl. apply IH.
  - simpl. rewrite Hc. apply IH.
Qed.

Lemma singleSpaced_fixed inRun s :
  singleSpaced inRun s = true -> replaceRuns inRun s = s.
Proof.
  revert inRun. induction s as [|c r IH]; intros inRun; simpl; [done|].
  destruct (isWhiteSpace c) eqn:Hc.
  - rewrite !andb_true_iff, N.eqb_eq, negb_true_iff.
    intros [[-> ->] Hr]. f_equal. by apply IH.
  - intros Hr. f_equal. by apply IH.
Qed.

Lemma singleSpaced_trimStart inRun s :
  singleSpaced inRun s = true -> singleSpaced false (trimStart s) = true.
Proof.
  revert inRun. induction s as [|c r IH]; intros inRun; simpl; [done|].
  destruct (isWhiteSpace c) eqn:Hc.
  - rewrite !andb_true_iff. intros [_ Hr]. by apply (IH true).
  - intros Hr. simpl. by rewrite Hc.
Qed.

Lemma singleSpaced_prefix inRun s t :
  singleSpaced inRun (s ++ t) = true -> singleSpaced inRun s = true.
Proof.
  revert inRun. induction s as [|c r IH]; intros inRun; simpl; [done|].
  destruct (isWhiteSpace c).
  - rewrite !andb_true_iff. intros [Hc Hr]. split; [done|]. by apply IH.
  - apply IH.
Qed.

Lemma trimEnd_prefix s : exists suf, s = trimEnd s ++ suf.
Proof.
  destruct (trimStart_suffix (reverse s)) as [pre Hpre].
  exists (reverse pre). unfold trimEnd.
  rewrite <- reverse_app, <- Hpre. by rewrite reverse_involutive.
Qed.

Lemma trimEnd_endsClean s : startsClean (reverse (trimEnd s)).
Proof.
  unfold trimEnd. rewrite reverse_involutive. apply trimStart_startsClean.
Qed.

Lemma trimEnd_fixed s : startsClean (reverse s) -> trimEnd s = s.
Proof.
  intros Hs. unfold trimEnd. rewrite trimStart_fixed by done.
  apply reverse_involutive.
Qed.

Lemma singleSpaced_trim inRun s :
  singleSpaced inRun s = true -> singleSpaced false (trim s) = true.
Proof.
  intros Hs. unfold trim.
  destruct (trimEnd_prefix (trimStart s)) as [suf Hsuf].
  apply (singleSpaced_prefix false _ suf). rewrite <- Hsuf.
  by apply (singleSpaced_trimStart inRun).
Qed.

Lemma trim_clean s : startsClean (trim s) /\ startsClean (reverse (trim s)).
Proof.
  split.
  - apply trimEnd_startsClean, trimStart_startsClean.
  - apply trimEnd_endsClean.
Qed.

Lemma normalizeText_singleSpaced v : singleSpaced false (normalizeText v) = true.
Proof.
  destruct v as [[|c r]|]; try done. unfold normalizeText.
  apply (singleSpaced_trim false), replaceRuns_singleSpaced.
Qed.

Lemma normalizeText_clean v :
  startsClean (normalizeText v) /\ startsClean (reverse (normalizeText v)).
Proof.
  destruct v as [[|c r]|]; try done. apply trim_clean.
Qed.

Lemma normalizeText_fixed s :
  singleSpaced false s = true -> startsClean s -> startsClean (reverse s) ->
  normalizeText (Some s) = s.
Proof.
  intros Hs Hstart Hend. destruct s as [|c r]; [done|].
  unfold normalizeText, collapseWhiteSpace, trim.
  rewrite singleSpaced_fixed by done.
  rewrite trimStart_fixed by done. by apply trimEnd_fixed.
Qed.

Lemma normalizeText_normalized v : whitespaceNormalized (normalizeText v).
Proof.
  apply normalizeText_fixed;
    [apply normalizeText_singleSpaced | apply normalizeText_clean ..].
Qed.

Lemma singleSpaced_units inRun s c :
  singleSpaced inRun s = true -> c ∈ s -> isWhiteSpace c = true -> c = 32%N.
Proof.
  revert inRun. induction s as [|x r IH]; intros inRun Hs Hin Hc.
  - by apply elem_of_nil in Hin.
  - simpl in Hs. apply elem_of_cons in Hin as [->|Hin].
    + rewrite Hc in Hs. rewrite !andb_true_iff, N.eqb_eq in Hs. tauto.
    + destruct (isWhiteSpace x); [|by eapply IH].
      rewrite !andb_true_iff in Hs. destruct Hs as [_ Hr]. by eapply IH.
Qed.

Lemma singleSpaced_adjacent inRun s i a b :
  singleSpaced inRun s = true ->
  s !! i = Some a -> s !! S i = Some b ->
  isWhiteSpace a = true -> isWhiteSpace b = false.
Proof.
  revert inRun i. induction s as [|x r IH]; intros inRun i Hs Ha Hb Hws; [done|].
  simpl in Hs. destruct i as [|i].
  - simpl in Ha, Hb. injection Ha as ->. rewrite Hws in Hs.
    rewrite !andb_true_iff in Hs. destruct Hs as [_ Hr].
    destruct r as [|y r]; [done|]. simpl in Hb. injection Hb as ->.
    simpl in Hr. destruct (isWhiteSpace b); [|done].
    by rewrite andb_false_r in Hr.
  - simpl in Ha, Hb. destruct (isWhiteSpace x).
    + rewrite !andb_true_iff in Hs. destruct Hs as [_ Hr]. by eapply IH.
    + by eapply IH.
Qed.

(** X1.  The text [normalizeText] returns is in normal form: its only
    white-space code units are single spaces, each between two code units
    that are not white space; it neither starts nor ends with white space. *)
Theorem X1_normalizeText_normal_form (value : option jsstring) :
  let t := normalizeText value in
  (forall c, c ∈ t -> isWhiteSpace c = true -> c = 32%N)
  /\ (forall i a b, t !! i = Some a -> t !! S i = Some b ->
                    isWhiteSpace a = true -> isWhiteSpace b = false)
  /\ (forall c, head t = Some c -> isWhiteSpace c = false)
  /\ (forall c, last t = Some c -> isWhiteSpace c = false).
Proof.
  cbv zeta. pose proof (normalizeText_singleSpaced value) as Hs.
  destruct (normalizeText_clean value) as [Hstart Hend].
  split_and!.
  - intros c. by apply (singleSpaced_units false).
  - intros i a b. by apply (singleSpaced_adjacent false).
  - intros c Hc. destruct (normalizeText value); [done|].
    injection Hc as <-. exact Hstart.
  - intros c Hc. rewrite <- head_reverse in Hc.
    destruct (reverse (normalizeText value)); [done|].
    injection Hc as <-. exact Hend.
Qed.

(** X2.  [normalizeText] is idempotent: normalising a text it returned gives
    the same text back. *)
Theorem X2_normalizeText_idempotent (value : option jsstring) :
  normalizeText (Some (normalizeText value)) = normalizeText value.
Proof. apply normalizeText_normalized. Qed.

End Normalisation.

(** ** The extracted records *)

Section Records.
Context {R : Runtime} {C : Cheerio}.

Lemma nonEmpty_length {A} (s : list A) : (0 <? length s) = true <-> s <> [].
Proof. destruct s; simpl; split; (done || lia || by intros _). Qed.

Lemma nonEmpty_true (s : jsstring) : nonEmpty s = true <-> s <> [].
Proof. by destruct s. Qed.

Lemma max_list_le (l : list nat) n : Forall (fun x => x <= n) l -> max_list l <= n.
Proof. induction 1; simpl; lia. Qed.

Lemma cellTexts_normalized cells :
  Forall whitespaceNormalized (cellTexts cells).
Proof.
  unfold cellTexts. apply Forall_forall. intros x Hx.
  apply list_elem_of_In, in_map_iff in Hx as (cell & <- & _).
  apply normalizeText_normalized.
Qed.

Lemma tableHeaders_normalized table :
  Forall whitespaceNormalized (tableHeaders table).
Proof.
  unfold tableHeaders. repeat case_match; try constructor;
    apply Forall_take, cellTexts_normalized.
Qed.

Lemma tableRows_good table headers : Forall rowGood (tableRows table headers).
Proof.
  unfold tableRows. apply each_invariant; [|constructor].
  intros rows i tr _ Hrows. unfold rowStep.
  destruct (MAX_TABLE_ROWS <=? length rows); [done|].
  destruct (_ && _); [done|]. cbv zeta.
  destruct (0 <? length _) eqn:Hne; [|done].
  apply nonEmpty_length in Hne.
  apply Forall_app. split; [done|]. apply Forall_singleton.
  split; [done|]. apply Forall_forall. intros cell Hcell.
  apply list_elem_of_In, filter_In in Hcell as [Hin Hlen].
  split; [by apply nonEmpty_length|].
  apply list_elem_of_In in Hin.
  eapply Forall_forall; [|exact Hin].
  apply Forall_take, cellTexts_normalized.
Qed.

(** X3.  Every table record is consistent: [rowCount] is the number of
    rows, [colCount] the largest number of cells in the headers or in a row,
    between 1 and 20; a table has headers or rows; every row is non-empty and
    its cells are non-empty; caption, headers and cells are white-space
    normalised. *)
Theorem X3_table_records (html url : jsstring) :
  Forall
    (fun t =>
       Table.rowCount t = length (Table.rows t)
       /\ Table.colCount t
          = max_list (length (Table.headers t)
                        :: List.map length (Table.rows t))
       /\ 1 <= Table.colCount t <= 20
       /\ (Table.headers t <> [] \/ Table.rows t <> [])
       /\ Forall
            (fun row =>
               row <> []
               /\ Forall (fun cell => cell <> [] /\ whitespaceNormalized cell)
                    row)
            (Table.rows t)
       /\ Forall whitespaceNormalized (Table.headers t)
       /\ whitespaceNormalized (Table.caption t))
    (tables (extractFromHtml html url)).
Proof.
  cbn [extractFromHtml tables]. unfold extractTables.
  apply each_invariant; [|constructor].
  intros ts i table _ Hts. unfold tableStep.
  destruct (MAX_TABLES <=? length ts); [done|].
  destruct (_ && _) eqn:Hempty; [done|].
  apply Forall_app. split; [done|]. apply Forall_singleton.
  cbn [Table.rowCount Table.colCount Table.rows Table.headers Table.caption].
  pose proof (tableHeaders_length table) as Hh.
  destruct (tableRows_ok table (tableHeaders table)) as [_ Hrows].
  pose proof (tableRows_good table (tableHeaders table)) as Hgood.
  assert (tableHeaders table <> [] \/ tableRows table (tableHeaders table) <> [])
    as Hsome.
  { apply andb_false_iff in Hempty as [H|H]; apply Nat.eqb_neq in H;
      [left | right]; intros Heq; by rewrite Heq in H. }
  split_and!; try done.
  - destruct Hsome as [Hne|Hne].
    + etrans; [|apply max_list_elem_of_le; by left].
      destruct (tableHeaders table); [done | simpl; lia].
    + destruct (tableRows table (tableHeaders table)) as [|row rows] eqn:Hr;
        [done|].
      apply Forall_cons in Hgood as [[Hrow _] _].
      etrans; [|apply max_list_elem_of_le; right; by left].
      destruct row; [done | simpl; lia].
  - apply max_list_le. constructor; [exact Hh|].
    apply Forall_fmap. eapply Forall_impl; [exact Hrows|]. done.
  - apply tableHeaders_normalized.
  - apply normalizeText_normalized.
Qed.

(** X4.  Every list record is consistent: [itemCount] is the number of
    items, between 1 and 60; the type is ul or ol; every item is non-empty
    and white-space normalised. *)
Theorem X4_list_records (html url : jsstring) :
  Forall
    (fun l =>
       List_.itemCount l = length (List_.items l)
       /\ 1 <= List_.itemCount l <= 60
       /\ (List_.type l = js "ul" \/ List_.type l = js "ol")
       /\ Forall (fun item => item <> [] /\ whitespaceNormalized item)
            (List_.items l))
    (lists (extractFromHtml html url)).
Proof.
  cbn [extractFromHtml lists]. unfold extractLists.
  apply each_invariant; [|constructor].
  intros ls i lst _ Hls. unfold listStep.
  destruct (MAX_LISTS <=? length ls); [done|].
  destruct (length (listItems lst) =? 0) eqn:Hlen; [done|].
  apply Nat.eqb_neq in Hlen.
  apply Forall_app. split; [done|]. apply Forall_singleton.
  cbn [List_.itemCount List_.items List_.type].
  pose proof (listItems_length lst) as Hmax.
  split_and!; try done; try (unfold MAX_LIST_ITEMS in Hmax; lia).
  - unfold listType. repeat case_match; auto.
  - unfold listItems. apply Forall_take, Forall_forall. intros item Hitem.
    apply list_elem_of_In, filter_In in Hitem as [Hin Hne].
    split; [by apply nonEmpty_length|].
    apply in_map_iff in Hin as (li & <- & _). apply normalizeText_normalized.
Qed.

Lemma skipTags_short (s : jsstring) : s ∈ skipTags -> length s <= 5.
Proof.
  unfold skipTags. rewrite elem_of_list_to_set. revert s.
  apply Forall_forall. vm_compute. repeat constructor.
Qed.

Lemma componentName_ok el tag :
  tag <> [] -> tag ∉ skipTags ->
  componentName el tag <> [] /\ componentName el tag ∉ skipTags.
Proof.
  intros Hne Hskip. unfold componentName.
  repeat case_match; try done. split; [done|].
  intros Hin%skipTags_short. rewrite length_app in Hin.
  change (length (js "input[type=")) with 11 in Hin. lia.
Qed.

(** X5.  Every component record has a non-empty name that is not one of
    the skipped tags (p, a, img, table, ul, ol) and a non-empty content; it
    is read from one of the candidate elements, its content being the first
    300 code units of what [componentContent] computes. *)
Theorem X5_component_records (html url : jsstring) :
  Forall
    (fun c =>
       Component.name c <> []
       /\ (Component.name c ∉ skipTags)
       /\ Component.content c <> []
       /\ exists el,
            (el ∈ select (load html) candidates)
            /\ Component.name c
               = componentName el (toLowerCase (default [] (tagName el)))
            /\ Component.content c = take 300 (componentContent el))
    (uniqueComponents (extractFromHtml html url)).
Proof.
  cbn [extractFromHtml uniqueComponents]. unfold extractUniqueComponents.
  apply (each_invariant
           (fun st : gset jsstring * list Component.t =>
              Forall
                (fun c =>
                   Component.name c <> []
                   /\ (Component.name c ∉ skipTags)
                   /\ Component.content c <> []
                   /\ exists el,
                        (el ∈ select (load html) candidates)
                        /\ Component.name c
                           = componentName el
                               (toLowerCase (default [] (tagName el)))
                        /\ Component.content c = take 300 (componentContent el))
                st.2)); [|constructor].
  intros [seen out] i el Hel Hout. cbn [snd] in Hout. unfold componentStep.
  destruct (MAX_UNIQUE_COMPONENTS <=? length out); [done|].
  destruct (negb (nonEmpty _) || bool_decide _) eqn:Hskip; [done|].
  destruct (negb (nonEmpty (componentContent el))) eqn:Hcontent; [done|].
  destruct (bool_decide (_ ∈ seen)); [done|]. cbn [snd].
  apply Forall_app. split; [done|]. apply Forall_singleton.
  cbn [Component.name Component.content].
  apply orb_false_iff in Hskip as [Htag Hskip].
  apply negb_false_iff, nonEmpty_true in Htag.
  apply bool_decide_eq_false in Hskip.
  apply negb_false_iff, nonEmpty_true in Hcontent.
  destruct (componentName_ok el _ Htag Hskip) as [Hname Hnotskip].
  split_and!; try done.
  - destruct (componentContent el); [done | by simpl].
  - by exists el.
Qed.

(** X6.  The title of an extraction is never empty; no image URL is empty;
    every link comes from an [a] element whose href is non-empty and starts
    neither with # nor with javascript:, has a non-empty text (the trimmed
    text of the element, or the href), and has as URL the href resolved
    against the base URL, or the href itself when that fails and the href
    starts with http. *)
Theorem X6_title_images_links (html url : jsstring) :
  let d := extractFromHtml html url in
  title d <> []
  /\ Forall (fun src => src <> []) (images d)
  /\ Forall
       (fun l =>
          Link.text l <> []
          /\ exists el h,
               (el ∈ select (load html) "a")
               /\ attr el "href" = Some h
               /\ h <> []
               /\ startsWith h (js "#") = false
               /\ startsWith h (js "javascript:") = false
               /\ Link.text l = orStr (trim (text el)) h
               /\ match newURL h (Some url) with
                  | Some u => Link.url l = href u
                  | None => Link.url l = h /\ startsWith h (js "http") = true
                  end)
       (links d).
Proof.
  cbv zeta. cbn [extractFromHtml title images links]. split_and!.
  - unfold orStr. repeat case_match; done.
  - apply Forall_take, Forall_forall. intros src Hsrc.
    apply list_elem_of_In, filter_In in Hsrc as [_ Hne].
    by apply nonEmpty_true.
  - apply Forall_take, Forall_forall. intros l Hl.
    apply list_elem_of_omap in Hl as (el & Hel & Hlink).
    unfold linkOf in Hlink.
    destruct (attr el "href") as [[|c r]|] eqn:Hhref; try done.
    destruct (startsWith (c :: r) (js "#")) eqn:Hfrag; [done|].
    destruct (startsWith (c :: r) (js "javascript:")) eqn:Hjs; [done|].
    cbn [orb] in Hlink.
    assert (orStr (trim (text el)) (c :: r) <> []) as Htext.
    { unfold orStr. by destruct (trim (text el)). }
    destruct (newURL (c :: r) (Some url)) as [u|] eqn:Hurl.
    + injection Hlink as <-. split; [done|].
      exists el, (c :: r). rewrite Hurl. by split_and!.
    + destruct (startsWith (c :: r) (js "http")) eqn:Hhttp; [|done].
      injection Hlink as <-. split; [done|].
      exists el, (c :: r). rewrite Hurl. by split_and!.
Qed.

End Records.

(** ** The technology stack *)

Section TechStack.
Context {R : Runtime}.

Lemma techInv_skip n k n' k' t :
  techInv n k t -> n <= n' -> k <= k' -> techInv n' k' t.
Proof.
  intros [Hsub Hlen] Hn Hk. split; [|lia].
  etrans; [exact Hsub|].
  replace n with (n `min` n') by lia. rewrite <- take_take.
  apply sublist_take.
Qed.

Lemma techInv_push m n k n' k' t (name icon : string) :
  techInv n k t ->
  techCatalog !! m = Some (js name) -> n <= m -> m < n' -> k < k' ->
  techInv n' k' (push t name icon).
Proof.
  intros Hinv Hm Hnm Hmn Hk.
  apply (techInv_skip (S m) (S k)); [|lia|lia].
  apply (techInv_skip n k m k) in Hinv as [Hsub Hlen]; [|lia|lia].
  unfold push. split.
  - rewrite fmap_app, (take_S_r _ _ _ Hm). by apply sublist_app.
  - rewrite length_app. simpl. lia.
Qed.

Lemma let_inv {A B} (I : A -> Prop) (Q : B -> Prop) (a : A) (f : A -> B) :
  I a -> (forall x, I x -> Q (f x)) -> Q (let x := a in f x).
Proof. intros Ha H. exact (H a Ha). Qed.

Lemma techCatalog_NoDup : NoDup techCatalog.
Proof. apply (bool_decide_unpack _). vm_compute. exact I. Qed.

Ltac tech_block n k :=
  lazymatch goal with
  | |- ?Q (let x := ?a in @?f x) =>
      apply (let_inv (techInv n k) Q a f);
      [ repeat case_match;
        first
          [ eapply techInv_skip; [eassumption|lia|lia]
          | eapply (techInv_push (n - 1)); [eassumption|reflexivity|lia|lia|lia]
          | eapply (techInv_push (n - 2)); [eassumption|reflexivity|lia|lia|lia] ]
      | let t := fresh "t" in let H := fresh "Ht" in intros t H ]
  end.

Lemma detectTechStack_inv (html url : jsstring) :
  techInv 20 18 (detectTechStack html url).
Proof.
  cbv beta delta [detectTechStack].
  lazymatch goal with
  | |- ?Q (let x := ?a in @?f x) =>
      apply (let_inv (fun _ => True) Q a f); [exact I | intros lowerHtml _]
  end.
  lazymatch goal with
  | |- ?Q (let x := ?a in @?f x) =>
      apply (let_inv (fun _ => True) Q a f); [exact I | intros has _]
  end.
  lazymatch goal with
  | |- ?Q (let x := ?a in @?f x) =>
      apply (let_inv (techInv 0 0) Q a f);
      [ split; [constructor | simpl; lia] | intros t0 Ht0 ]
  end.
  tech_block 2 1. tech_block 4 2. tech_block 5 3. tech_block 6 4.
  tech_block 7 5. tech_block 8 6. tech_block 9 7. tech_block 10 8.
  tech_block 11 9. tech_block 12 10. tech_block 13 11. tech_block 14 12.
  tech_block 15 13. tech_block 16 14. tech_block 17 15. tech_block 18 16.
  tech_block 19 17. tech_block 20 18.
  assumption.
Qed.

(** X7.  The names of the detected technologies are a subsequence of the
    catalogue of twenty names, in its order; so no name is reported twice,
    and there are at most 18 of them (Next.js excludes React, Nuxt.js
    excludes Vue.js). *)
Theorem X7_techStack_catalogue (html url : jsstring) :
  let names := Tech.name <$> detectTechStack html url in
  sublist names techCatalog
  /\ NoDup names
  /\ length (detectTechStack html url) <= 18.
Proof.
  destruct (detectTechStack_inv html url) as [Hsub Hlen].
  rewrite firstn_all2 in Hsub by (vm_compute; lia).
  cbv zeta. split_and!; [exact Hsub | | exact Hlen].
  eapply sublist_NoDup; [apply techCatalog_NoDup | exact Hsub].
Qed.

End TechStack.

(** ** The calls a computation makes *)

Section Traces.
Context {A B : Type}.

Lemma traces_weaken (m : M A) (T T' : list Event -> Err.t + A -> Prop) :
  traces m T -> (forall evs r, T evs r -> T' evs r) -> traces m T'.
Proof.
  intros Hm HT log log' r Hrun.
  destruct (Hm _ _ _ Hrun) as (evs & -> & Hevs). exists evs. auto.
Qed.

Lemma traces_ret (a : A) : traces (ret a) (fun evs r => evs = [] /\ r = inr a).
Proof.
  intros log log' r [= <- <-]. exists []. by rewrite app_nil_r.
Qed.

Lemma traces_throw (e : Err.t) :
  traces (@throw A e) (fun evs r => evs = [] /\ r = inl e).
Proof.
  intros log log' r [= <- <-]. exists []. by rewrite app_nil_r.
Qed.

Lemma traces_bind (m : M A) (k : A -> M B)
    (T1 : list Event -> Err.t + A -> Prop)
    (T : list Event -> Err.t + B -> Prop) :
  traces m T1 ->
  (forall evs e, T1 evs (inl e) -> T evs (inl e)) ->
  (forall evs a, T1 evs (inr a) ->
     traces (k a) (fun evs' r => T (evs ++ evs') r)) ->
  traces (bind m k) T.
Proof.
  intros Hm He Hk log log' r. unfold bind.
  destruct (m log) as [log1 [e|a]] eqn:Hrun;
    destruct (Hm _ _ _ Hrun) as (evs & -> & Hevs).
  - intros [= <- <-]. exists evs. split; [done|]. by apply He.
  - intros Hrun'. destruct (Hk _ _ Hevs _ _ _ Hrun') as (evs' & -> & Hevs').
    exists (evs ++ evs'). by rewrite app_assoc.
Qed.

Lemma traces_tryCatch (body : M A) (handler : Err.t -> M A)
    (T1 T : list Event -> Err.t + A -> Prop) :
  traces body T1 ->
  (forall evs a, T1 evs (inr a) -> T evs (inr a)) ->
  (forall evs e, T1 evs (inl e) ->
     traces (handler e) (fun evs' r => T (evs ++ evs') r)) ->
  traces (tryCatch body handler) T.
Proof.
  intros Hm Ha Hh log log' r. unfold tryCatch.
  destruct (body log) as [log1 [e|a]] eqn:Hrun;
    destruct (Hm _ _ _ Hrun) as (evs & -> & Hevs).
  - intros Hrun'. destruct (Hh _ _ Hevs _ _ _ Hrun') as (evs' & -> & Hevs').
    exists (evs ++ evs'). by rewrite app_assoc.
  - intros [= <- <-]. exists evs. split; [done|]. by apply Ha.
Qed.

Lemma traces_tryFinally (body : M A) (fin : M unit)
    (T1 : list Event -> Err.t + A -> Prop)
    (T2 : list Event -> Err.t + unit -> Prop)
    (T : list Event -> Err.t + A -> Prop) :
  traces body T1 -> traces fin T2 ->
  (forall evs1 r1 evs2 r2, T1 evs1 r1 -> T2 evs2 r2 ->
     T (evs1 ++ evs2) (match r2 with inl e => inl e | inr _ => r1 end)) ->
  traces (tryFinally body fin) T.
Proof.
  intros Hbody Hfin HT log log' r. unfold tryFinally.
  destruct (body log) as [log1 r1] eqn:Hrun.
  destruct (Hbody _ _ _ Hrun) as (evs1 & -> & Hevs1).
  destruct (fin (log ++ evs1)) as [log2 r2] eqn:Hclose.
  destruct (Hfin _ _ _ Hclose) as (evs2 & -> & Hevs2).
  pose proof (HT _ _ _ _ Hevs1 Hevs2) as Hall.
  destruct r2 as [e|u]; intros [= <- <-]; exists (evs1 ++ evs2);
    by rewrite app_assoc.
Qed.

Lemma traces_withTimeout w (promise : M A) ms msg
    (T1 T : list Event -> Err.t + A -> Prop) :
  traces promise T1 ->
  (forall evs r, T1 evs r ->
     T evs (if timer_wins w msg then inl (newError msg) else r)) ->
  traces (withTimeout w promise ms msg) T.
Proof.
  intros Hp HT log log' r. unfold withTimeout.
  destruct (promise log) as [log1 r1] eqn:Hrun.
  destruct (Hp _ _ _ Hrun) as (evs & -> & Hevs).
  pose proof (HT _ _ Hevs) as Hall.
  destruct (timer_wins w msg); intros [= <- <-]; by exists evs.
Qed.

End Traces.

Lemma traces_emit ev : traces (emit ev) (fun evs r => evs = [ev] /\ r = inr tt).
Proof. intros log log' r [= <- <-]. by exists [ev]. Qed.

Lemma traces_settle ev outcome :
  traces (settle ev outcome)
    (fun evs r =>
       evs = [ev]
       /\ r = match outcome with
              | Some m => inl (newError m)
              | None => inr tt
              end).
Proof.
  intros log log' r. unfold settle, bind, emit, throw, ret.
  destruct outcome; intros [= <- <-]; by exists [ev].
Qed.

(** ** The calls of the fetchers *)

Section Sessions.
Context {R : Runtime} {C : Cheerio}.
Variable w : World.

Lemma scrapeWithHttp_traces url :
  traces (scrapeWithHttp w url) (fun evs _ => evs = [EvHttpGet url]).
Proof.
  intros log log' r. unfold scrapeWithHttp, bind, emit, throw, ret.
  repeat case_match; intros [= <- <-]; by eexists.
Qed.

Lemma tryExtractLoopFrom_traces url remaining attempt :
  traces (tryExtractLoopFrom w url attempt remaining)
    (fun evs r =>
       exists n,
         n <= remaining
         /\ (forall i, i < n -> attemptSettles w url (attempt + i) = false)
         /\ (n < remaining -> attemptSettles w url (attempt + n) = true)
         /\ evs
            = List.flat_map
                (fun attempt => [EvContent attempt; EvScroll attempt])
                (seq attempt n)
              ++ (if n <? remaining then [EvContent (attempt + n)] else [])
         /\ (forall x, r = inr (Some x) -> n < remaining)).
Proof.
  revert attempt. induction remaining as [|k IH]; intros attempt log log' r.
  - intros [= <- <-]. exists []. rewrite app_nil_r. split; [done|].
    exists 0. split_and!; try done; lia.
  - cbn [tryExtractLoopFrom]. unfold bind at 1, emit.
    destruct (page_content w attempt) as [m|html] eqn:Hcontent.
    { intros [= <- <-]. exists [EvContent attempt]. split; [done|].
      exists 0. rewrite Nat.add_0_r. split_and!; try done; try lia.
      intros _. unfold attemptSettles. by rewrite Hcontent. }
    destruct (_ && _) eqn:Hok.
    { intros [= <- <-]. exists [EvContent attempt]. split; [done|].
      exists 0. rewrite Nat.add_0_r. split_and!; try done; try lia.
      intros _. unfold attemptSettles. by rewrite Hcontent. }
    unfold bind at 1. intros Hrun.
    apply IH in Hrun as (evs & -> & n & Hn & Hbefore & Hat & -> & Hret).
    eexists. split; [by rewrite <- !app_assoc|].
    exists (S n). split_and!.
    + lia.
    + intros [|i] Hi.
      * rewrite Nat.add_0_r. unfold attemptSettles. by rewrite Hcontent.
      * rewrite Nat.add_succ_r. apply Hbefore. lia.
    + intros Hlt. rewrite Nat.add_succ_r. apply Hat. lia.
    + cbn [seq List.flat_map app]. rewrite Nat.add_succ_r.
      replace (S n <? S k) with (n <? k) by done.
      reflexivity.
    + intros x Hx. specialize (Hret x Hx). lia.
Qed.

Lemma tryExtractLoop_traces url :
  traces (tryExtractLoop w url)
    (fun evs r =>
       pageReads w url evs
       /\ (forall x, r = inr (Some x) ->
             exists before i, evs = before ++ [EvContent i])).
Proof.
  eapply traces_weaken; [apply (tryExtractLoopFrom_traces url 6 0)|].
  intros evs r (n & Hn & Hbefore & Hat & -> & Hret). split.
  - by exists n.
  - intros x Hx. specialize (Hret x Hx).
    apply Nat.ltb_lt in Hret as ->. by eexists _, _.
Qed.

Lemma executablePath_run log :
  exists r,
    executablePath w log = (log, r)
    /\ executableFound w
       = match r with
         | inr path => truthy path
         | inl _ => false
         end.
Proof.
  unfold executablePath, executableFound.
  destruct (isServerlessChromium w).
  { destruct (chromium_executablePath w) as [m|path]; by eexists. }
  eexists. split; [done|]. unfold guessLocalExecutablePath.
  destruct (truthy (PUPPETEER_EXECUTABLE_PATH w)) eqn:Hpath; [done|].
  cbn [orb]. destruct (jseqb (platform w) (js "win32")); [done|].
  by destruct (jseqb (platform w) (js "darwin")).
Qed.

(** The calls between launch and close. *)
Lemma pageSession_traces url :
  traces
    (settle EvPageSetup (page_setup w) ;;;
     settle (EvGoto url) (page_goto w url) ;;;
     loopResult <- tryExtractLoop w url ;;
     match loopResult with
     | None => throw (newError (js "BLOCKED_OR_EMPTY"))
     | Some (html, extracted) => ret (rest extracted)
     end)
    (fun evs r =>
       pageCalls w url evs
       /\ (forall s, r = inr s ->
             exists before i, evs = before ++ [EvContent i])).
Proof.
  unfold pageCalls.
  eapply traces_bind; [apply traces_settle| |].
  { intros evs e [-> Hr]. split; [|done].
    by destruct (page_setup w). }
  intros evs1 u1 [-> Hsetup].
  destruct (page_setup w); [done|].
  eapply traces_bind; [apply traces_settle| |].
  { intros evs e [-> Hr]. split; [|done].
    by destruct (page_goto w url). }
  intros evs2 u2 [-> Hgoto].
  destruct (page_goto w url); [done|].
  eapply traces_bind; [apply tryExtractLoop_traces| |].
  { intros evs e [Hreads _]. split; [|done]. by exists evs. }
  intros evs [[html extracted]|] [Hreads Hlast].
  - eapply traces_weaken; [apply traces_ret|].
    intros evs' r [-> _]. rewrite app_nil_r.
    split; [by exists evs|].
    intros _ _. destruct (Hlast _ eq_refl) as (before & i & ->).
    by exists (EvPageSetup :: EvGoto url :: before), i.
  - eapply traces_weaken; [apply traces_throw|].
    intros evs' r [-> ->]. rewrite app_nil_r.
    split; [by exists evs | done].
Qed.

Lemma scrapeWithBrowser_traces url :
  traces (scrapeWithBrowser w url)
    (fun evs r =>
       browserSession w url evs
       /\ (forall s, r = inr s ->
             exists calls i,
               evs = EvLaunch :: calls ++ [EvContent i; EvClose])).
Proof.
  assert (traces
            (settle EvLaunch (puppeteer_launch w) ;;;
             tryFinally
               (settle EvPageSetup (page_setup w) ;;;
                settle (EvGoto url) (page_goto w url) ;;;
                loopResult <- tryExtractLoop w url ;;
                match loopResult with
                | None => throw (newError (js "BLOCKED_OR_EMPTY"))
                | Some (html, extracted) => ret (rest extracted)
                end)
               (settle EvClose (browser_close w)))
            (fun evs r =>
               match puppeteer_launch w with
               | Some _ => evs = [EvLaunch]
               | None =>
                   exists calls,
                     evs = EvLaunch :: calls ++ [EvClose]
                     /\ pageCalls w url calls
               end
               /\ (forall s, r = inr s ->
                     exists calls i,
                       evs = EvLaunch :: calls ++ [EvContent i; EvClose])))
    as Hlaunched.
  { eapply traces_bind; [apply traces_settle| |].
    { intros evs e [-> Hr]. split; [|done].
      by destruct (puppeteer_launch w). }
    intros evs u [-> Hlaunch].
    destruct (puppeteer_launch w); [done|].
    eapply traces_tryFinally;
      [apply pageSession_traces | apply traces_settle|].
    intros calls r1 evs2 r2 [Hcalls Hlast] [-> Hr2]. split.
    - by exists calls.
    - intros s Hs. destruct r2 as [e|u']; [done|].
      destruct (Hlast s Hs) as (before & i & ->). exists before, i.
      by rewrite <- app_assoc. }
  intros log log' r. unfold scrapeWithBrowser, browserSession.
  unfold bind at 1.
  destruct (executablePath_run log) as (x & -> & ->).
  destruct x as [e|path].
  { intros [= <- <-]. exists []. by rewrite app_nil_r. }
  destruct (truthy path).
  2:{ intros [= <- <-]. exists []. by rewrite app_nil_r. }
  cbn [negb]. intros Hrun. exact (Hlaunched _ _ _ Hrun).
Qed.

End Sessions.

Section Conduct.
Context {R : Runtime} {C : Cheerio}.
Variable w : World.

Lemma count_app (p : Event -> bool) (l k : list Event) :
  count p (l ++ k) = count p l + count p k.
Proof. unfold count. by rewrite List.filter_app, length_app. Qed.

Lemma pageReads_counts url reads :
  pageReads w url reads ->
  reads `prefix_of`
    List.flat_map (fun attempt => [EvContent attempt; EvScroll attempt])
      (seq 0 6)
  /\ 1 <= count isContent reads <= 6
  /\ count isLaunch reads = 0
  /\ count isClose reads = 0.
Proof.
  intros (n & Hn & _ & _ & ->).
  destruct n as [|[|[|[|[|[|[|n]]]]]]]; try lia;
    (split; [by eexists|]); cbn; lia.
Qed.

Lemma pageCalls_counts url calls :
  pageCalls w url calls ->
  calls `prefix_of` pageScript url
  /\ head calls = Some EvPageSetup
  /\ count isContent calls <= 6
  /\ count isLaunch calls = 0
  /\ count isClose calls = 0.
Proof.
  unfold pageCalls, pageScript.
  destruct (page_setup w).
  { intros ->. split; [by eexists|]. by split_and!; cbn; try lia. }
  destruct (page_goto w url).
  { intros ->. split; [by eexists|]. by split_and!; cbn; try lia. }
  intros (reads & -> & Hreads).
  destruct (pageReads_counts url reads Hreads) as (Hpre & Hc & Hl & Hx).
  split; [by apply (prefix_app [_; _])|].
  change (EvPageSetup :: EvGoto url :: reads)
    with ([EvPageSetup; EvGoto url] ++ reads).
  rewrite !count_app. split_and!; [done | cbn; lia | cbn; lia | cbn; lia].
Qed.

(** X11.  The calls of a run of [scrapeWithBrowser].  When no executable
    is found it makes none.  Otherwise it launches the browser; when the
    launch fails that is its only call.  When the launch succeeds, the
    set-up, the navigation and the reads follow, as far as they succeed:
    content and scroll for the attempts before the first one at which the
    read fails or the document passes both checks, then the content of that
    attempt, and all six attempts when there is none; and the browser is
    closed as the last call, whatever happened in between.  So the browser
    is closed exactly once per successful launch and not otherwise, it is
    launched at most once, and the content is read at most 6 times. *)
Theorem X11_browser_is_closed (url : jsstring) :
  traces (scrapeWithBrowser w url)
    (fun evs r =>
       (if executableFound w
        then
          match puppeteer_launch w with
          | Some _ => evs = [EvLaunch]
          | None =>
              exists calls,
                evs = EvLaunch :: calls ++ [EvClose]
                /\ calls `prefix_of` pageScript url
                /\ match page_setup w with
                   | Some _ => calls = [EvPageSetup]
                   | None =>
                       match page_goto w url with
                       | Some _ => calls = [EvPageSetup; EvGoto url]
                       | None =>
                           exists reads,
                             calls = EvPageSetup :: EvGoto url :: reads
                             /\ pageReads w url reads
                       end
                   end
          end
        else evs = [])
       /\ count isContent evs <= 6
       /\ count isLaunch evs <= 1
       /\ (if executableFound w && bool_decide (puppeteer_launch w = None)
           then last evs = Some EvClose /\ count isClose evs = 1
           else count isClose evs = 0)).
Proof.
  eapply traces_weaken; [apply scrapeWithBrowser_traces|].
  intros evs r [Hsession _]. unfold browserSession in Hsession.
  destruct (executableFound w); [|subst evs; by split_and!; cbn; try lia].
  destruct (puppeteer_launch w) as [m|] eqn:Hlaunch.
  { subst evs. rewrite bool_decide_eq_false_2 by done.
    by split_and!; cbn; try lia. }
  rewrite bool_decide_eq_true_2 by done. cbn [andb].
  destruct Hsession as (calls & -> & Hcalls).
  destruct (pageCalls_counts url calls Hcalls) as (Hpre & _ & Hc & Hl & Hx).
  change (EvLaunch :: calls ++ [EvClose])
    with ([EvLaunch] ++ calls ++ [EvClose]).
  rewrite !count_app, Hl, Hx. split_and!.
  - exists calls. split_and!; [done | exact Hpre | exact Hcalls].
  - cbn. lia.
  - cbn. lia.
  - by rewrite app_assoc, last_snoc.
  - cbn. lia.
Qed.

End Conduct.

Section Orchestration.
Context {R : Runtime} {C : Cheerio}.
Variable w : World.

(** *** What the fetchers accept *)

Lemma scrapeWithHttp_passes url :
  returnsOnly (passes HTTP url) (scrapeWithHttp w url).
Proof.
  unfold scrapeWithHttp. apply returnsOnly_bind. intros _.
  destruct (axios_get w url) as [status data|status typeError|m];
    [|destruct (400 <=? status); apply returnsOnly_throw
     |apply returnsOnly_throw].
  destruct (400 <=? status); [apply returnsOnly_throw|].
  destruct (looksBlockedOrJsRequired _ _) eqn:Hblocked;
    [apply returnsOnly_throw|].
  apply returnsOnly_ret. by split_and!.
Qed.

Lemma tryExtractLoopFrom_passes url remaining attempt :
  returnsOnly
    (fun r =>
       match r with
       | None => True
       | Some (html, extracted) =>
           extracted = extractFromHtml html url
           /\ looksBlockedOrJsRequired (Some html) (Some extracted) = false
           /\ looksEmptyExtraction (Some extracted) = false
       end)
    (tryExtractLoopFrom w url attempt remaining).
Proof.
  revert attempt. induction remaining as [|k IH]; intros attempt; simpl.
  - by apply returnsOnly_ret.
  - apply returnsOnly_bind. intros _.
    destruct (page_content w attempt) as [m|html]; [apply returnsOnly_throw|].
    destruct (_ && _) eqn:Hok.
    + apply returnsOnly_ret.
      apply andb_true_iff in Hok as [Hb He].
      apply negb_true_iff in Hb, He. by split_and!.
    + apply returnsOnly_bind. intros _. apply IH.
Qed.

Lemma scrapeWithBrowser_passes url :
  returnsOnly (passes BROWSER url) (scrapeWithBrowser w url).
Proof.
  unfold scrapeWithBrowser. apply returnsOnly_bind. intros path.
  destruct (negb (truthy path)); [apply returnsOnly_throw|].
  apply returnsOnly_bind. intros _. apply returnsOnly_tryFinally.
  apply returnsOnly_bind. intros _. apply returnsOnly_bind. intros _.
  eapply returnsOnly_bind_strong; [apply tryExtractLoopFrom_passes|].
  intros [[html extracted]|] Hr; [|apply returnsOnly_throw].
  apply returnsOnly_ret. destruct Hr as (-> & Hb & He). by split_and!.
Qed.

(** *** The orchestrator, call by call *)

Lemma httpFetch_traces url :
  traces (httpFetch w url)
    (fun evs r => evs = [EvHttpGet url]
                  /\ forall s, r = inr s -> passes HTTP url s).
Proof.
  assert (traces (httpFetch w url) (fun evs _ => evs = [EvHttpGet url]))
    as Ht.
  { unfold httpFetch.
    eapply traces_withTimeout; [apply scrapeWithHttp_traces | done]. }
  intros log log' r Hrun.
  destruct (Ht _ _ _ Hrun) as (evs & -> & ->).
  unfold httpFetch in Hrun.
  eexists. split; [done|]. split; [done|]. intros s ->.
  exact (returnsOnly_withTimeout w _ _ _ _ (scrapeWithHttp_passes url)
           _ _ _ Hrun).
Qed.

Lemma httpFetch_returns url log log' r :
  httpFetch w url log = (log', r) ->
  httpReturns w url = match r with inr _ => true | inl _ => false end.
Proof.
  unfold httpFetch, withTimeout, httpReturns, scrapeWithHttp, bind, emit.
  destruct (axios_get w url) as [status data|status typeError|m].
  - rewrite Nat.ltb_antisym. destruct (400 <=? status).
    + unfold throw. destruct (timer_wins w _); by intros [= <- <-].
    + destruct (looksBlockedOrJsRequired _ _); unfold throw, ret;
        destruct (timer_wins w _); by intros [= <- <-].
  - destruct (400 <=? status); unfold throw;
      destruct (timer_wins w _); by intros [= <- <-].
  - unfold throw. destruct (timer_wins w _); by intros [= <- <-].
Qed.

Lemma browserFetch_traces url :
  traces (browserFetch w url)
    (fun evs r =>
       browserSession w url evs
       /\ forall s, r = inr s -> passes BROWSER url s).
Proof.
  assert (traces (browserFetch w url)
            (fun evs _ => browserSession w url evs)) as Ht.
  { unfold browserFetch.
    eapply traces_withTimeout; [apply scrapeWithBrowser_traces|].
    by intros evs r0 [Hs _]. }
  intros log log' r Hrun.
  destruct (Ht _ _ _ Hrun) as (evs & -> & Hsession).
  unfold browserFetch in Hrun.
  exists evs. split; [done|]. split; [done|]. intros s ->.
  exact (returnsOnly_withTimeout w _ _ _ _ (scrapeWithBrowser_passes url)
           _ _ _ Hrun).
Qed.

Lemma scrapePhase_traces url :
  traces (scrapePhase w url)
    (fun evs r =>
       exists session,
         evs = EvHttpGet url :: session
         /\ (if httpReturns w url then session = []
             else browserSession w url session)
         /\ match r with
            | inr (s, method) =>
                passes method url s
                /\ method = (if httpReturns w url then HTTP else BROWSER)
            | inl e =>
                httpReturns w url = false
                /\ exists eh eb, e = scrapeFailure w url (Some eh) eb
            end).
Proof.
  intros log log' r. rewrite scrapePhase_run.
  destruct (httpFetch w url log) as [log1 [eh|s]] eqn:Hh;
    destruct (httpFetch_traces url _ _ _ Hh) as (evs1 & -> & -> & Hpass);
    rewrite (httpFetch_returns _ _ _ _ Hh).
  - destruct (browserFetch w url _) as [log2 [eb|s]] eqn:Hb;
      destruct (browserFetch_traces url _ _ _ Hb) as (evs2 & -> & Hsession & Hs);
      intros [= <- <-]; exists ([EvHttpGet url] ++ evs2);
      (split; [by rewrite app_assoc|]); exists evs2;
      (split; [done|]); (split; [done|]).
    + split; [done|]. by exists eh, eb.
    + split; [by apply Hs | done].
  - intros [= <- <-]. exists [EvHttpGet url]. split; [done|].
    exists []. split; [done|]. split; [done|]. split; [by apply Hpass|done].
Qed.

Lemma summaryPhase_traces prompt text :
  traces (summaryPhase w prompt text)
    (fun evs r => evs = summariserCalls prompt text
                  /\ exists summary, r = inr summary).
Proof.
  intros log log' r. unfold summaryPhase, summariserCalls.
  destruct prompt as [[|c p]|].
  1,3: intros [= <- <-]; exists []; rewrite app_nil_r; by eauto.
  unfold bind, emit, ret. destruct (axios_post w _); [|case_bool_decide];
    intros [= <- <-]; eexists; eauto.
Qed.

Lemma scrapeFailure_type url eh eb :
  Err.message (scrapeFailure w url eh eb)
  ∈ [js "TIMEOUT"; js "LOGIN_REQUIRED"; js "BLOCKED"; js "SCRAPE_ERROR"].
Proof.
  cbn [scrapeFailure Err.message]. unfold errorTypeOf.
  repeat case_match; set_solver.
Qed.

(** Every run of the orchestrator: a bad request without a call; or the
    HTTP request, a browser session if that returned no document, and the
    call to the summariser if a document was accepted and a prompt was
    given. *)
Lemma scrapeAndSummarize_traces (input : option Input) :
  traces (scrapeAndSummarize w input)
    (fun evs r =>
       match from_option url None input with
       | Some (c :: rawUrl) =>
           match validateScrapeUrl (c :: rawUrl) with
           | inl _ => evs = [] /\ exists e, r = inl e /\ badRequest e
           | inr u =>
               exists session,
                 (if httpReturns w u then session = []
                  else browserSession w u session)
                 /\ match r with
                    | inl e =>
                        evs = EvHttpGet u :: session
                        /\ httpReturns w u = false
                        /\ exists eh eb, e = scrapeFailure w u (Some eh) eb
                    | inr res =>
                        ScrapeResult.url res = u
                        /\ ScrapeResult.methodUsed res
                           = (if httpReturns w u then HTTP else BROWSER)
                        /\ passes (ScrapeResult.methodUsed res) u
                             (scrapedOf res)
                        /\ evs
                           = EvHttpGet u :: session
                             ++ summariserCalls
                                  (from_option prompt None input)
                                  (fullText u (scrapedOf res))
                    end
           end
       | _ => evs = [] /\ exists e, r = inl e /\ badRequest e
       end).
Proof.
  unfold scrapeAndSummarize. cbv zeta.
  destruct (from_option url None input) as [[|c rawUrl]|].
  1,3: eapply traces_weaken; [apply traces_throw|]; intros evs r [-> ->];
    split; [done|]; eexists; split; [done|];
    split_and!; [done | set_solver | by eexists].
  destruct (validateScrapeUrl (c :: rawUrl)) as [e|normalizedUrl] eqn:Hv.
  { eapply traces_weaken; [apply traces_throw|]. intros evs r [-> ->].
    split; [done|]. eexists. split; [done|].
    split_and!; [done | | by eexists].
    cbn [Err.message].
    destruct (validateScrapeUrl_error _ _ Hv) as [-> | ->];
      vm_compute; set_solver. }
  eapply traces_bind; [apply scrapePhase_traces| |].
  { intros evs e (session & -> & Hsession & Hhttp & eh & eb & ->).
    exists session. split; [done|]. split_and!; [done | done |].
    by exists eh, eb. }
  intros evs [s method] (session & -> & Hsession & Hpass & Hmethod).
  eapply traces_bind; [apply summaryPhase_traces| |].
  { by intros evs e [_ [summary ?]]. }
  intros evs summary [-> _].
  eapply traces_weaken; [apply traces_ret|]. intros evs r [-> ->].
  exists session. split; [done|].
  cbn [ScrapeResult.url ScrapeResult.methodUsed].
  assert (scrapedOf
            {| ScrapeResult.url := normalizedUrl;
               ScrapeResult.methodUsed := method;
               ScrapeResult.summary := summary;
               ScrapeResult.title := Scraped.title s;
               ScrapeResult.description := Scraped.description s;
               ScrapeResult.paragraphs := Scraped.paragraphs s;
               ScrapeResult.images := Scraped.images s;
               ScrapeResult.links := Scraped.links s;
               ScrapeResult.tables := Scraped.tables s;
               ScrapeResult.lists := Scraped.lists s;
               ScrapeResult.uniqueComponents := Scraped.uniqueComponents s;
               ScrapeResult.rawHtml := Scraped.rawHtml s;
               ScrapeResult.techStack := Scraped.techStack s;
               ScrapeResult.scrapedAt := now w |} = s) as ->
    by (by destruct s).
  split_and!; try done. by rewrite app_nil_r.
Qed.

(** What a returned result is. *)
Lemma scrapeAndSummarize_returns (input : option Input) log log' res :
  scrapeAndSummarize w input log = (log', inr res) ->
  passes (ScrapeResult.methodUsed res) (ScrapeResult.url res) (scrapedOf res).
Proof.
  intros Hrun.
  destruct (scrapeAndSummarize_traces input _ _ _ Hrun) as (evs & _ & Hcase).
  destruct (from_option url None input) as [[|c rawUrl]|];
    try (by destruct Hcase as (_ & e & ? & _)).
  destruct (validateScrapeUrl _);
    [by destruct Hcase as (_ & e & ? & _)|].
  by destruct Hcase as (session & _ & -> & _ & Hpass & _).
Qed.

(** What a thrown error is. *)
Lemma scrapeAndSummarize_throws (input : option Input) log log' e :
  scrapeAndSummarize w input log = (log', inl e) ->
  (log' = log /\ badRequest e)
  \/ exists u session eh eb,
       log' = log ++ EvHttpGet u :: session
       /\ e = scrapeFailure w u (Some eh) eb.
Proof.
  intros Hrun.
  destruct (scrapeAndSummarize_traces input _ _ _ Hrun) as (evs & -> & Hcase).
  destruct (from_option url None input) as [[|c rawUrl]|];
    try (destruct Hcase as (-> & e' & [= <-] & Hbad); left;
         by rewrite app_nil_r).
  destruct (validateScrapeUrl _) as [e'|u];
    [destruct Hcase as (-> & e'' & [= <-] & Hbad); left; by rewrite app_nil_r|].
  destruct Hcase as (session & _ & -> & _ & eh & eb & ->).
  right. by exists u, session, eh, eb.
Qed.

End Orchestration.

Section Requests.
Context {R : Runtime} {C : Cheerio}.
Variable w : World.

Lemma passes_body (method : Method) url s :
  passes method url s ->
  120 <= _bodyTextLength (extractFromHtml (Scraped.rawHtml s) url).
Proof.
  intros (_ & Hb & _). unfold looksBlockedOrJsRequired in Hb.
  destruct (_ <? 120) eqn:Hlen; [done|]. by apply Nat.ltb_ge in Hlen.
Qed.

Lemma fullText_length url s : length (fullText url s) <= 4500.
Proof. unfold fullText. rewrite length_take. lia. Qed.

(** X9.  A result that [scrapeAndSummarize] returns is the extraction of
    the document it carries in [rawHtml]; that document was not classified
    as blocked, so its body text has at least 120 code units.  When the
    browser was used it was not classified as empty either: there is a
    paragraph or there are at least 4 links, and there are two paragraphs or
    at least 200 code units of body text. *)
Theorem X9_results_passed_the_checks (input : option Input)
    (log log' : list Event) (res : ScrapeResult.t) :
  scrapeAndSummarize w input log = (log', inr res) ->
  let html := ScrapeResult.rawHtml res in
  let d := extractFromHtml html (ScrapeResult.url res) in
  ScrapeResult.paragraphs res = paragraphs d
  /\ ScrapeResult.links res = links d
  /\ looksBlockedOrJsRequired (Some html) (Some d) = false
  /\ 120 <= _bodyTextLength d
  /\ (ScrapeResult.methodUsed res = BROWSER ->
      looksEmptyExtraction (Some d) = false
      /\ (1 <= length (ScrapeResult.paragraphs res)
          \/ 4 <= length (ScrapeResult.links res))
      /\ (2 <= length (ScrapeResult.paragraphs res)
          \/ 200 <= _bodyTextLength d)).
Proof.
  intros Hrun.
  pose proof (scrapeAndSummarize_returns w input _ _ _ Hrun) as Hpass.
  pose proof (passes_body _ _ _ Hpass) as Hbody.
  destruct Hpass as (Hs & Hblocked & Hempty).
  cbv zeta. cbn [scrapedOf Scraped.rawHtml] in Hs, Hblocked, Hempty, Hbody.
  set (d := extractFromHtml (ScrapeResult.rawHtml res) (ScrapeResult.url res))
    in *.
  assert (ScrapeResult.paragraphs res = paragraphs d) as ->
    by exact (f_equal Scraped.paragraphs Hs).
  assert (ScrapeResult.links res = links d) as ->
    by exact (f_equal Scraped.links Hs).
  split_and!; try done.
  intros Hmethod. specialize (Hempty Hmethod). split; [done|].
  unfold looksEmptyExtraction in Hempty. cbn [from_option] in Hempty.
  destruct ((_bodyTextLength d <? 200) && (length (paragraphs d) <? 2))
    eqn:H1; [done|].
  destruct ((length (paragraphs d) =? 0) && (length (links d) <=? 3))
    eqn:H2; [done|].
  apply andb_false_iff in H1, H2.
  rewrite !Nat.ltb_ge in H1. rewrite Nat.eqb_neq, Nat.leb_gt in H2. lia.
Qed.

(** X10.  Every error that [scrapeAndSummarize] throws is one of its own:
    either a bad request (status 400, thrown before any call is made, with
    a payload without details and the message URL_REQUIRED, INVALID_URL or
    INVALID_URL_PROTOCOL), or a failed scrape (status 422, thrown after the
    HTTP request was made, with the message TIMEOUT, LOGIN_REQUIRED, BLOCKED
    or SCRAPE_ERROR, which is also the errorType of its payload, and with
    the details and the URL in the payload). *)
Theorem X10_thrown_errors_are_public (input : option Input)
    (log log' : list Event) (e : Err.t) :
  scrapeAndSummarize w input log = (log', inl e) ->
  (log' = log /\ badRequest e)
  \/ (exists u evs p d,
        log' = log ++ EvHttpGet u :: evs
        /\ Err.statusCode e = Some 422
        /\ Err.message e
           ∈ [js "TIMEOUT"; js "LOGIN_REQUIRED"; js "BLOCKED";
              js "SCRAPE_ERROR"]
        /\ Err.publicPayload e = Some p
        /\ Payload.errorType p = Some (Err.message e)
        /\ Payload.url p = Some u
        /\ Payload.details p = Some d).
Proof.
  intros Hrun.
  destruct (scrapeAndSummarize_throws w input _ _ _ Hrun)
    as [Hbad|(u & session & eh & eb & -> & ->)].
  - by left.
  - right. eexists u, session, _, _. split_and!; try done.
    apply scrapeFailure_type.
Qed.


End Requests.

Section Discipline.
Context {R : Runtime} {C : Cheerio}.
Variable w : World.

(** X12.  The calls of a request, in order.  A request without a url, or
    with one that [validateScrapeUrl] rejects, makes none and fails with
    status 400.  Any other request first makes the HTTP request for the
    URL that [validateScrapeUrl] returns, once.  When the HTTP fetch
    returns a document nothing follows from the browser and the method is
    HTTP; when it does not, the browser session for that URL follows, and
    the method of a result is BROWSER.  A request that fails then has
    status 422 and makes no further call.  A request that returns calls the
    summariser last, once, exactly when the prompt is a non-empty string,
    with the prompt, a colon, two line feeds and the digest of its own url
    and extraction fields, which has at most 4500 code units. *)
Theorem X12_call_discipline (input : option Input) :
  traces (scrapeAndSummarize w input)
    (fun evs r =>
       match from_option url None input with
       | Some (c :: rawUrl) =>
           match validateScrapeUrl (c :: rawUrl) with
           | inl _ =>
               evs = []
               /\ exists e, r = inl e /\ Err.statusCode e = Some 400
           | inr u =>
               exists session,
                 (if httpReturns w u then session = []
                  else browserSession w u session)
                 /\ match r with
                    | inl e =>
                        evs = EvHttpGet u :: session
                        /\ httpReturns w u = false
                        /\ Err.statusCode e = Some 422
                    | inr res =>
                        ScrapeResult.url res = u
                        /\ ScrapeResult.methodUsed res
                           = (if httpReturns w u then HTTP else BROWSER)
                        /\ evs
                           = EvHttpGet u :: session
                             ++ summariserCalls
                                  (from_option prompt None input)
                                  (fullText u (scrapedOf res))
                        /\ length (fullText u (scrapedOf res)) <= 4500
                    end
           end
       | _ =>
           evs = [] /\ exists e, r = inl e /\ Err.statusCode e = Some 400
       end).
Proof.
  eapply traces_weaken; [apply scrapeAndSummarize_traces|].
  intros evs r Hcase.
  destruct (from_option url None input) as [[|c rawUrl]|];
    try (destruct Hcase as (-> & e & -> & Hstatus & _);
         split; [done|]; by exists e).
  destruct (validateScrapeUrl _) as [e'|u].
  { destruct Hcase as (-> & e & -> & Hstatus & _).
    split; [done|]. by exists e. }
  destruct Hcase as (session & Hsession & Hr).
  exists session. split; [exact Hsession|].
  destruct r as [e|res].
  - destruct Hr as (-> & Hhttp & eh & eb & ->). by split_and!.
  - destruct Hr as (Hu & Hmethod & _ & ->).
    split_and!; [done | done | done | apply fullText_length].
Qed.

(** X13.  The route answers every request and never throws.  When the
    body of the request was read, the answer follows the outcome of
    [scrapeAndSummarize] on it, with the same calls: 200 with the very
    result it returned; or, for the error it threw, the status and the
    public payload of that error, which is 400 when no call was made (a
    payload without details) and 422 after calls (a payload with details);
    never 500.  When reading the body fails with a plain error, the answer
    is 500 with the generic message, and no call is made. *)
Theorem X13_POST_responses :
  (forall (input : option Input) (log : list Event),
     match scrapeAndSummarize w input log with
     | (log', inr output) =>
         POST w (inr input) log
         = (log', inr {| Response.status := 200;
                         Response.body := BodyResult output |})
     | (log', inl e) =>
         exists payload status,
           Err.publicPayload e = Some payload
           /\ Err.statusCode e = Some status
           /\ ((status = 400 /\ log' = log
                /\ Payload.details payload = None)
               \/ (status = 422 /\ log' <> log
                   /\ is_Some (Payload.details payload)))
           /\ POST w (inr input) log
              = (log', inr {| Response.status := status;
                              Response.body := BodyPayload payload |})
     end)
  /\ (forall (message : jsstring) (log : list Event),
        POST w (inl (newError message)) log
        = (log, inr {| Response.status := 500;
                       Response.body := BodyInternal (now w) |})).
Proof.
  split; [|done].
  intros input log.
  assert (forall log' r,
            scrapeAndSummarize w input log = (log', r) ->
            POST w (inr input) log
            = match r with
              | inr output =>
                  (log', inr {| Response.status := 200;
                                Response.body := BodyResult output |})
              | inl e =>
                  match Err.publicPayload e, Err.statusCode e with
                  | Some payload, Some (S n) =>
                      (log', inr {| Response.status := S n;
                                    Response.body := BodyPayload payload |})
                  | _, _ =>
                      (log', inr {| Response.status := 500;
                                    Response.body := BodyInternal (now w) |})
                  end
              end) as Hpost.
  { intros log' r Hrun. unfold POST, tryCatch, bind, ret. rewrite Hrun.
    destruct r as [e|output]; [|done].
    destruct (Err.publicPayload e); [|done].
    by destruct (Err.statusCode e) as [[|n]|]. }
  destruct (scrapeAndSummarize w input log) as [log' [e|output]] eqn:Hrun;
    [|exact (Hpost _ _ eq_refl)].
  rewrite (Hpost _ _ eq_refl).
  destruct (scrapeAndSummarize_throws w input _ _ _ Hrun)
    as [[-> (Hstatus & _ & p & Hp & Hd)]
       |(u & session & eh & eb & -> & ->)].
  - exists p, 400. rewrite Hp, Hstatus. split_and!; try done.
    left. by split_and!.
  - eexists _, 422. cbn [Err.publicPayload Err.statusCode scrapeFailure].
    split_and!; try done. right. split_and!; [done | | by eexists].
    intros Heq. apply (f_equal length) in Heq.
    rewrite length_app in Heq. cbn [length] in Heq. lia.
Qed.

End Discipline.

(** ** The digest *)

Section Digest.

Lemma join_head sep (x : jsstring) (l : list jsstring) c :
  head x = Some c -> head (join sep (x :: l)) = Some c.
Proof. destruct x; [done|]. intros [= ->]. by destruct l. Qed.

(** X8.  The text of the tables in the digest is empty exactly when there
    is no table, and the text of the lists exactly when there is no list:
    the digest says None for them in this case only. *)
Theorem X8_digest_sections (tables : list Table.t) (lists : list List_.t) :
  (formatTablesForPrompt tables = [] <-> tables = [])
  /\ (formatListsForPrompt lists = [] <-> lists = []).
Proof.
  split; split; try (by intros ->).
  - destruct tables as [|t ts]; [done|]. unfold formatTablesForPrompt.
    cbn [length Nat.eqb Nat.min take formatTablesFrom app].
    intros Hnil.
    assert (head (@nil N) = Some 84%N) as Hhead; [|done].
    rewrite <- Hnil. by apply join_head.
  - destruct lists as [|l ls]; [done|]. unfold formatListsForPrompt.
    cbn [length Nat.eqb Nat.min take formatListsFrom app].
    intros Hnil.
    assert (head (@nil N) = Some 76%N) as Hhead; [|done].
    rewrite <- Hnil. by apply join_head.
Qed.

End Digest.

(** ** The input script and the actor *)

Section Input.

Lemma jseqb_true a b : jseqb a b = true <-> a = b.
Proof. unfold jseqb. by rewrite bool_decide_eq_true. Qed.

Lemma parseArgsFrom_url n : forall argv out v,
  length argv <= n ->
  Cli.url (parseArgsFrom out argv) = Some v ->
  Cli.url out = Some v
  \/ exists i, argv !! i = Some (js "--url") /\ argv !! S i = Some v.
Proof.
  induction n as [|n IH]; intros [|a rest] out v Hlen; cbn [parseArgsFrom];
    try (by left); cbn [length] in Hlen; try lia.
  destruct (jseqb a (js "--url")) eqn:Ha.
  { apply jseqb_true in Ha as ->. destruct rest as [|x rest']; [done|].
    intros Hv. cbn [length] in Hlen.
    destruct (IH rest' _ v ltac:(lia) Hv) as [[= ->]|[i [H1 H2]]].
    - right. by exists 0.
    - right. by exists (S (S i)). }
  destruct (jseqb a (js "--prompt")).
  { destruct rest as [|x rest']; [by left|].
    intros Hv. cbn [length] in Hlen.
    destruct (IH rest' _ v ltac:(lia) Hv) as [Hv'|[i [H1 H2]]].
    - by left.
    - right. by exists (S (S i)). }
  intros Hv. destruct (IH rest _ v ltac:(lia) Hv) as [Hv'|[i [H1 H2]]].
  - by left.
  - right. by exists (S i).
Qed.

Lemma parseArgsFrom_prompt n : forall argv out v,
  length argv <= n ->
  Cli.prompt (parseArgsFrom out argv) = Some v ->
  Cli.prompt out = Some v
  \/ exists i, argv !! i = Some (js "--prompt") /\ argv !! S i = Some v.
Proof.
  induction n as [|n IH]; intros [|a rest] out v Hlen; cbn [parseArgsFrom];
    try (by left); cbn [length] in Hlen; try lia.
  destruct (jseqb a (js "--url")) eqn:Ha.
  { destruct rest as [|x rest']; [by left|].
    intros Hv. cbn [length] in Hlen.
    destruct (IH rest' _ v ltac:(lia) Hv) as [Hv'|[i [H1 H2]]].
    - by left.
    - right. by exists (S (S i)). }
  destruct (jseqb a (js "--prompt")) eqn:Hp.
  { apply jseqb_true in Hp as ->. destruct rest as [|x rest']; [done|].
    intros Hv. cbn [length] in Hlen.
    destruct (IH rest' _ v ltac:(lia) Hv) as [[= ->]|[i [H1 H2]]].
    - right. by exists 0.
    - right. by exists (S (S i)). }
  intros Hv. destruct (IH rest _ v ltac:(lia) Hv) as [Hv'|[i [H1 H2]]].
  - by left.
  - right. by exists (S i).
Qed.

Lemma parseArgsFrom_pairs (pairs : list (bool * jsstring)) : forall out,
  let argv :=
    List.flat_map
      (fun p : bool * jsstring =>
         [if p.1 then js "--url" else js "--prompt"; p.2]) pairs in
  Cli.url (parseArgsFrom out argv)
  = from_option Some (Cli.url out)
      (last (snd <$> List.filter fst pairs))
  /\ Cli.prompt (parseArgsFrom out argv)
     = from_option Some (Cli.prompt out)
         (last (snd <$> List.filter (fun p => negb p.1) pairs)).
Proof.
  induction pairs as [|[[] v] ps IH]; intros out; [done| |].
  - cbn [List.flat_map fst snd app parseArgsFrom List.filter negb].
    change (jseqb (js "--url") (js "--url")) with true. cbv iota.
    destruct (IH {| Cli.url := Some v; Cli.prompt := Cli.prompt out |})
      as [Hu Hp].
    cbv zeta in Hu, Hp. cbv zeta. rewrite Hu, Hp. cbn [Cli.url Cli.prompt].
    split; [|done]. rewrite fmap_cons. cbn [snd].
    by destruct (snd <$> List.filter fst ps) as [|x l] using rev_ind;
      [|rewrite app_comm_cons, !last_snoc].
  - cbn [List.flat_map fst snd app parseArgsFrom List.filter negb].
    change (jseqb (js "--prompt") (js "--url")) with false.
    change (jseqb (js "--prompt") (js "--prompt")) with true. cbv iota.
    destruct (IH {| Cli.url := Cli.url out; Cli.prompt := Some v |})
      as [Hu Hp].
    cbv zeta in Hu, Hp. cbv zeta. rewrite Hu, Hp. cbn [Cli.url Cli.prompt].
    split; [done|]. rewrite fmap_cons. cbn [snd].
    by destruct (snd <$> List.filter (fun p => negb p.1) ps) as [|x l]
      using rev_ind; [|rewrite app_comm_cons, !last_snoc].
Qed.

(** X14.  A value that [parseArgs] returns for url is the argument that
    follows an argument --url, and likewise for prompt; without an argument
    --url it returns no url.  When the arguments are pairs of a flag and
    its value, the last --url and the last --prompt win. *)
Theorem X14_parseArgs_values (argv : list jsstring) :
  (forall v, Cli.url (parseArgs argv) = Some v ->
     exists i, argv !! i = Some (js "--url") /\ argv !! S i = Some v)
  /\ (forall v, Cli.prompt (parseArgs argv) = Some v ->
        exists i, argv !! i = Some (js "--prompt") /\ argv !! S i = Some v)
  /\ (js "--url" ∉ argv -> Cli.url (parseArgs argv) = None)
  /\ (js "--prompt" ∉ argv -> Cli.prompt (parseArgs argv) = None)
  /\ (forall pairs : list (bool * jsstring),
        argv
        = List.flat_map
            (fun p : bool * jsstring =>
               [if p.1 then js "--url" else js "--prompt"; p.2]) pairs ->
        Cli.url (parseArgs argv) = last (snd <$> List.filter fst pairs)
        /\ Cli.prompt (parseArgs argv)
           = last (snd <$> List.filter (fun p => negb p.1) pairs)).
Proof.
  assert (forall v, Cli.url (parseArgs argv) = Some v ->
            exists i, argv !! i = Some (js "--url") /\ argv !! S i = Some v)
    as Hurl.
  { intros v Hv.
    by destruct (parseArgsFrom_url _ argv _ v (le_n _) Hv) as [?|?]. }
  assert (forall v, Cli.prompt (parseArgs argv) = Some v ->
            exists i, argv !! i = Some (js "--prompt")
                      /\ argv !! S i = Some v)
    as Hprompt.
  { intros v Hv.
    by destruct (parseArgsFrom_prompt _ argv _ v (le_n _) Hv) as [?|?]. }
  split_and!; [exact Hurl | exact Hprompt | | |].
  - intros Hno. destruct (Cli.url (parseArgs argv)) as [v|] eqn:Hv; [|done].
    destruct (Hurl v eq_refl) as (i & Hi & _). destruct Hno.
    by eapply list_elem_of_lookup_2.
  - intros Hno. destruct (Cli.prompt (parseArgs argv)) as [v|] eqn:Hv; [|done].
    destruct (Hprompt v eq_refl) as (i & Hi & _). destruct Hno.
    by eapply list_elem_of_lookup_2.
  - intros pairs ->. unfold parseArgs.
    destruct (parseArgsFrom_pairs pairs {| Cli.url := None; Cli.prompt := None |})
      as [Hu Hp].
    cbv zeta in Hu, Hp. rewrite Hu, Hp. cbn [Cli.url Cli.prompt].
    clear. split.
    + by destruct (last (snd <$> List.filter fst pairs)).
    + by destruct (last (snd <$> List.filter (fun p => negb p.1) pairs)).
Qed.

Context {R : Runtime} {C : Cheerio}.
Variable w : World.

Lemma scrapeAndSummarize_with_url c r p :
  throwsOnly
    (fun e =>
       Err.statusCode e = Some 422
       \/ (Err.statusCode e = Some 400
           /\ Err.message e ∈ [js "INVALID_URL"; js "INVALID_URL_PROTOCOL"]))
    (scrapeAndSummarize w (Some {| url := Some (c :: r); prompt := p |})).
Proof.
  unfold scrapeAndSummarize. cbn [from_option url prompt]. cbv zeta.
  destruct (validateScrapeUrl (c :: r)) as [e|normalizedUrl] eqn:Hv.
  { apply throwsOnly_throw. right. split; [done|]. cbn [Err.message].
    destruct (validateScrapeUrl_error _ _ Hv) as [-> | ->];
      vm_compute; set_solver. }
  apply throwsOnly_bind.
  { intros log log' e Hrun.
    destruct (scrapePhase_traces w _ _ _ _ Hrun)
      as (evs & _ & session & _ & _ & _ & eh & eb & ->). by left. }
  intros [s method]. apply throwsOnly_bind; [|intros summary; apply throwsOnly_ret].
  intros log log' e Hrun. by destruct (summaryPhase_throws w _ _ _ _ _ Hrun).
Qed.

(** X15.  The INPUT that scripts/set-input.mjs writes is accepted by
    main.js.  Its url is a non-empty string, the one given after --url or
    else the environment variable URL; its prompt is absent or a non-empty
    string.  When [Actor.getInput()] returns it, the actor does not stop
    with the error for a missing INPUT: it runs [scrapeAndSummarize] on it.
    An error of that run ends the actor before any write, and is no
    URL_REQUIRED: it has status 422, or status 400 for a URL that is not a
    valid http(s) URL.  Otherwise the output goes to the dataset and then
    under the key OUTPUT to the key-value store; the actor returns when
    both writes succeed, and when one is rejected it ends with the error
    of that write, the dataset being written already if it was the
    second. *)
Theorem X15_set_input_feeds_main (sdk : ActorSdk) (argv : list jsstring)
    (envURL envPROMPT : option jsstring) (input : Input) :
  setInput argv envURL envPROMPT = Some input ->
  getInput sdk = inr (Some input) ->
  truthy (url input) = true
  /\ url input = orElse (Cli.url (parseArgs argv)) envURL
  /\ (prompt input = None
      \/ (truthy (prompt input) = true
          /\ prompt input = orElse (Cli.prompt (parseArgs argv)) envPROMPT))
  /\ forall log log' writes r,
       actorMain w sdk log = (log', writes, r) ->
       match r with
       | inr _ =>
           exists output,
             scrapeAndSummarize w (Some input) log = (log', inr output)
             /\ pushData sdk output = None
             /\ setValue sdk (js "OUTPUT") output = None
             /\ writes = [PushData output; SetValue (js "OUTPUT") output]
       | inl e =>
           (scrapeAndSummarize w (Some input) log = (log', inl e)
            /\ writes = []
            /\ (Err.statusCode e = Some 422
                \/ (Err.statusCode e = Some 400
                    /\ Err.message e
                       ∈ [js "INVALID_URL"; js "INVALID_URL_PROTOCOL"])))
           \/ (exists output m,
                 scrapeAndSummarize w (Some input) log = (log', inr output)
                 /\ e = newError m
                 /\ ((pushData sdk output = Some m /\ writes = [])
                     \/ (pushData sdk output = None
                         /\ setValue sdk (js "OUTPUT") output = Some m
                         /\ writes = [PushData output])))
       end.
Proof.
  unfold setInput. cbv zeta.
  destruct (truthy (orElse (Cli.url (parseArgs argv)) envURL)) eqn:Hurl;
    [|done].
  cbn [negb]. intros [= <-] Hget. cbn [url prompt].
  split_and!; [done | done | |].
  - destruct (truthy (orElse (Cli.prompt (parseArgs argv)) envPROMPT)) eqn:Hp;
      [by right | by left].
  - intros log log' writes r. unfold actorMain. rewrite Hget.
    cbn [from_option url]. rewrite Hurl. cbn [negb].
    destruct (scrapeAndSummarize w _ log) as [log1 [e|output]] eqn:Hrun.
    + intros [= <- <- <-]. left. split_and!; [done | done |].
      destruct (orElse (Cli.url (parseArgs argv)) envURL) as [[|c u]|];
        [done | | done].
      exact (scrapeAndSummarize_with_url _ _ _ _ _ _ Hrun).
    + destruct (pushData sdk output) as [m|] eqn:Hpush.
      { intros [= <- <- <-]. right. exists output, m.
        split_and!; [done | done |]. left. by split. }
      destruct (setValue sdk (js "OUTPUT") output) as [m|] eqn:Hset.
      { intros [= <- <- <-]. right. exists output, m.
        split_and!; [done | done |]. right. by split_and!. }
      intros [= <- <- <-]. exists output. by split_and!.
Qed.

End Input.

(** ** Further runs *)

Section FurtherRuns.
Import Examples Scenes.
Local Existing Instances Mini.cheerio Mini.runtime.

(** The request for the single-page application: the browser is used, the
    second attempt is accepted, and the browser is closed. *)
Example rendered_run :
  scrapeAndSummarize renderedWorld (request "https://example.com/" None) []
  = (renderedLog, inr renderedResult).
Proof. vm_compute. reflexivity. Qed.

(** X9 in [renderedWorld], where the browser returns the page. *)
Lemma X9_witness :
  scrapeAndSummarize renderedWorld (request "https://example.com/" None) []
  = (renderedLog, inr renderedResult)
  /\ ScrapeResult.methodUsed renderedResult = BROWSER
  /\ (1 <= length (ScrapeResult.paragraphs renderedResult)
      \/ 4 <= length (ScrapeResult.links renderedResult))
  /\ 120 <= _bodyTextLength
              (extractFromHtml (ScrapeResult.rawHtml renderedResult)
                 (ScrapeResult.url renderedResult)).
Proof.
  assert (scrapeAndSummarize renderedWorld
            (request "https://example.com/" None) []
          = (renderedLog, inr renderedResult)) as Hrun
    by (vm_compute; reflexivity).
  pose proof (X9_results_passed_the_checks renderedWorld _ _ _ _ Hrun) as H.
  cbv zeta in H. destruct H as (_ & _ & _ & Hbody & Hbrowser).
  destruct (Hbrowser eq_refl) as (_ & Hsome & _).
  split_and!; [exact Hrun | reflexivity | exact Hsome | exact Hbody].
Defined.

(** X10 in [offlineWorld]: the request fails with status 422. *)
Lemma X10_witness :
  scrapeAndSummarize offlineWorld (request "https://example.com/" None) []
  = (offlineLog, inl offlineError)
  /\ ((offlineLog = [] /\ badRequest offlineError)
      \/ exists u evs p d,
           offlineLog = [] ++ EvHttpGet u :: evs
           /\ Err.statusCode offlineError = Some 422
           /\ Err.message offlineError
              ∈ [js "TIMEOUT"; js "LOGIN_REQUIRED"; js "BLOCKED";
                 js "SCRAPE_ERROR"]
           /\ Err.publicPayload offlineError = Some p
           /\ Payload.errorType p = Some (Err.message offlineError)
           /\ Payload.url p = Some u
           /\ Payload.details p = Some d).
Proof.
  assert (scrapeAndSummarize offlineWorld (request "https://example.com/" None)
            [] = (offlineLog, inl offlineError)) as Hrun
    by (vm_compute; reflexivity).
  split; [exact Hrun|].
  exact (X10_thrown_errors_are_public offlineWorld _ _ _ _ Hrun).
Defined.

(** X15 for [--url https://example.com/] with the prompt taken from the
    environment: the script writes [scriptInput], and the actor that reads
    it scrapes the page and makes both writes. *)
Lemma X15_witness :
  setInput [js "--url"; exampleUrl] (Some (js "https://other.example/"))
    (Some (js "Summarize"))
  = Some scriptInput
  /\ getInput quietSdk = inr (Some scriptInput)
  /\ actorMain quietWorld quietSdk []
     = (quietLog,
        [PushData quietResult; SetValue (js "OUTPUT") quietResult], inr tt)
  /\ exists output,
       scrapeAndSummarize quietWorld (Some scriptInput) []
       = (quietLog, inr output)
       /\ [PushData quietResult; SetValue (js "OUTPUT") quietResult]
          = [PushData output; SetValue (js "OUTPUT") output].
Proof.
  assert (setInput [js "--url"; exampleUrl] (Some (js "https://other.example/"))
            (Some (js "Summarize"))
          = Some scriptInput) as Hset by (vm_compute; reflexivity).
  assert (actorMain quietWorld quietSdk []
          = (quietLog,
             [PushData quietResult; SetValue (js "OUTPUT") quietResult],
             inr tt)) as Hrun by (vm_compute; reflexivity).
  destruct (X15_set_input_feeds_main quietWorld quietSdk _ _ _ _ Hset eq_refl)
    as (_ & _ & _ & Hmain).
  destruct (Hmain _ _ _ _ Hrun) as (output & Hscrape & _ & _ & Hwrites).
  split_and!; [exact Hset | reflexivity | exact Hrun |].
  exists output. split; [exact Hscrape | exact Hwrites].
Defined.

(** With a key-value store that rejects the write, the actor ends with the
    error of that write after the dataset was written. *)
Example rejected_write_keeps_dataset :
  actorMain quietWorld fullSdk []
  = (quietLog, [PushData quietResult],
     inl (newError (js "Storage limit exceeded"))).
Proof. vm_compute. reflexivity. Qed.

End FurtherRuns.

Section Executable.
Context {R : Runtime} {C : Cheerio}.
Variable w : World.

(** X16.  Outside the serverless hosts, without PUPPETEER_EXECUTABLE_PATH
    and on a platform other than win32 and darwin, the browser is never
    launched: [scrapeWithBrowser] throws
    LOCAL_BROWSER_EXECUTABLE_NOT_CONFIGURED without making a call, so a
    request makes no call to the browser, and a result can only come from
    the HTTP fetch. *)
Theorem X16_no_browser_without_executable :
  isServerlessChromium w = false ->
  truthy (PUPPETEER_EXECUTABLE_PATH w) = false ->
  platform w <> js "win32" ->
  platform w <> js "darwin" ->
  (forall url log,
     scrapeWithBrowser w url log
     = (log, inl (newError (js "LOCAL_BROWSER_EXECUTABLE_NOT_CONFIGURED"))))
  /\ forall input,
       traces (scrapeAndSummarize w input)
         (fun evs r =>
            Forall (fun ev => isBrowserEvent ev = false) evs
            /\ forall res, r = inr res -> ScrapeResult.methodUsed res = HTTP).
Proof.
  intros Hserverless Hpath Hwin Hmac.
  assert (forall url log,
            scrapeWithBrowser w url log
            = (log,
               inl (newError (js "LOCAL_BROWSER_EXECUTABLE_NOT_CONFIGURED"))))
    as Hbrowser.
  { intros url log. unfold scrapeWithBrowser, executablePath.
    rewrite Hserverless. unfold guessLocalExecutablePath. rewrite Hpath.
    unfold jseqb. rewrite !bool_decide_eq_false_2 by done. reflexivity. }
  split; [exact Hbrowser|]. intros input.
  assert (forall url,
            traces (scrapePhase w url)
              (fun evs r =>
                 evs = [EvHttpGet url]
                 /\ forall s m, r = inr (s, m) -> m = HTTP)) as Hphase.
  { intros url log log' r. rewrite scrapePhase_run.
    destruct (httpFetch w url log) as [log1 [eh|s]] eqn:Hh;
      destruct (httpFetch_traces w url _ _ _ Hh) as (evs1 & -> & -> & _).
    - unfold browserFetch, withTimeout. rewrite Hbrowser.
      destruct (timer_wins w _); intros [= <- <-]; by eexists.
    - intros [= <- <-]. eexists. split; [done|]. split; [done|].
      by intros s' m [= _ <-]. }
  unfold scrapeAndSummarize. cbv zeta.
  destruct (from_option url None input) as [[|c rawUrl]|].
  1,3: eapply traces_weaken; [apply traces_throw|]; by intros evs r [-> ->].
  destruct (validateScrapeUrl (c :: rawUrl)) as [e|normalizedUrl].
  { eapply traces_weaken; [apply traces_throw|]. by intros evs r [-> ->]. }
  eapply traces_bind; [apply Hphase| |].
  { intros evs e [-> _]. split; [|done]. by repeat constructor. }
  intros evs [s method] [-> Hmethod].
  eapply traces_bind; [apply summaryPhase_traces| |].
  { by intros evs e [_ [summary ?]]. }
  intros evs summary [-> _].
  eapply traces_weaken; [apply traces_ret|]. intros evs r [-> ->].
  rewrite app_nil_r. split.
  - constructor; [done|]. unfold summariserCalls.
    repeat case_match; by repeat constructor.
  - intros res [= <-]. cbn [ScrapeResult.methodUsed]. by eapply Hmethod.
Qed.

End Executable.

Section BareRuns.
Import Examples Scenes.
Local Existing Instances Mini.cheerio Mini.runtime.

(** X16 in [bareWorld]: the shell is all the HTTP fetch gets, and the
    request fails without a call to the browser. *)
Lemma X16_witness :
  isServerlessChromium bareWorld = false
  /\ truthy (PUPPETEER_EXECUTABLE_PATH bareWorld) = false
  /\ platform bareWorld <> js "win32"
  /\ platform bareWorld <> js "darwin"
  /\ scrapeWithBrowser bareWorld exampleUrl []
     = ([], inl (newError (js "LOCAL_BROWSER_EXECUTABLE_NOT_CONFIGURED")))
  /\ (scrapeAndSummarize bareWorld (request "https://example.com/" None) []).1
     = [EvHttpGet exampleUrl].
Proof.
  assert (platform bareWorld <> js "win32") as Hwin by (by vm_compute).
  assert (platform bareWorld <> js "darwin") as Hmac by (by vm_compute).
  destruct (X16_no_browser_without_executable bareWorld eq_refl eq_refl
              Hwin Hmac) as [Hbrowser _].
  split_and!; [reflexivity | reflexivity | exact Hwin | exact Hmac
              | apply Hbrowser | vm_compute; reflexivity].
Defined.

End BareRuns.
